(** * craftassist task layer: a shallow embedding of [python/craftassist/tasks.py]

    The Python module drives an agent in a voxel world through a stack of
    tasks.  Every task is a mutable object whose [step] method reads and
    mutates the agent.  The embedding below keeps that shape: a task is a
    record, the agent is a record of the observable state (the voxel world,
    the memory, the task stack, the chat and the primitive calls made so
    far), and a method is a function from the task and the agent to an
    [Outcome] that carries both back, together with the exception raised,
    if any.

    The collaborators that live outside [tasks.py] (the world protocol, the
    memory, the path finder, the block tables) are the fields of the class
    [Collaborators]; every definition and theorem is parametric in them. *)

From Stdlib Require Import ZArith List Bool String Sorted Permutation Lia.
From stdpp Require Import gmap.
Import ListNotations.
Open Scope Z_scope.

(** ** Coordinates, blocks and dense grids *)

(** A world coordinate [(x, y, z)]. *)
Definition XYZ : Type := Z * Z * Z.
(** A block: [(block-type, variant)]. *)
Definition IDM : Type := Z * Z.
(** An entry of a blocks list: [((x, y, z), (id, meta))]. *)
Definition Block : Type := XYZ * IDM.
(** A grid index, in numpy's [(y, z, x)] axis order. *)
Definition Idx : Type := Z * Z * Z.

Definition xyz_add (p q : XYZ) : XYZ :=
  let '(a, b, c) := p in let '(x, y, z) := q in (a + x, b + y, c + z).
Definition xyz_sub (p q : XYZ) : XYZ :=
  let '(a, b, c) := p in let '(x, y, z) := q in (a - x, b - y, c - z).
Definition xyz_dot (p q : XYZ) : Z :=
  let '(a, b, c) := p in let '(x, y, z) := q in a * x + b * y + c * z.
Definition xyz_eqb (p q : XYZ) : bool := bool_decide (p = q).

(** [v[[1, 2, 0]]]: an [(x, y, z)] vector read as a [(y, z, x)] index. *)
Definition to_yzx (p : XYZ) : Idx := let '(x, y, z) := p in (y, z, x).
(** [v[[2, 0, 1]]]: a [(y, z, x)] index read as an [(x, y, z)] vector. *)
Definition to_xyz (i : Idx) : XYZ := let '(y, z, x) := i in (x, y, z).

(** A numpy array of shape [(sy, sz, sx)] (the trailing id/meta axis is the
    cell type [A]).  The arrays of one task share their shape, so the
    element-wise numpy operations are point-wise operations on [cell]. *)
Record Grid (A : Type) : Type := mkGrid {
  shape : nat * nat * nat;
  cell : Idx -> A
}.
Arguments mkGrid {A} _ _.
Arguments shape {A} _.
Arguments cell {A} _ _.

(** A boolean array over a shape known from the context. *)
Definition Mask : Type := Idx -> bool.

Definition zrange (n : nat) : list Z := map Z.of_nat (seq 0 n).

(** All indices of a shape in row-major order, the order of [np.argwhere]. *)
Definition ndindex (sh : nat * nat * nat) : list Idx :=
  let '(sy, sz, sx) := sh in
  flat_map (fun y => flat_map (fun z => map (fun x => (y, z, x)) (zrange sx))
                              (zrange sz))
           (zrange sy).

Definition np_any (sh : nat * nat * nat) (m : Mask) : bool :=
  existsb m (ndindex sh).
Definition np_all (sh : nat * nat * nat) (m : Mask) : bool :=
  forallb m (ndindex sh).
Definition np_argwhere (sh : nat * nat * nat) (m : Mask) : list Idx :=
  List.filter m (ndindex sh).

(** [np.isin(x, values)] for one element. *)
Definition isin (x : Z) (values : list Z) : bool :=
  existsb (Z.eqb x) values.

(** Python's [range(lo, hi)]. *)
Definition py_range (lo hi : Z) : list Z :=
  map (fun i => lo + Z.of_nat i) (seq 0 (Z.to_nat (hi - lo))).

(** [np.min(poss, axis=0)] and [np.max(poss, axis=0)]; numpy raises on an
    empty list, which is [None] here. *)
Definition xyz_min (p q : XYZ) : XYZ :=
  let '(a, b, c) := p in let '(x, y, z) := q in
  (Z.min a x, Z.min b y, Z.min c z).
Definition xyz_max (p q : XYZ) : XYZ :=
  let '(a, b, c) := p in let '(x, y, z) := q in
  (Z.max a x, Z.max b y, Z.max c z).
Definition np_min_axis0 (poss : list XYZ) : option XYZ :=
  match poss with
  | [] => None
  | p :: rest => Some (fold_left xyz_min rest p)
  end.
Definition np_max_axis0 (poss : list XYZ) : option XYZ :=
  match poss with
  | [] => None
  | p :: rest => Some (fold_left xyz_max rest p)
  end.

(** ** Helpers of [util] and [build_utils] *)

(** Modelled from the spec: [util.manhat_dist] is not under src/; the spec
    names it the Manhattan distance between two coordinates. *)
Definition manhat_dist (p q : XYZ) : Z :=
  let '(a, b, c) := p in let '(x, y, z) := q in
  Z.abs (a - x) + Z.abs (b - y) + Z.abs (c - z).

(** Modelled from the spec: [util.strip_idmeta] is not under src/; it drops
    the block-type of every entry of a blocks list and keeps the
    coordinate. *)
Definition strip_idmeta (blocks : list Block) : list XYZ := map fst blocks.

(** Modelled from the spec: [util.to_block_pos] is not under src/; it rounds
    a position down to the block that holds it, which on integer
    coordinates is the identity. *)
Definition to_block_pos (p : XYZ) : XYZ := p.

(** The entry written last for a coordinate, as numpy's item assignment in
    list order leaves it. *)
Fixpoint last_block_at (blocks : list Block) (p : XYZ) : option IDM :=
  match blocks with
  | [] => None
  | (q, idm) :: rest =>
      match last_block_at rest p with
      | Some later => Some later
      | None => if xyz_eqb q p then Some idm else None
      end
  end.

(** Modelled from the spec: [build_utils.blocks_list_to_npy] is not under
    src/; the spec describes the conversion of a sparse list of
    (coordinate, block) pairs into the dense grid indexed [(y, z, x)] over
    the bounding box of the list, where a cell that no entry names holds
    block-type 0 ("no block intended").  The second component is the
    offset of the box.  An empty list has no bounding box. *)
Definition blocks_list_to_npy (blocks : list Block) : option (Grid IDM * Idx) :=
  match np_min_axis0 (strip_idmeta blocks), np_max_axis0 (strip_idmeta blocks) with
  | Some (mx, my, mz), Some (Mx, My, Mz) =>
      Some (mkGrid (Z.to_nat (My - my + 1), Z.to_nat (Mz - mz + 1),
                    Z.to_nat (Mx - mx + 1))
                   (fun '(y, z, x) =>
                      match last_block_at blocks (x + mx, y + my, z + mz) with
                      | Some idm => idm
                      | None => (0, 0)
                      end),
            (my, mz, mx))
  | _, _ => None
  end.

(** Modelled from the spec: [build_utils.npy_to_blocks_list] is not under
    src/; the spec describes the conversion of the dense grid back into the
    sparse list: one entry per cell that holds a block (type other than 0),
    in grid order, at the world coordinate of the cell ([origin] is the
    world coordinate of cell [(0, 0, 0)]). *)
Definition npy_to_blocks_list (npy : Grid IDM) (origin : XYZ) : list Block :=
  flat_map (fun i => let idm := cell npy i in
                     if fst idm =? 0 then []
                     else [(xyz_add (to_xyz i) origin, idm)])
           (ndindex (shape npy)).

(** Modelled from the spec: [build_utils.to_relative_pos] is not under
    src/; Destroy's undo "re-derives a relative schematic and origin from
    the destroyed cells": the origin is the least corner of the list and
    every coordinate is taken relative to it. *)
Definition to_relative_pos (blocks : list Block) : option (list Block * XYZ) :=
  match np_min_axis0 (strip_idmeta blocks) with
  | Some origin =>
      Some (map (fun '(p, idm) => (xyz_sub p origin, idm)) blocks, origin)
  | None => None
  end.

(** ** Stable sorting

    [list.sort(key=...)] is stable.  A stable sort by a key has one result,
    so insertion sort stands for Python's algorithm. *)

Section StableSort.
Context {A : Type} (key : A -> Z).

Fixpoint insert_by (x : A) (l : list A) : list A :=
  match l with
  | [] => [x]
  | y :: l' => if key x <=? key y then x :: l else y :: insert_by x l'
  end.

Definition sort_by (l : list A) : list A := fold_right insert_by [] l.
End StableSort.

(** ** Exceptions and outcomes *)

Inductive Exc : Type :=
| IndexError
| TypeError
| AttributeError
| KeyError
| ValueError
| StopIteration
| AssertionError
| PlainException (msg : string).

Inductive Result (A : Type) : Type :=
| Ok (a : A)
| Raise (e : Exc).
Arguments Ok {A} _.
Arguments Raise {A} _.

(** ** The task objects

    One module per class holds the record of its attributes, under the
    attribute names of the source.  The methods follow further down, after
    the agent they act on. *)

(** A persistent identity of the memory ([memid]). *)
Definition MemId : Type := string.
(** A semantic triple [(subject, predicate, object)]. *)
Definition Triple : Type := string * string * string.
(** A reference to an object injected from outside the module: a
    featurizer callback, a dance movement, a stop condition, a task
    factory. *)
Definition Handle : Type := nat.

(** The memory record a task may point back to through [block_memory]. *)
Record BlockMemory : Type := mkBlockMemory { bm_end_time : option Z }.

(** The attributes every task inherits from [Task.__init__].  [end_time] is
    read by [check_finished] and assigned nowhere in the module: it is
    [None] while the attribute does not exist. *)
Module Base.
Record t : Type := mk {
  interrupted : bool;
  featurizer : option Handle;
  finished : bool;
  name : option string;
  block_memory : option BlockMemory;
  undone : bool;
  memid : option MemId;
  children : list MemId;
  end_time : option Z
}.

Definition set_interrupted (v : bool) (s : t) : t :=
  mk v (featurizer s) (finished s) (name s) (block_memory s) (undone s)
     (memid s) (children s) (end_time s).
Definition set_finished (v : bool) (s : t) : t :=
  mk (interrupted s) (featurizer s) v (name s) (block_memory s) (undone s)
     (memid s) (children s) (end_time s).
Definition set_block_memory (v : option BlockMemory) (s : t) : t :=
  mk (interrupted s) (featurizer s) (finished s) (name s) v (undone s)
     (memid s) (children s) (end_time s).
End Base.

(** [Task.__init__(featurizer)]. *)
Definition Task_init (featurizer : option Handle) : Base.t :=
  Base.mk false featurizer false None None false None [] None.

Module Dance.
Record t : Type := mk {
  base : Base.t;
  movement : Handle
}.
End Dance.

(** The six movement primitives of the agent. *)
Inductive Dir : Type :=
| step_pos_x | step_neg_x | step_pos_y | step_neg_y | step_pos_z | step_neg_z.

Module Move.
Record t : Type := mk {
  base : Base.t;
  target : XYZ;
  approx : Z;
  path : option (list XYZ);
  replace : gset (XYZ * IDM)
}.

(** The class attribute [STEP_FNS], in the order of the dict. *)
Definition STEP_FNS : list (XYZ * Dir) :=
  [ ((1, 0, 0), step_pos_x); ((-1, 0, 0), step_neg_x);
    ((0, 1, 0), step_pos_y); ((0, -1, 0), step_neg_y);
    ((0, 0, 1), step_pos_z); ((0, 0, -1), step_neg_z) ].

(** The [task_data] dict of the constructor. *)
Record data : Type := mkData {
  d_target : XYZ;
  d_approx : option Z
}.
End Move.

Module Build.
(** [attempts] is a [uint8] array: its cells are naturals and the
    wrap-around of its arithmetic is written out where it is used.
    [origin] is [None] when the constructor was handed Python's [None].
    The attributes [task_data], [relations] and [default_behavior] are
    stored by the constructor and read by no method; they are left
    out. *)
Record t : Type := mk {
  base : Base.t;
  embed : bool;
  schematic : Grid IDM;
  origin : option XYZ;
  verbose : bool;
  force : bool;
  attempts : Idx -> N;
  fill_message : bool;
  schematic_memid : option MemId;
  schematic_tags : list (string * string);
  giving_up_message_sent : bool;
  wait : bool;
  old_blocks_list : option (list Block);
  old_origin : option XYZ;
  new_blocks : list Block
}.

Definition PLACE_REACH : Z := 3.

Definition set_base (v : Base.t) (s : t) : t :=
  mk v (embed s) (schematic s) (origin s) (verbose s) (force s) (attempts s)
     (fill_message s) (schematic_memid s) (schematic_tags s)
     (giving_up_message_sent s) (wait s) (old_blocks_list s) (old_origin s)
     (new_blocks s).
Definition set_attempts (v : Idx -> N) (s : t) : t :=
  mk (base s) (embed s) (schematic s) (origin s) (verbose s) (force s) v
     (fill_message s) (schematic_memid s) (schematic_tags s)
     (giving_up_message_sent s) (wait s) (old_blocks_list s) (old_origin s)
     (new_blocks s).
Definition set_giving_up_message_sent (v : bool) (s : t) : t :=
  mk (base s) (embed s) (schematic s) (origin s) (verbose s) (force s)
     (attempts s) (fill_message s) (schematic_memid s) (schematic_tags s)
     v (wait s) (old_blocks_list s) (old_origin s) (new_blocks s).
Definition set_old (l : option (list Block)) (o : option XYZ) (s : t) : t :=
  mk (base s) (embed s) (schematic s) (origin s) (verbose s) (force s)
     (attempts s) (fill_message s) (schematic_memid s) (schematic_tags s)
     (giving_up_message_sent s) (wait s) l o (new_blocks s).
Definition set_new_blocks (v : list Block) (s : t) : t :=
  mk (base s) (embed s) (schematic s) (origin s) (verbose s) (force s)
     (attempts s) (fill_message s) (schematic_memid s) (schematic_tags s)
     (giving_up_message_sent s) (wait s) (old_blocks_list s) (old_origin s)
     v.

(** The [task_data] dict of the constructor: the two keys it indexes and
    the keys it reads with [get]. *)
Record data : Type := mkData {
  d_blocks_list : list Block;
  d_origin : option XYZ;
  d_embed : option bool;
  d_verbose : option bool;
  d_force : option bool;
  d_fill_message : option bool;
  d_schematic_memid : option MemId;
  d_schematic_tags : option (list (string * string))
}.
End Build.

Module Fill.
Record t : Type := mk {
  base : Base.t;
  schematic : list XYZ;
  block_idm : IDM;
  build_task : option Build.t
}.

Record data : Type := mkData {
  d_schematic : list XYZ;
  d_block_idm : option IDM
}.
End Fill.

Module Destroy.
Record t : Type := mk {
  base : Base.t;
  schematic : list Block;
  xyz_remaining : gset XYZ;
  dig_message : bool;
  destroyed_block_object_triples : list Triple
}.

Definition DIG_REACH : Z := 3.

(** [dig_message] is true when the key is present, whatever its value. *)
Record data : Type := mkData {
  d_schematic : list Block;
  d_dig_message : option bool
}.
End Destroy.

Module Undo.
Record t : Type := mk {
  base : Base.t;
  to_undo_memid : MemId
}.
End Undo.

Module Spawn.
Record t : Type := mk {
  base : Base.t;
  object_idm : IDM;
  pos : XYZ
}.

Definition PLACE_REACH : Z := 3.
End Spawn.

Module Dig.
Record t : Type := mk {
  base : Base.t;
  origin : XYZ;
  length : Z;
  width : Z;
  depth : Z;
  destroy_task : option Destroy.t
}.
End Dig.

Module Loop.
Record t : Type := mk {
  base : Base.t;
  new_tasks_fn : Handle;
  stop_condition : Handle
}.
End Loop.

(** The closed family of the concrete task classes. *)
Inductive Task : Type :=
| TDance (t : Dance.t)
| TMove (t : Move.t)
| TBuild (t : Build.t)
| TFill (t : Fill.t)
| TDestroy (t : Destroy.t)
| TUndo (t : Undo.t)
| TSpawn (t : Spawn.t)
| TDig (t : Dig.t)
| TLoop (t : Loop.t).

Definition Task_base (t : Task) : Base.t :=
  match t with
  | TDance d => Dance.base d
  | TMove m => Move.base m
  | TBuild b => Build.base b
  | TFill f => Fill.base f
  | TDestroy d => Destroy.base d
  | TUndo u => Undo.base u
  | TSpawn s => Spawn.base s
  | TDig d => Dig.base d
  | TLoop l => Loop.base l
  end.

Definition Task_set_base (v : Base.t) (t : Task) : Task :=
  match t with
  | TDance d => TDance (Dance.mk v (Dance.movement d))
  | TMove m =>
      TMove (Move.mk v (Move.target m) (Move.approx m) (Move.path m)
                     (Move.replace m))
  | TBuild b => TBuild (Build.set_base v b)
  | TFill f =>
      TFill (Fill.mk v (Fill.schematic f) (Fill.block_idm f) (Fill.build_task f))
  | TDestroy d =>
      TDestroy (Destroy.mk v (Destroy.schematic d) (Destroy.xyz_remaining d)
                           (Destroy.dig_message d)
                           (Destroy.destroyed_block_object_triples d))
  | TUndo u => TUndo (Undo.mk v (Undo.to_undo_memid u))
  | TSpawn s => TSpawn (Spawn.mk v (Spawn.object_idm s) (Spawn.pos s))
  | TDig d =>
      TDig (Dig.mk v (Dig.origin d) (Dig.length d) (Dig.width d) (Dig.depth d)
                   (Dig.destroy_task d))
  | TLoop l => TLoop (Loop.mk v (Loop.new_tasks_fn l) (Loop.stop_condition l))
  end.

(** ** The collaborators

    Everything [tasks.py] imports or is handed from outside: the block
    tables of [block_data] and [entities], the agent's view of the voxel
    world, [search.astar], [perception.ground_height], the agent's memory,
    and the objects injected into Dance and Loop. *)

(** A primitive call on the agent that acts on the world. *)
Inductive Action : Type :=
| ADig (p : XYZ)
| APlace (p : XYZ)
| AHold (idm : IDM)
| AStep (d : Dir).

(** A block-object node of the memory: its identity and the keys of its
    [blocks] dict. *)
Record BlockObject : Type := mkBlockObject {
  bo_memid : MemId;
  bo_blocks : list XYZ
}.

Class Collaborators : Type := {
  (* block_data, entities *)
  PASSABLE_BLOCKS : list Z;
  BUILD_BLOCK_REPLACE_MAP : list (Z * IDM);
  BUILD_IGNORE_BLOCKS : list Z;
  BUILD_INTERCHANGEABLE_PAIRS : list (Z * Z);
  MOBS_BY_ID : Z -> option string;
  (* the voxel world, with the agent's body in it *)
  World : Type;
  agent_pos : World -> XYZ;
  block_at : World -> XYZ -> IDM;
  dig : World -> XYZ -> World;
  place_block : World -> XYZ -> World * bool;
  set_held_item : World -> IDM -> World;
  step_fn : World -> Dir -> World;
  (* search, perception *)
  astar : World -> XYZ -> Z -> option (list XYZ);
  ground_height : World -> XYZ -> Z;
  (* agent.memory; a node is known by its memid *)
  Memory : Type;
  add_location : Memory -> XYZ -> Memory * MemId;
  get_location_by_id : Memory -> MemId -> MemId;
  update_recent_entities : Memory -> list MemId -> Memory;
  add_triple : Memory -> string -> string -> string -> Memory;
  get_triples : Memory -> option string -> option string -> option string ->
                list Triple;
  pending_agent_placed_blocks_add : Memory -> XYZ -> Memory;
  get_block_object_ids_by_xyz : Memory -> XYZ -> list MemId;
  get_block_object_by_xyz : Memory -> XYZ -> option BlockObject;
  tag_block_object_from_schematic : Memory -> MemId -> MemId -> Memory;
  tag : Memory -> MemId -> string -> Memory;
  get_task_by_id : Memory -> MemId -> option Task;
  memory_update : Memory -> World -> Memory;
  get_mobs : Memory -> XYZ -> string -> list MemId;
  (* injected objects; their own state lives in [Heap] *)
  Heap : Type;
  get_move : Heap -> World -> Memory -> Handle -> Heap * option Task;
  stop_condition_check : Heap -> World -> Memory -> Handle -> Heap * bool;
  new_tasks_fn : Heap -> World -> Memory -> Handle -> Heap * list Task
}.

Section Agent.
Context {C : Collaborators}.

(** The agent as the tasks see it.  [task_stack], [chats] and [acts] grow
    at the head: the task pushed last, the chat sent last and the
    primitive called last come first. *)
Record Agent : Type := mkAgent {
  world : World;
  memory : Memory;
  heap : Heap;
  task_stack : list (Task * option MemId);
  chats : list string;
  acts : list Action
}.

Definition set_world (w : World) (a : Agent) : Agent :=
  mkAgent w (memory a) (heap a) (task_stack a) (chats a) (acts a).
Definition set_memory (m : Memory) (a : Agent) : Agent :=
  mkAgent (world a) m (heap a) (task_stack a) (chats a) (acts a).
Definition set_heap (h : Heap) (a : Agent) : Agent :=
  mkAgent (world a) (memory a) h (task_stack a) (chats a) (acts a).
Definition act (w : World) (x : Action) (a : Agent) : Agent :=
  mkAgent w (memory a) (heap a) (task_stack a) (chats a) (x :: acts a).

Definition agent_dig (p : XYZ) (a : Agent) : Agent :=
  act (dig (world a) p) (ADig p) a.
Definition agent_place_block (p : XYZ) (a : Agent) : Agent * bool :=
  let '(w, ok) := place_block (world a) p in (act w (APlace p) a, ok).
Definition agent_set_held_item (idm : IDM) (a : Agent) : Agent :=
  act (set_held_item (world a) idm) (AHold idm) a.
Definition agent_step (d : Dir) (a : Agent) : Agent :=
  act (step_fn (world a) d) (AStep d) a.
Definition send_chat (s : string) (a : Agent) : Agent :=
  mkAgent (world a) (memory a) (heap a) (task_stack a) (s :: chats a) (acts a).
(** Modelled from the spec: [agent.memory.task_stack_push] is not under
    src/; the spec asks of the memory to push a task onto the shared stack
    under a given parent identity.  The stack keeps the task with the
    parent identity it was pushed under.  The identity ([memid]) that the
    memory may give the pushed task itself is not modelled: a property
    that depends on it quantifies over it. *)
Definition task_stack_push (t : Task) (parent_memid : option MemId)
                           (a : Agent) : Agent :=
  mkAgent (world a) (memory a) (heap a) ((t, parent_memid) :: task_stack a)
          (chats a) (acts a).

(** [agent.get_blocks(xa, xb, ya, yb, za, zb)]: the region as a grid
    indexed [(y, z, x)]; an empty range gives an axis of length 0. *)
Definition get_blocks (a : Agent) (xa xb ya yb za zb : Z) : Grid IDM :=
  mkGrid (Z.to_nat (yb - ya + 1), Z.to_nat (zb - za + 1), Z.to_nat (xb - xa + 1))
         (fun '(y, z, x) => block_at (world a) (xa + x, ya + y, za + z)).

(** Modelled from the spec: [util.fill_idmeta] is not under src/; it
    pairs every coordinate of a cell list with the block the world holds
    there, which turns the cell list into a blocks list. *)
Definition fill_idmeta (a : Agent) (poss : list XYZ) : list Block :=
  map (fun p => (p, block_at (world a) p)) poss.

(** What a method call leaves behind: the task, the agent, and the
    exception that ended the call, if one did.  Python mutates in place,
    so the state reached before a [raise] stays. *)
Record Outcome (T : Type) : Type := mkOutcome {
  raised : option Exc;
  self : T;
  agent : Agent
}.
Arguments mkOutcome {T} _ _ _.
Arguments raised {T} _.
Arguments self {T} _.
Arguments agent {T} _.

Definition returns {T : Type} (s : T) (a : Agent) : Outcome T :=
  mkOutcome None s a.
Definition raises {T : Type} (e : Exc) (s : T) (a : Agent) : Outcome T :=
  mkOutcome (Some e) s a.

(** *** Task *)

Definition Task_interrupt (s : Base.t) : Base.t :=
  Base.set_interrupted true s.

(** [Task.check_finished].  Reading [self.end_time] raises while the
    attribute does not exist. *)
Definition Task_check_finished (s : Base.t) : Base.t * Result bool :=
  if Base.finished s then
    match Base.block_memory s with
    | Some _ =>
        match Base.end_time s with
        | Some t =>
            let s' := Base.set_block_memory (Some (mkBlockMemory (Some t))) s in
            (s', Ok (Base.finished s'))
        | None => (s, Raise AttributeError)
        end
    | None => (s, Ok (Base.finished s))
    end
  else (s, Ok (Base.finished s)).

(** *** Dance *)

Definition Dance_init (movement : Handle) (featurizer : option Handle)
  : Dance.t :=
  Dance.mk (Task_init featurizer) movement.

Definition Dance_step (s : Dance.t) (a : Agent) : Outcome Dance.t :=
  let s := Dance.mk (Base.set_interrupted false (Dance.base s))
                    (Dance.movement s) in
  let '(h, mv) := get_move (heap a) (world a) (memory a) (Dance.movement s) in
  let a := set_heap h a in
  match mv with
  | None =>
      returns (Dance.mk (Base.set_finished true (Dance.base s))
                        (Dance.movement s)) a
  | Some t => returns s (task_stack_push t (Base.memid (Dance.base s)) a)
  end.

(** *** Move *)

Definition Move_init (d : Move.data) (featurizer : option Handle) : Move.t :=
  Move.mk (Task_init featurizer) (to_block_pos (Move.d_target d))
          (default 1 (Move.d_approx d)) None ∅.

Definition Move_set_base (v : Base.t) (s : Move.t) : Move.t :=
  Move.mk v (Move.target s) (Move.approx s) (Move.path s) (Move.replace s).
Definition Move_set_path (v : option (list XYZ)) (s : Move.t) : Move.t :=
  Move.mk (Move.base s) (Move.target s) (Move.approx s) v (Move.replace s).
Definition Move_set_replace (v : gset (XYZ * IDM)) (s : Move.t) : Move.t :=
  Move.mk (Move.base s) (Move.target s) (Move.approx s) (Move.path s) v.

(** The loop that puts back the blocks of the replace set: an entry whose
    placement fails is added to the (cleared) set again. *)
Definition Move_flush (R : list (XYZ * IDM)) (a : Agent)
  : gset (XYZ * IDM) * Agent :=
  fold_left
    (fun '(rep, a) '(pos, idm) =>
       let a := agent_set_held_item idm a in
       let '(a, ok) := agent_place_block pos a in
       if ok then (rep, a) else (rep ∪ {[ (pos, idm) ]}, a))
    R (∅, a).

Definition Move_handle_no_path (s : Move.t) (a : Agent) : Outcome Move.t :=
  let delta := xyz_sub (Move.target s) (agent_pos (world a)) in
  match List.find (fun '(vec, _) => 0 <? xyz_dot delta vec) Move.STEP_FNS with
  | Some (vec, fn) =>
      let newpos := xyz_add (agent_pos (world a)) vec in
      let '(x, y, z) := newpos in
      let newpos_blocks := get_blocks a x x y (y + 1) z z in
      let '(rep, a) :=
        fold_left (fun '(rep, a) '(bp, idm) =>
                     (rep ∪ {[ (bp, idm) ]}, agent_dig bp a))
                  (npy_to_blocks_list newpos_blocks newpos)
                  (Move.replace s, a) in
      returns (Move_set_replace rep s) (agent_step fn a)
  | None => returns s a
  end.

(** The memory bookkeeping of a Move that has arrived and is tracked. *)
Definition Move_record_location (memid : MemId) (target : XYZ) (m : Memory)
  : Memory :=
  let '(m, locmemid) := add_location m target in
  let locmem := get_location_by_id m locmemid in
  let m := update_recent_entities m [locmem] in
  let m := add_triple m memid "task_effect_" locmemid in
  match get_triples m None (Some "chat_effect_"%string) (Some memid) with
  | (chat_memid, _, _) :: _ => add_triple m chat_memid "chat_effect_" locmemid
  | [] => m
  end.

(** The last lines of [Move.step]: pop the waypoint the agent stands on
    and take the primitive of the displacement to the next one. *)
Definition Move_take_step (s : Move.t) (p : list XYZ) (a : Agent)
  : Outcome Move.t :=
  match last p with
  | None => raises IndexError s a
  | Some popped =>
      let s := Move_set_path (Some (removelast p)) s in
      if negb (xyz_eqb (agent_pos (world a)) popped) then
        raises AssertionError s a
      else
        match last (removelast p) with
        | None => raises IndexError s a
        | Some next =>
            let step := xyz_sub next (agent_pos (world a)) in
            match List.find (fun '(vec, _) => xyz_eqb vec step) Move.STEP_FNS with
            | Some (_, fn) => returns s (agent_step fn a)
            | None => raises KeyError s a
            end
        end
  end.

Definition Move_step (s : Move.t) (a : Agent) : Outcome Move.t :=
  let s := Move_set_base (Base.set_interrupted false (Move.base s)) s in
  (* replace blocks if possible *)
  let R := Move.replace s in
  let '(rep, a) := Move_flush (elements R) a in
  let s := Move_set_replace rep s in
  (* check if finished *)
  if manhat_dist (agent_pos (world a)) (Move.target s) <=? Move.approx s then
    let s := Move_set_base (Base.set_finished true (Move.base s)) s in
    match Base.memid (Move.base s) with
    | Some memid =>
        returns s (set_memory (Move_record_location memid (Move.target s)
                                                    (memory a)) a)
    | None => returns s a
    end
  else
    (* get path *)
    let stale :=
      match Move.path s with
      | None => Ok true
      | Some p =>
          match last p with
          | None => Raise IndexError
          | Some tail => Ok (negb (xyz_eqb (agent_pos (world a)) tail))
          end
      end in
    match stale with
    | Raise e => raises e s a
    | Ok recompute =>
        let s := if recompute
                 then Move_set_path (astar (world a) (Move.target s)
                                           (Move.approx s)) s
                 else s in
        match Move.path s with
        | None => Move_handle_no_path s a
        | Some p => Move_take_step s p a
        end
    end.

(** *** Destroy: the constructor *)

Definition Destroy_init (a : Agent) (d : Destroy.data)
                        (featurizer : option Handle) : Result Destroy.t :=
  let schematic := Destroy.d_schematic d in
  let xyz_remaining : gset XYZ := list_to_set (strip_idmeta schematic) in
  let dig_message := match Destroy.d_dig_message d with
                     | Some _ => true
                     | None => false
                     end in
  (* is it destroying a whole block object? if so, save its tags *)
  match elements xyz_remaining with
  | [] => Raise StopIteration
  | first :: _ =>
      let triples :=
        match get_block_object_by_xyz (memory a) first with
        | Some mem =>
            if forallb (fun xyz => bool_decide (xyz ∈ xyz_remaining))
                       (bo_blocks mem)
            then flat_map (fun pred => get_triples (memory a)
                                         (Some (bo_memid mem)) (Some pred) None)
                          ["has_tag"; "has_name"; "has_colour"]%string
            else []
        | None => []
        end in
      Ok (Destroy.mk (Task_init featurizer) schematic xyz_remaining
                     dig_message triples)
  end.

(** *** Build *)

(** [schematic[schematic[:, :, :, 0] == bad] = good]. *)
Definition grid_replace (bad : Z) (good : IDM) (g : Grid IDM) : Grid IDM :=
  mkGrid (shape g)
         (fun i => if fst (cell g i) =? bad then good else cell g i).

Definition Build_init (a : Agent) (d : Build.data)
                      (featurizer : option Handle) : Result Build.t :=
  let embed := default false (Build.d_embed d) in
  match blocks_list_to_npy (Build.d_blocks_list d) with
  | None => Raise ValueError
  | Some (schematic, _) =>
      let origin := Build.d_origin d in
      let verbose := default true (Build.d_verbose d) in
      let force := default false (Build.d_force d) in
      let attempts : Idx -> N := fun _ => 3%N in
      let fill_message := default false (Build.d_fill_message d) in
      let schematic_memid := Build.d_schematic_memid d in
      let schematic_tags := default [] (Build.d_schematic_tags d) in
      (* modify the schematic to avoid placing certain blocks *)
      let schematic :=
        fold_left (fun g '(bad, good) => grid_replace bad good g)
                  BUILD_BLOCK_REPLACE_MAP schematic in
      let build origin :=
        Build.mk (Task_init featurizer) embed schematic origin verbose force
                 attempts fill_message schematic_memid schematic_tags
                 false false None None [] in
      (* snap origin to ground if bottom level has dirt blocks *)
      if negb force && negb embed &&
         np_any (shape schematic) (fun i => isin (fst (cell schematic i)) [2; 3])
      then
        match origin with
        | Some (ox, oy, oz) =>
            Ok (build (Some (ox, ground_height (world a) (ox, oy, oz), oz)))
        | None => Raise TypeError
        end
      else Ok (build origin)
  end.

(** The diff mask of [Build.step]. *)
Definition Build_diff (s : Build.t) (current : Grid IDM) : Mask :=
  fun i =>
    let cur := fst (cell current i) in
    let sch := fst (cell (Build.schematic s) i) in
    let diff := negb (cur =? sch) && (0 <? Build.attempts s i)%N
                && negb (isin cur BUILD_IGNORE_BLOCKS) in
    let diff := if Build.embed s then diff && negb (sch =? 0) (* don't delete blocks *)
                else diff in
    fold_left (fun diff '(p, q) =>
                 diff && (negb (isin cur [p; q]) || negb (isin sch [p; q])))
              BUILD_INTERCHANGEABLE_PAIRS diff.

Definition Build_finish (s : Build.t) (a : Agent) : Outcome Build.t :=
  match Build.origin s with
  | None => raises TypeError s a
  | Some origin =>
      match npy_to_blocks_list (Build.schematic s) origin with
      | [] => raises IndexError s a
      | (xyz, _) :: _ =>
          match get_block_object_ids_by_xyz (memory a) xyz with
          | [] => raises IndexError s a
          | memid :: _ =>
              let m := memory a in
              let m := match Build.schematic_memid s with
                       | Some sm =>
                           if negb (String.eqb sm EmptyString)
                           then tag_block_object_from_schematic m memid sm
                           else m
                       | None => m
                       end in
              let m := fold_left
                         (fun m '(pred, obj) =>
                            let m := add_triple m memid pred obj in
                            if String.eqb pred "has_name" then tag m memid obj
                            else m)
                         (Build.schematic_tags s) m in
              let a := set_memory m a in
              let a := if Build.verbose s
                       then send_chat "I finished building this" a else a in
              let a := if Build.fill_message s
                       then send_chat "I finished filling this" a else a in
              returns (Build.set_base (Base.set_finished true (Build.base s)) s) a
          end
      end
  end.

(** Negation of a [uint8] scalar wraps around. *)
Definition uint8_neg (n : N) : N := ((256 - n mod 256) mod 256)%N.
(** [-= 1] on a cell of a [uint8] array wraps around. *)
Definition uint8_decr (n : N) : N := ((n + 255) mod 256)%N.

(** The four sort keys of [get_next_target], in the order the sorts are
    applied. *)
Definition key_distance (relpos_yzx : Idx) (yzx : Idx) : Z :=
  manhat_dist yzx relpos_yzx.
Definition key_attempts (s : Build.t) (yzx : Idx) : Z :=
  Z.of_N (uint8_neg (Build.attempts s yzx)).
Definition key_layer (yzx : Idx) : Z := fst (fst yzx).
Definition key_own_body (relpos_yzx : Idx) (yzx : Idx) : Z :=
  if xyz_eqb yzx relpos_yzx || xyz_eqb yzx (xyz_add relpos_yzx (1, 0, 0))
  then 1 else 0.

Definition Build_get_next_target (s : Build.t) (a : Agent)
                                 (current : Grid IDM) (diff : Mask)
  : Result Idx :=
  match Build.origin s with
  | None => Raise TypeError
  | Some origin =>
      let relpos_yzx := to_yzx (xyz_sub (agent_pos (world a)) origin) in
      let diff_yzx := np_argwhere (shape (Build.schematic s)) diff in
      let diff_yzx := sort_by (key_distance relpos_yzx) diff_yzx in  (* 4 *)
      let diff_yzx := sort_by (key_attempts s) diff_yzx in           (* 3 *)
      let diff_yzx := sort_by key_layer diff_yzx in                  (* 2 *)
      let diff_yzx := sort_by (key_own_body relpos_yzx) diff_yzx in  (* 1 *)
      match diff_yzx with
      | first :: _ => Ok first
      | [] => Raise IndexError
      end
  end.

Definition Build_step_any_dir (s : Build.t) (a : Agent) : Outcome Build.t :=
  let '(px, py, pz) := agent_pos (world a) in
  let B := get_blocks a (px - 1) (px + 1) (py - 1) (py + 2) (pz - 1) (pz + 1) in
  let passable : Mask := fun i => isin (fst (cell B i)) PASSABLE_BLOCKS in
  (* head and feet passable *)
  let walkable : Mask :=
    fun '(y, z, x) => passable (y, z, x) && passable (y + 1, z, x) in
  let relp : Idx := (1, 1, 1) in (* my pos is in the middle of the 3x3x3 cube *)
  match List.find (fun '(step, _) => walkable (xyz_add relp step))
                  [ ((0, 1, 0), step_pos_z); ((0, -1, 0), step_neg_z);
                    ((0, 0, 1), step_pos_x); ((0, 0, -1), step_neg_x);
                    ((1, 0, 0), step_pos_y); ((-1, 0, 0), step_neg_y) ] with
  | Some (_, fn) => returns s (agent_step fn a)
  | None => raises (PlainException "Can't step in any dir") s a
  end.

(** The branch of [Build.step] that places the block of the chosen cell
    from where the agent stands. *)
Definition Build_place (s : Build.t) (a : Agent) (yzx : Idx)
                       (idm current_idm : IDM) (target : XYZ)
  : Outcome Build.t :=
  if negb (negb (fst current_idm =? fst idm)) then raises AssertionError s a
  else
    let a := if negb (fst current_idm =? 0) then agent_dig target a else a in
    let '(s, a) :=
      if negb (fst idm =? 0) then
        let a := agent_set_held_item idm a in
        let '(x, y, z) := target in
        let '(a, placed) := agent_place_block (x, y, z) a in
        if placed then
          let B := get_blocks a x x y y z z in
          let a := if fst (cell B (0, 0, 0)) =? fst idm
                   then set_memory (pending_agent_placed_blocks_add
                                      (memory a) (x, y, z)) a
                   else a in
          (Build.set_new_blocks (Build.new_blocks s ++ [((x, y, z), idm)]) s, a)
        else (s, a)
      else (s, a) in
    let s := Build.set_attempts
               (fun i => if bool_decide (i = yzx)
                         then uint8_decr (Build.attempts s i)
                         else Build.attempts s i) s in
    if (Build.attempts s yzx =? 0)%N && negb (Build.giving_up_message_sent s)
    then
      returns (Build.set_giving_up_message_sent true s)
              (send_chat "I'm skipping a block because I can't place it. Maybe something is in the way." a)
    else returns s a.

(** The region of the world under the schematic, read at the top of
    [Build.step]. *)
Definition Build_current (s : Build.t) (origin : XYZ) (a : Agent) : Grid IDM :=
  let '(ox, oy, oz) := origin in
  let '(sy, sz, sx) := shape (Build.schematic s) in
  get_blocks a ox (ox + Z.of_nat sx - 1) oy (oy + Z.of_nat sy - 1)
             oz (oz + Z.of_nat sz - 1).

(** The state saved for [undo] on the first step. *)
Definition Build_save_old (s : Build.t) (origin : XYZ) (current : Grid IDM)
  : Build.t :=
  match Build.old_blocks_list s with
  | None =>
      let old := npy_to_blocks_list current origin in
      Build.set_old (Some old)
                    (if (0 <? length old)%nat
                     then np_min_axis0 (strip_idmeta old)
                     else Build.old_origin s) s
  | Some _ => s
  end.

Definition Build_step (s : Build.t) (a : Agent) : Outcome Build.t :=
  let s := Build.set_base (Base.set_interrupted false (Build.base s)) s in
  match Build.origin s with
  | None => raises TypeError s a
  | Some origin =>
      (* get blocks occupying build area *)
      let current := Build_current s origin a in
      (* save state for undo() *)
      let s := Build_save_old s origin current in
      (* are we done? *)
      let diff := Build_diff s current in
      if negb (np_any (shape (Build.schematic s)) diff) then Build_finish s a
      else
        (* blocks that would need to be removed *)
        let remove_mask : Mask :=
          fun i => diff i && negb (fst (cell current i) =? 0) in
        (* destroy any blocks in the way first *)
        let rel_yzxs := np_argwhere (shape (Build.schematic s)) remove_mask in
        let xyzs := map (fun yzx => xyz_add (to_xyz yzx) origin) rel_yzxs in
        match xyzs with
        | _ :: _ =>
            match Destroy_init a (Destroy.mkData (fill_idmeta a xyzs) None)
                               None with
            | Ok d => returns s (task_stack_push (TDestroy d)
                                   (Base.memid (Build.base s)) a)
            | Raise e => raises e s a
            end
        | [] =>
            (* get next block to place *)
            match Build_get_next_target s a current diff with
            | Raise e => raises e s a
            | Ok yzx =>
                let idm := cell (Build.schematic s) yzx in
                let current_idm := cell current yzx in
                (* try placing block *)
                let target := xyz_add (to_xyz yzx) origin in
                let pos := agent_pos (world a) in
                if xyz_eqb target pos || xyz_eqb target (xyz_add pos (0, 1, 0))
                then
                  (* can't place block where you're standing *)
                  Build_step_any_dir s a
                else if manhat_dist pos target <=? Build.PLACE_REACH then
                  (* block is within reach *)
                  Build_place s a yzx idm current_idm target
                else
                  (* too far to place; move first *)
                  let task := Move_init (Move.mkData target
                                           (Some Build.PLACE_REACH))
                                        (Base.featurizer (Build.base s)) in
                  returns s (task_stack_push (TMove task)
                               (Base.memid (Build.base s)) a)
            end
        end
  end.

(** [undo] leaves the task as it is; it acts on the agent. *)
Definition Build_undo (s : Build.t) (a : Agent) : Outcome Build.t :=
  let a := send_chat "ok I will remove it." a in
  match Build.old_blocks_list s with
  | None => raises TypeError s a
  | Some old =>
      let rebuilt :=
        if (0 <? length old)%nat then
          match Build_init a (Build.mkData old (Build.old_origin s)
                                (Some (Build.embed s)) (Some false) (Some true)
                                None None None) None with
          | Ok b => Ok (task_stack_push (TBuild b) (Base.memid (Build.base s)) a)
          | Raise e => Raise e
          end
        else Ok a in
      match rebuilt with
      | Raise e => raises e s a
      | Ok a' =>
          if (0 <? length (Build.new_blocks s))%nat then
            match Destroy_init a' (Destroy.mkData (Build.new_blocks s) None)
                               None with
            | Ok d => returns s (task_stack_push (TDestroy d)
                                   (Base.memid (Build.base s)) a')
            | Raise e => raises e s a'
            end
          else returns s a'
      end
  end.

(** *** Fill *)

Definition Fill_init (d : Fill.data) (featurizer : option Handle) : Fill.t :=
  Fill.mk (Task_init featurizer) (Fill.d_schematic d)
          (default (2, 0) (Fill.d_block_idm d)) None.

Definition Fill_step (s : Fill.t) (a : Agent) : Outcome Fill.t :=
  match np_min_axis0 (Fill.schematic s) with
  | None => raises ValueError s a
  | Some origin =>
      let blocks_list := map (fun p => (p, Fill.block_idm s)) (Fill.schematic s) in
      match Build_init a (Build.mkData blocks_list (Some origin) (Some true)
                            (Some false) (Some true) (Some true) None None)
                       None with
      | Raise e => raises e s a
      | Ok b =>
          let s := Fill.mk (Fill.base s) (Fill.schematic s) (Fill.block_idm s)
                           (Some b) in
          let a := task_stack_push (TBuild b) None a in
          returns (Fill.mk (Base.set_finished true (Fill.base s))
                           (Fill.schematic s) (Fill.block_idm s)
                           (Fill.build_task s)) a
      end
  end.

Definition Fill_undo (s : Fill.t) (a : Agent) : Outcome Fill.t :=
  match Fill.build_task s with
  | Some b =>
      let r := Build_undo b a in mkOutcome (raised r) s (agent r)
  | None => returns s a
  end.

(** *** Destroy *)

Definition Destroy_set_base (v : Base.t) (s : Destroy.t) : Destroy.t :=
  Destroy.mk v (Destroy.schematic s) (Destroy.xyz_remaining s)
             (Destroy.dig_message s) (Destroy.destroyed_block_object_triples s).
Definition Destroy_set_xyz_remaining (v : gset XYZ) (s : Destroy.t)
  : Destroy.t :=
  Destroy.mk (Destroy.base s) (Destroy.schematic s) v (Destroy.dig_message s)
             (Destroy.destroyed_block_object_triples s).

(** The remaining cells in ascending distance from the agent; the first
    one the path finder reaches is the target. *)
Definition Destroy_get_target (s : Destroy.t) (a : Agent) : option XYZ :=
  let p := agent_pos (world a) in
  List.find (fun c => match astar (world a) c 2 with
                      | Some _ => true
                      | None => false
                      end)
            (sort_by (fun c => manhat_dist p c)
                     (elements (Destroy.xyz_remaining s))).

Definition Destroy_step (s : Destroy.t) (a : Agent) : Outcome Destroy.t :=
  let s := Destroy_set_base (Base.set_interrupted false (Destroy.base s)) s in
  if (length (elements (Destroy.xyz_remaining s)) =? 0)%nat then
    let s := Destroy_set_base (Base.set_finished true (Destroy.base s)) s in
    if Destroy.dig_message s
    then returns s (send_chat "I finished digging this." a)
    else returns s a
  else
    match Destroy_get_target s a with
    | None =>
        let a := send_chat "There's no path, so I'm giving up" a in
        returns (Destroy_set_base (Base.set_finished true (Destroy.base s)) s) a
    | Some target =>
        if manhat_dist (agent_pos (world a)) target <=? Destroy.DIG_REACH then
          let a := agent_dig target a in
          returns (Destroy_set_xyz_remaining
                     (Destroy.xyz_remaining s ∖ {[ target ]}) s) a
        else
          let mv := Move_init (Move.mkData target (Some Destroy.DIG_REACH))
                              (Base.featurizer (Destroy.base s)) in
          returns s (task_stack_push (TMove mv)
                       (Base.memid (Destroy.base s)) a)
    end.

Definition Destroy_undo (s : Destroy.t) (a : Agent) : Outcome Destroy.t :=
  let a := send_chat "ok I will build it back." a in
  (* if rebuilding an object, get old object tags *)
  let schematic_tags :=
    map (fun '(_, pred, obj) => (pred, obj))
        (Destroy.destroyed_block_object_triples s) in
  (* push Build task to stack *)
  match to_relative_pos (Destroy.schematic s) with
  | None => raises ValueError s a
  | Some (schematic, origin) =>
      match Build_init a (Build.mkData schematic (Some origin) None
                            (Some false) (Some true) None None
                            (Some schematic_tags)) None with
      | Ok b => returns s (task_stack_push (TBuild b)
                             (Base.memid (Destroy.base s)) a)
      | Raise e => raises e s a
      end
  end.

(** *** Dig *)

Definition Dig_init (origin : XYZ) (length width depth : Z) : Dig.t :=
  Dig.mk (Task_init None) origin length width depth None.

Definition Dig_undo (s : Dig.t) (a : Agent) : Outcome Dig.t :=
  match Dig.destroy_task s with
  | Some d => let r := Destroy_undo d a in mkOutcome (raised r) s (agent r)
  | None => returns s a
  end.

(** The cell list of [Dig.step]: [x] outermost, then [y], then [z]. *)
Definition Dig_poss (mx Mx my My mz Mz : Z) : list XYZ :=
  flat_map (fun x => flat_map (fun y => map (fun z => (x, y, z))
                                            (py_range mz (Mz + 1)))
                              (py_range my (My + 1)))
           (py_range mx (Mx + 1)).

Definition Dig_step (s : Dig.t) (a : Agent) : Outcome Dig.t :=
  let '(mx, My, mz) := Dig.origin s in
  let Mx := mx + (Dig.width s - 1) in
  let my := My - (Dig.depth s - 1) in
  let Mz := mz + (Dig.length s - 1) in
  let blocks := get_blocks a mx Mx my My mz Mz in
  let '(sy, sz, sx) := shape blocks in
  match sy with
  | O => raises IndexError s a
  | S top =>
      (* if top row is above ground, make sure you are digging into the
         ground *)
      let my :=
        if forallb (fun z => forallb (fun x =>
                      isin (fst (cell blocks (Z.of_nat top, z, x)))
                           PASSABLE_BLOCKS) (zrange sx)) (zrange sz)
        then my - 1 else my in
      let poss := Dig_poss mx Mx my My mz Mz in
      let schematic := fill_idmeta a poss in
      match Destroy_init a (Destroy.mkData schematic (Some true)) None with
      | Raise e => raises e s a
      | Ok d =>
          let s := Dig.mk (Dig.base s) (Dig.origin s) (Dig.length s)
                          (Dig.width s) (Dig.depth s) (Some d) in
          let a := task_stack_push (TDestroy d) (Base.memid (Dig.base s)) a in
          returns (Dig.mk (Base.set_finished true (Dig.base s)) (Dig.origin s)
                          (Dig.length s) (Dig.width s) (Dig.depth s)
                          (Dig.destroy_task s)) a
      end
  end.

(** *** Undo *)

Definition Undo_init (memid : MemId) : Undo.t := Undo.mk (Task_init None) memid.

(** [task.undo(agent)] on whatever task the memory returns: the classes
    without an [undo] method raise. *)
Definition Task_undo (t : Task) (a : Agent) : Agent * option Exc :=
  match t with
  | TBuild b => let r := Build_undo b a in (agent r, raised r)
  | TFill f => let r := Fill_undo f a in (agent r, raised r)
  | TDestroy d => let r := Destroy_undo d a in (agent r, raised r)
  | TDig d => let r := Dig_undo d a in (agent r, raised r)
  | TDance _ | TMove _ | TUndo _ | TSpawn _ | TLoop _ => (a, Some AttributeError)
  end.

Definition Undo_step (s : Undo.t) (a : Agent) : Outcome Undo.t :=
  match get_task_by_id (memory a) (Undo.to_undo_memid s) with
  | None => raises AttributeError s a
  | Some task =>
      match Task_undo task a with
      | (a, Some e) => raises e s a
      | (a, None) =>
          returns (Undo.mk (Base.set_finished true (Undo.base s))
                           (Undo.to_undo_memid s)) a
      end
  end.

(** *** Spawn *)

Definition Spawn_init (object_idm : IDM) (pos : XYZ) : Spawn.t :=
  Spawn.mk (Task_init None) object_idm pos.

(** The settle delay and the time window of the mob query stay inside
    the memory collaborator: [get_mobs] is handed the centre of the box
    and the kind. *)
Definition Spawn_step (s : Spawn.t) (a : Agent) : Outcome Spawn.t :=
  if Spawn.PLACE_REACH <? manhat_dist (agent_pos (world a)) (Spawn.pos s) then
    let task := Move_init (Move.mkData (Spawn.pos s) (Some Spawn.PLACE_REACH))
                          None in
    returns s (task_stack_push (TMove task) (Base.memid (Spawn.base s)) a)
  else
    let a := agent_set_held_item (Spawn.object_idm s) a in
    let a := if xyz_eqb (Spawn.pos s) (agent_pos (world a))
             then agent_step step_neg_z a else a in
    let '(x, y, z) := Spawn.pos s in
    let a := fst (agent_place_block (x, y + 1, z) a) in
    let a := set_memory (memory_update (memory a) (world a)) a in
    match MOBS_BY_ID (snd (Spawn.object_idm s)) with
    | None => raises KeyError s a
    | Some mobtype =>
        let m := memory a in
        let m :=
          match get_mobs m (x, y, z) mobtype with
          | mobmem :: _ =>
              let m := update_recent_entities m [mobmem] in
              match Base.memid (Spawn.base s) with
              | Some memid =>
                  let m := add_triple m memid "task_effect_" mobmem in
                  match get_triples m None (Some "chat_effect_"%string)
                                    (Some memid) with
                  | (chat_memid, _, _) :: _ =>
                      add_triple m chat_memid "chat_effect_" mobmem
                  | [] => m
                  end
              | None => m
              end
          | [] => m
          end in
        returns (Spawn.mk (Base.set_finished true (Spawn.base s))
                          (Spawn.object_idm s) (Spawn.pos s))
                (set_memory m a)
    end.

(** *** Loop *)

Definition Loop_init (new_tasks stop : Handle) : Loop.t :=
  Loop.mk (Task_init None) new_tasks stop.

Definition Loop_step (s : Loop.t) (a : Agent) : Outcome Loop.t :=
  let '(h, stop) := stop_condition_check (heap a) (world a) (memory a)
                                         (Loop.stop_condition s) in
  let a := set_heap h a in
  if stop then
    returns (Loop.mk (Base.set_finished true (Loop.base s))
                     (Loop.new_tasks_fn s) (Loop.stop_condition s)) a
  else
    let '(h, tasks) := new_tasks_fn (heap a) (world a) (memory a)
                                    (Loop.new_tasks_fn s) in
    let a := set_heap h a in
    returns s (fold_left (fun a t => task_stack_push t
                                       (Base.memid (Loop.base s)) a)
                         tasks a).

(** ** Dispatch over the task classes *)

Definition lift {T : Type} (inj : T -> Task) (r : Outcome T) : Outcome Task :=
  mkOutcome (raised r) (inj (self r)) (agent r).

Definition Task_step (t : Task) (a : Agent) : Outcome Task :=
  match t with
  | TDance s => lift TDance (Dance_step s a)
  | TMove s => lift TMove (Move_step s a)
  | TBuild s => lift TBuild (Build_step s a)
  | TFill s => lift TFill (Fill_step s a)
  | TDestroy s => lift TDestroy (Destroy_step s a)
  | TUndo s => lift TUndo (Undo_step s a)
  | TSpawn s => lift TSpawn (Spawn_step s a)
  | TDig s => lift TDig (Dig_step s a)
  | TLoop s => lift TLoop (Loop_step s a)
  end.

(** [task.interrupt()], inherited unchanged by every class. *)
Definition interrupt (t : Task) : Task :=
  Task_set_base (Task_interrupt (Task_base t)) t.
End Agent.

Arguments mkOutcome {C T} _ _ _.
Arguments raised {C T} _.
Arguments self {C T} _.
Arguments agent {C T} _.

(** ** A small concrete world

    An instance of the collaborators on which the methods run by
    computation: a world that is a list of placed blocks around the
    agent, a memory that is a list of triples, and fixed block tables. *)

Module Demo.
Record world : Type := mkWorld {
  w_pos : XYZ;
  w_blocks : list Block;
  w_held : IDM;
  w_walled : bool
}.

Definition w_block_at (w : world) (p : XYZ) : IDM :=
  match last_block_at (w_blocks w) p with
  | Some idm => idm
  | None => (0, 0)
  end.

Definition w_dig (w : world) (p : XYZ) : world :=
  mkWorld (w_pos w) (w_blocks w ++ [(p, (0, 0))]) (w_held w) (w_walled w).

(** Placing succeeds on an empty cell. *)
Definition w_place (w : world) (p : XYZ) : world * bool :=
  if fst (w_block_at w p) =? 0
  then (mkWorld (w_pos w) (w_blocks w ++ [(p, w_held w)]) (w_held w)
                (w_walled w), true)
  else (w, false).

Definition w_hold (w : world) (idm : IDM) : world :=
  mkWorld (w_pos w) (w_blocks w) idm (w_walled w).

Definition dir_vec (d : Dir) : XYZ :=
  match d with
  | step_pos_x => (1, 0, 0) | step_neg_x => (-1, 0, 0)
  | step_pos_y => (0, 1, 0) | step_neg_y => (0, -1, 0)
  | step_pos_z => (0, 0, 1) | step_neg_z => (0, 0, -1)
  end.

Definition w_step (w : world) (d : Dir) : world :=
  mkWorld (xyz_add (w_pos w) (dir_vec d)) (w_blocks w) (w_held w) (w_walled w).

(** A walled-in agent reaches nothing; otherwise the path finder answers
    with the two ends of the route. *)
Definition w_astar (w : world) (t : XYZ) (approx : Z) : option (list XYZ) :=
  if w_walled w then None else Some [t; w_pos w].

Definition triples_matching (m : list Triple) (subj pred obj : option string)
  : list Triple :=
  let ok (want : option string) (have : string) : bool :=
    match want with
    | Some s => String.eqb s have
    | None => true
    end in
  List.filter (fun '(s, p, o) => ok subj s && ok pred p && ok obj o) m.

#[export] Instance collaborators : Collaborators := {|
  PASSABLE_BLOCKS := [0; 8; 9; 31; 37; 38];
  BUILD_BLOCK_REPLACE_MAP := [(8, (0, 0)); (9, (0, 0)); (13, (1, 0))];
  BUILD_IGNORE_BLOCKS := [31; 37; 38];
  BUILD_INTERCHANGEABLE_PAIRS := [(2, 3)];
  MOBS_BY_ID := fun i => if i =? 50 then Some "creeper"%string else None;
  World := world;
  agent_pos := w_pos;
  block_at := w_block_at;
  dig := w_dig;
  place_block := w_place;
  set_held_item := w_hold;
  step_fn := w_step;
  astar := w_astar;
  ground_height := fun _ '(_, y, _) => y;
  Memory := list Triple;
  add_location := fun m _ => (m, "loc"%string);
  get_location_by_id := fun _ i => i;
  update_recent_entities := fun m _ => m;
  add_triple := fun m s p o => m ++ [(s, p, o)];
  get_triples := triples_matching;
  pending_agent_placed_blocks_add := fun m _ => m;
  get_block_object_ids_by_xyz := fun _ _ => ["obj"%string];
  get_block_object_by_xyz := fun _ _ => None;
  tag_block_object_from_schematic := fun m _ _ => m;
  tag := fun m _ _ => m;
  get_task_by_id := fun _ _ => None;
  memory_update := fun m _ => m;
  get_mobs := fun _ _ _ => [];
  Heap := unit;
  get_move := fun h _ _ _ => (h, None);
  stop_condition_check := fun h _ _ _ => (h, false);
  new_tasks_fn := fun h _ _ _ => (h, [])
|}.

(** An agent at [pos] in a world holding [blocks]. *)
Definition agent_at (pos : XYZ) (blocks : list Block) (walled : bool)
  : Agent :=
  mkAgent (mkWorld pos blocks (0, 0) walled) [] tt [] [] [].
End Demo.

(** ** Example tasks in the small world *)

Module Examples.
Import Demo.

(** The task a constructor returns, or a task that is finished from the
    start when the constructor raises. *)
Definition built (r : Result Build.t) : Build.t :=
  match r with
  | Ok b => b
  | Raise _ =>
      Build.mk (Base.set_finished true (Task_init None)) false
               (mkGrid (0, 0, 0)%nat (fun _ => (0, 0))) None false false
               (fun _ => 0%N) false None [] false false None None []
  end.

(** An L-shaped schematic of three stone blocks at [(0, 64, 0)]: two on
    the ground layer, one on top of the first. *)
Definition corner_blocks : list Block :=
  [ ((0, 64, 0), (1, 0)); ((1, 64, 0), (1, 0)); ((0, 65, 0), (1, 0)) ].

Definition corner : Build.t :=
  built (Build_init (agent_at (0, 64, 0) [] false)
           (Build.mkData corner_blocks (Some (0, 64, 0)) None None (Some true)
                         None None None) None).

(** The agent stands inside the schematic, in an empty world. *)
Definition inside : Agent := agent_at (0, 64, 0) [] false.
(** The agent stands next to the schematic, in an empty world. *)
Definition beside : Agent := agent_at (2, 64, 0) [] false.
(** The agent stands next to the finished structure. *)
Definition beside_done : Agent := agent_at (2, 64, 0) corner_blocks false.

(** A Destroy task with one stone block left to remove, and an agent
    walled in far from it. *)
Definition rubble : Destroy.t :=
  Destroy.mk (Task_init None) [((5, 64, 5), (1, 0))] {[ (5, 64, 5) ]} false [].
Definition walled_in : Agent := agent_at (0, 64, 0) [((5, 64, 5), (1, 0))] true.

(** A Move to the cell next to where the agent of [inside] stands, with
    the default radius 1. *)
Definition short_walk : Move.t := Move_init (Move.mkData (1, 64, 0) None) None.

(** A Dig of a 2 x 2 x 2 pit from [(0, 64, 0)], and an agent in a world
    with no block at all, so that the top layer of the pit is open. *)
Definition pit : Dig.t := Dig_init (0, 64, 0) 2 2 2.
Definition open_air : Agent := agent_at (5, 70, 5) [] false.
(** The same place with a stone floor at the top layer of the pit. *)
Definition on_stone : Agent :=
  agent_at (5, 70, 5)
           [ ((0, 64, 0), (1, 0)); ((0, 64, 1), (1, 0));
             ((1, 64, 0), (1, 0)); ((1, 64, 1), (1, 0)) ] false.

(** A Loop that has been interrupted; in the small world its stop
    condition is false and its factory returns no task. *)
Definition looping : Task := interrupt (TLoop (Loop_init 0%nat 0%nat)).

(** A Fill of one far cell with stone, and an agent walled in behind a
    stone block that is not in the list. *)
Definition far_fill : Fill.t :=
  Fill_init (Fill.mkData [(10, 64, 0)] (Some (1, 0))) None.
Definition behind_wall : Agent := agent_at (0, 64, 0) [((1, 64, 0), (1, 0))] true.
(** A Fill of two cells beside the agent of [beside]. *)
Definition near_fill : Fill.t :=
  Fill_init (Fill.mkData [(0, 64, 0); (1, 64, 0)] None) None.
End Examples.

(** ** Notions used in the statements *)

(** Order by a key first and by [R] among equal keys. *)
Definition lex_by {A : Type} (key : A -> Z) (R : A -> A -> Prop) (x y : A)
  : Prop :=
  key x < key y \/ (key x = key y /\ R x y).

(** Row-major order of grid indices, the order in which [np.argwhere]
    lists them. *)
Definition row_major (c d : Idx) : Prop :=
  let '(y, z, x) := c in
  let '(y', z', x') := d in
  y < y' \/ (y = y' /\ (z < z' \/ (z = z' /\ x < x'))).

(** A cell lies under the agent's feet or head. *)
Definition on_own_body (relpos_yzx : Idx) (c : Idx) : bool :=
  xyz_eqb c relpos_yzx || xyz_eqb c (xyz_add relpos_yzx (1, 0, 0)).

(** The priority the spec gives to the choice of the next cell, written
    from its words: a cell off the agent's body goes before a cell on it;
    then the lower layer; then the higher remaining attempts; then the
    nearer cell; cells equal in all four keep their grid order. *)
Definition goes_before (attempts : Idx -> N) (relpos_yzx : Idx) (c d : Idx)
  : Prop :=
  let body x := on_own_body relpos_yzx x in
  let layer (x : Idx) := fst (fst x) in
  let dist x := manhat_dist x relpos_yzx in
  (body c = false /\ body d = true) \/
  (body c = body d /\
   (layer c < layer d \/
    (layer c = layer d /\
     ((attempts d < attempts c)%N \/
      (attempts c = attempts d /\
       (dist c < dist d \/ (dist c = dist d /\ row_major c d))))))).

(** A cell needs no more work, in the words of the spec: the world holds
    the schematic's block-type there, or the cell has no attempts left, or
    the world's block-type is in the ignore set, or the task embeds and the
    schematic intends no block there, or both block-types fall in one
    declared interchangeable pair. *)
Definition settled {C : Collaborators} (s : Build.t) (current : Grid IDM)
                   (c : Idx) : Prop :=
  let cur := fst (cell current c) in
  let sch := fst (cell (Build.schematic s) c) in
  cur = sch \/
  Build.attempts s c = 0%N \/
  In cur BUILD_IGNORE_BLOCKS \/
  (Build.embed s = true /\ sch = 0) \/
  (exists p q, In (p, q) BUILD_INTERCHANGEABLE_PAIRS /\
               (cur = p \/ cur = q) /\ (sch = p \/ sch = q)).

(** The world itself, seen as a grid anchored at [origin]: cell [c] holds
    the block the world has at the world coordinate of [c]. *)
Definition world_view {C : Collaborators} (a : Agent) (origin : XYZ)
                      (sh : nat * nat * nat) : Grid IDM :=
  mkGrid sh (fun c => block_at (world a) (xyz_add (to_xyz c) origin)).

(** The task as [Build.step] has it when it tests the diff: the
    interrupted flag cleared and the undo snapshot taken. *)
Definition Build_entered {C : Collaborators} (s : Build.t) (origin : XYZ)
                         (a : Agent) : Build.t :=
  Build_save_old (Build.set_base (Base.set_interrupted false (Build.base s)) s)
                 origin (Build_current s origin a).

(** The states a Build task goes through: it is constructed, stepped
    against whatever the agent is at that time, and in between the
    scheduler and the memory may write its inherited attributes
    ([interrupt], [memid], [block_memory]). *)
Inductive Build_reachable {C : Collaborators} : Build.t -> Prop :=
| reach_init (a : Agent) (d : Build.data) (f : option Handle) (s : Build.t) :
    Build_init a d f = Ok s -> Build_reachable s
| reach_step (s : Build.t) (a : Agent) :
    Build_reachable s -> Build_reachable (self (Build_step s a))
| reach_base (s : Build.t) (v : Base.t) :
    Build_reachable s -> Build_reachable (Build.set_base v s).

(** The rectangular volume of a Dig: [width] cells along x and [length]
    cells along z from the origin, [depth] layers from the origin's layer
    down. *)
Definition Dig_volume (origin : XYZ) (length width depth : Z) : list XYZ :=
  let '(mx, My, mz) := origin in
  Dig_poss mx (mx + (width - 1)) (My - (depth - 1)) My mz (mz + (length - 1)).

(** The topmost layer of the volume holds passable blocks only. *)
Definition Dig_top_open {C : Collaborators} (s : Dig.t) (a : Agent) : bool :=
  forallb (fun p => isin (fst (block_at (world a) p)) PASSABLE_BLOCKS)
          (Dig_volume (Dig.origin s) (Dig.length s) (Dig.width s) 1).

(** A cell list moved one layer down: every y lowered by one. *)
Definition shifted_down (cells : list XYZ) : list XYZ :=
  map (fun '(x, y, z) => (x, y - 1, z)) cells.

(** C7 as the spec words it: the step pushes one Destroy child and
    finishes, and the child's cell list is the volume, shifted one layer
    down when the top layer is open. *)
Definition Dig_shifts_volume {C : Collaborators} (s : Dig.t) (a : Agent)
  : Prop :=
  let r := Dig_step s a in
  let volume := Dig_volume (Dig.origin s) (Dig.length s) (Dig.width s)
                           (Dig.depth s) in
  exists d,
    task_stack (agent r) = (TDestroy d, Base.memid (Dig.base s)) :: task_stack a /\
    Base.finished (Dig.base (self r)) = true /\
    strip_idmeta (Destroy.schematic d)
    = if Dig_top_open s a then shifted_down volume else volume.

(** The classes whose [step] starts with [self.interrupted = False]. *)
Definition clears_interrupted (t : Task) : bool :=
  match t with
  | TDance _ | TMove _ | TBuild _ | TDestroy _ => true
  | TFill _ | TUndo _ | TSpawn _ | TDig _ | TLoop _ => false
  end.

(** C9 as the spec words it, at one task and one agent: after the step
    the interrupted flag is false. *)
Definition step_clears_flag {C : Collaborators} (t : Task) (a : Agent) : Prop :=
  Base.interrupted (Task_base (self (Task_step t a))) = false.

(** A primitive call stays within a cell list: a dig or a placement is
    at a listed coordinate; holding an item and moving the body touch no
    cell. *)
Definition within (L : list XYZ) (x : Action) : Prop :=
  match x with
  | ADig p | APlace p => In p L
  | AHold _ | AStep _ => True
  end.

(** A pushed task is aimed within a cell list: a Destroy has only listed
    cells to remove, a Move walks to a listed cell. *)
Definition aimed_within (L : list XYZ) (t : Task) : Prop :=
  match t with
  | TDestroy d => forall p, p ∈ Destroy.xyz_remaining d -> In p L
  | TMove m => In (Move.target m) L
  | _ => True
  end.

(** The cells in which the schematic of a Build wants a block lie at
    listed coordinates, and the task embeds. *)
Definition confined (L : list XYZ) (b : Build.t) : Prop :=
  Build.embed b = true /\
  forall origin c, Build.origin b = Some origin ->
                   fst (cell (Build.schematic b) c) <> 0 ->
                   In (xyz_add (to_xyz c) origin) L.

(** From agent [a] to agent [a']: the primitive calls made in between are
    within the list, and no task was pushed. *)
Definition only_within {C : Collaborators} (L : list XYZ) (a a' : Agent)
  : Prop :=
  (exists new, acts a' = new ++ acts a /\ Forall (within L) new) /\
  task_stack a' = task_stack a.

(** The states of the Build child that a step of Fill pushes. *)
Inductive Fill_child {C : Collaborators} (s : Fill.t) (a : Agent)
  : Build.t -> Prop :=
| child_pushed (b : Build.t) :
    task_stack (agent (Fill_step s a)) = (TBuild b, None) :: task_stack a ->
    Fill_child s a b
| child_step (b : Build.t) (a' : Agent) :
    Fill_child s a b -> Fill_child s a (self (Build_step b a'))
| child_base (b : Build.t) (v : Base.t) :
    Fill_child s a b -> Fill_child s a (Build.set_base v b).

(** The task on top of the stack takes a step, as the scheduler has it
    do; a task that has pushed a child waits below it. *)
Definition step_top {C : Collaborators} (a : Agent) : Agent :=
  match task_stack a with
  | (t, _) :: _ => agent (Task_step t a)
  | [] => a
  end.

(** C5 as the spec words it, along the first steps of a run that starts
    with no primitive called yet: Fill steps, the task it pushed steps,
    the task that one pushed steps, and no world cell outside the list has
    been dug or overwritten. *)
Definition Fill_run_within {C : Collaborators} (s : Fill.t) (a : Agent)
  : Prop :=
  acts a = [] ->
  Forall (within (Fill.schematic s))
         (acts (step_top (step_top (agent (Fill_step s a))))).

(** ** Notions used in the further properties *)

(** The unit displacement that [Move.STEP_FNS] pairs with a movement
    primitive. *)
Definition dir_offset (d : Dir) : XYZ :=
  match d with
  | step_pos_x => (1, 0, 0)
  | step_neg_x => (-1, 0, 0)
  | step_pos_y => (0, 1, 0)
  | step_neg_y => (0, -1, 0)
  | step_pos_z => (0, 0, 1)
  | step_neg_z => (0, 0, -1)
  end.

(** The neighbouring position in a direction can be walked into: the
    block there and the block above it are passable. *)
Definition neighbour_walkable {C : Collaborators} (a : Agent) (d : Dir) : bool :=
  let p := xyz_add (agent_pos (world a)) (dir_offset d) in
  isin (fst (block_at (world a) p)) PASSABLE_BLOCKS
  && isin (fst (block_at (world a) (xyz_add p (0, 1, 0)))) PASSABLE_BLOCKS.

(** The order in which [Build.step_any_dir] tries the directions. *)
Definition step_aside_order : list Dir :=
  [step_pos_z; step_neg_z; step_pos_x; step_neg_x; step_pos_y; step_neg_y].

Definition is_dig (x : Action) : bool :=
  match x with
  | ADig _ => true
  | _ => false
  end.

(** The primitive calls that put a block back: holding it and placing
    it. *)
Definition is_put (x : Action) : bool :=
  match x with
  | APlace _ | AHold _ => true
  | _ => false
  end.

(** The calls that put one queued block back, newest first. *)
Definition put_back (e : XYZ * IDM) : list Action :=
  [APlace (fst e); AHold (snd e)].



(** The one-time notice of a Build that gives up on a cell. *)
Definition skip_notice : string :=
  "I'm skipping a block because I can't place it. Maybe something is in the way.".

(** More example tasks in the small world. *)
Module Cases.
Import Demo.

(** The agent next to the corner schematic, with a plank where the
    schematic wants stone. *)
Definition plank_in_the_way : Agent :=
  agent_at (2, 64, 0) [((0, 64, 0), (5, 0))] false.

(** The agent next to one stone block that a Destroy is to remove. *)
Definition next_to_rubble : Agent :=
  agent_at (4, 64, 5) [((5, 64, 5), (1, 0))] false.

(** A Fill with no coordinate. *)
Definition empty_fill : Fill.t := Fill_init (Fill.mkData [] None) None.

(** A Move along a cached two-waypoint path from where the agent of
    [Examples.inside] stands. *)
Definition on_path : Move.t :=
  Move.mk (Task_init None) (5, 64, 0) 1 (Some [(1, 64, 0); (0, 64, 0)]) ∅.

(** A Move to a far cell for the walled-in agent of
    [Examples.behind_wall]. *)
Definition walk_far : Move.t := Move_init (Move.mkData (10, 64, 0) None) None.

(** A Spawn of a creeper next to the agent of [Examples.inside], and one
    of a mob the tables do not know. *)
Definition spawn_creeper : Spawn.t := Spawn_init (383, 50) (1, 64, 0).
Definition spawn_unknown : Spawn.t := Spawn_init (383, 99) (1, 64, 0).

(** The agent far from the corner schematic, in an empty world. *)
Definition far_away : Agent := agent_at (9, 64, 0) [] false.
End Cases.

(** * Properties *)

(** ** Stable sorting by a key *)

Section StableSortFacts.
Context {A : Type} (key : A -> Z).

Lemma in_insert_by (x y : A) (l : list A) :
  In y (insert_by key x l) <-> y = x \/ In y l.
Proof.
  induction l as [|h t IH]; simpl.
  - intuition congruence.
  - destruct (key x <=? key h); simpl; rewrite ?IH; intuition congruence.
Qed.

Lemma in_sort_by (y : A) (l : list A) : In y (sort_by key l) <-> In y l.
Proof.
  induction l as [|h t IH]; simpl; [tauto|].
  rewrite in_insert_by, IH. intuition congruence.
Qed.

Lemma sort_by_length (l : list A) :
  List.length (sort_by key l) = List.length l.
Proof.
  induction l as [|h t IH]; simpl; [reflexivity|].
  rewrite <- IH. generalize (sort_by key t). intros s.
  induction s as [|g s IHs]; simpl; [reflexivity|].
  destruct (key h <=? key g); simpl; congruence.
Qed.

Lemma insert_by_sorted (R : A -> A -> Prop) (x : A) (l : list A) :
  StronglySorted (lex_by key R) l ->
  Forall (R x) l ->
  StronglySorted (lex_by key R) (insert_by key x l).
Proof.
  induction l as [|h t IH]; intros Hs Hx; simpl.
  - repeat constructor.
  - inversion Hs as [|? ? Ht Hh]; subst.
    inversion Hx as [|? ? Hxh Hxt]; subst.
    destruct (key x <=? key h) eqn:E.
    + apply Z.leb_le in E. constructor; [assumption|].
      constructor.
      * unfold lex_by. destruct (Z.eq_dec (key x) (key h)); [right|left]; auto.
        lia.
      * rewrite List.Forall_forall in *. intros e He.
        pose proof (Hh e He) as [Hlt|[Heq _]]; pose proof (Hxt e He);
          unfold lex_by.
        -- left. lia.
        -- destruct (Z.eq_dec (key x) (key e)); [right|left]; auto. lia.
    + apply Z.leb_gt in E. constructor; [auto|].
      rewrite List.Forall_forall in *. intros e He.
      apply (proj1 (in_insert_by x e t)) in He as [->|He]; [left; assumption|auto].
Qed.

(** A stable sort of a list that is in [R]-order leaves it ordered by the
    key, and by [R] among equal keys. *)
Lemma sort_by_sorted (R : A -> A -> Prop) (l : list A) :
  StronglySorted R l -> StronglySorted (lex_by key R) (sort_by key l).
Proof.
  induction 1 as [|h t Ht IH Hh]; simpl; [constructor|].
  apply insert_by_sorted; [assumption|].
  rewrite List.Forall_forall in *. intros e He. apply Hh.
  exact (proj1 (in_sort_by e t) He).
Qed.
End StableSortFacts.

(** ** Grids *)

Lemma in_zrange (n : nat) (i : Z) : In i (zrange n) <-> 0 <= i < Z.of_nat n.
Proof.
  unfold zrange. rewrite in_map_iff. split.
  - intros [k [<- Hk]]. apply in_seq in Hk. lia.
  - intros H. exists (Z.to_nat i). rewrite in_seq. lia.
Qed.

Lemma in_ndindex (sy sz sx : nat) (y z x : Z) :
  In (y, z, x) (ndindex (sy, sz, sx)) <->
  0 <= y < Z.of_nat sy /\ 0 <= z < Z.of_nat sz /\ 0 <= x < Z.of_nat sx.
Proof.
  unfold ndindex. rewrite in_flat_map. split.
  - intros [y' [Hy H]]. apply in_flat_map in H as [z' [Hz H]].
    apply in_map_iff in H as [x' [E Hx]]. inversion E; subst.
    rewrite in_zrange in *. auto.
  - intros (Hy & Hz & Hx). exists y. rewrite in_zrange. split; [assumption|].
    apply in_flat_map. exists z. rewrite in_zrange. split; [assumption|].
    apply in_map_iff. exists x. rewrite in_zrange. auto.
Qed.

Lemma in_argwhere (sh : nat * nat * nat) (m : Mask) (c : Idx) :
  In c (np_argwhere sh m) <-> In c (ndindex sh) /\ m c = true.
Proof. unfold np_argwhere. apply filter_In. Qed.

Lemma np_any_true (sh : nat * nat * nat) (m : Mask) :
  np_any sh m = true <-> exists c, In c (ndindex sh) /\ m c = true.
Proof. unfold np_any. apply existsb_exists. Qed.

Lemma np_any_false (sh : nat * nat * nat) (m : Mask) :
  np_any sh m = false <-> forall c, In c (ndindex sh) -> m c = false.
Proof.
  unfold np_any. split.
  - intros H c Hc. destruct (m c) eqn:E; [|reflexivity].
    assert (existsb m (ndindex sh) = true) by (apply existsb_exists; eauto).
    congruence.
  - intros H. destruct (existsb m (ndindex sh)) eqn:E; [|reflexivity].
    apply existsb_exists in E as [c [Hc Hm]]. rewrite H in Hm; auto.
Qed.

Lemma zrange_sorted (n : nat) : StronglySorted Z.lt (zrange n).
Proof.
  unfold zrange. generalize 0%nat. induction n as [|n IH]; intros s; simpl.
  - constructor.
  - constructor; [apply IH|].
    rewrite List.Forall_forall. intros e He. apply in_map_iff in He as [k [<- Hk]].
    apply in_seq in Hk. lia.
Qed.

Lemma StronglySorted_app {A : Type} (R : A -> A -> Prop) (l1 l2 : list A) :
  StronglySorted R l1 -> StronglySorted R l2 ->
  (forall a b, In a l1 -> In b l2 -> R a b) ->
  StronglySorted R (l1 ++ l2).
Proof.
  induction l1 as [|h t IH]; intros H1 H2 H12; simpl; [assumption|].
  inversion H1 as [|? ? Ht Hh]; subst. constructor.
  - apply IH; auto. intros a b Ha Hb. apply H12; simpl; auto.
  - rewrite List.Forall_forall in *. intros e He.
    apply in_app_or in He as [He|He]; [auto|]. apply H12; simpl; auto.
Qed.

Lemma StronglySorted_flat_map {A : Type} (R : A -> A -> Prop)
      (f : Z -> list A) (l : list Z) :
  StronglySorted Z.lt l ->
  (forall i, StronglySorted R (f i)) ->
  (forall i j a b, i < j -> In a (f i) -> In b (f j) -> R a b) ->
  StronglySorted R (flat_map f l).
Proof.
  intros Hl Hf Hij. induction Hl as [|h t Ht IH Hh]; simpl; [constructor|].
  apply StronglySorted_app; [apply Hf|assumption|].
  intros a b Ha Hb. apply in_flat_map in Hb as [j [Hj Hb]].
  rewrite List.Forall_forall in Hh. eapply Hij; eauto.
Qed.

Lemma StronglySorted_map_lt {A : Type} (R : A -> A -> Prop) (f : Z -> A)
      (l : list Z) :
  StronglySorted Z.lt l -> (forall i j, i < j -> R (f i) (f j)) ->
  StronglySorted R (map f l).
Proof.
  intros Hl Hf. induction Hl as [|h t Ht IH Hh]; simpl; constructor; auto.
  rewrite List.Forall_forall in *. intros e He.
  apply in_map_iff in He as [j [<- Hj]]. auto.
Qed.

Lemma StronglySorted_filter_keep {A : Type} (R : A -> A -> Prop)
      (p : A -> bool) (l : list A) :
  StronglySorted R l -> StronglySorted R (List.filter p l).
Proof.
  induction 1 as [|h t Ht IH Hh]; simpl; [constructor|].
  destruct (p h); [|assumption]. constructor; [assumption|].
  rewrite List.Forall_forall in *. intros e He. apply filter_In in He as [He _].
  auto.
Qed.

(** [np.argwhere] lists the cells of a mask in row-major order. *)
Lemma argwhere_row_major (sh : nat * nat * nat) (m : Mask) :
  StronglySorted row_major (np_argwhere sh m).
Proof.
  destruct sh as [[sy sz] sx]. apply StronglySorted_filter_keep.
  unfold ndindex. apply StronglySorted_flat_map; [apply zrange_sorted| |].
  - intros y. apply StronglySorted_flat_map; [apply zrange_sorted| |].
    + intros z. apply StronglySorted_map_lt; [apply zrange_sorted|].
      intros i j Hij. simpl. lia.
    + intros z z' a b Hz Ha Hb.
      apply in_map_iff in Ha as [x [<- _]].
      apply in_map_iff in Hb as [x' [<- _]]. simpl. lia.
  - intros y y' a b Hy Ha Hb.
    apply in_flat_map in Ha as [z [_ Ha]]. apply in_map_iff in Ha as [x [<- _]].
    apply in_flat_map in Hb as [z' [_ Hb]]. apply in_map_iff in Hb as [x' [<- _]].
    simpl. lia.
Qed.

(** ** Build: the choice of the next cell *)

Section NextTarget.
Context {C : Collaborators}.

Lemma uint8_neg_small (n : N) :
  (0 < n < 256)%N -> Z.of_N (uint8_neg n) = 256 - Z.of_N n.
Proof.
  intros H. unfold uint8_neg.
  rewrite (N.mod_small n 256) by lia.
  rewrite N.mod_small by lia. lia.
Qed.

Lemma key_own_body_cases (relpos c : Idx) :
  key_own_body relpos c = if on_own_body relpos c then 1 else 0.
Proof. reflexivity. Qed.

(** The order four stable sorts leave, read as the priority of the spec. *)
Lemma four_keys_goes_before (s : Build.t) (relpos c d : Idx) :
  (0 < Build.attempts s c < 256)%N ->
  (0 < Build.attempts s d < 256)%N ->
  lex_by (key_own_body relpos)
    (lex_by key_layer
       (lex_by (key_attempts s)
          (lex_by (key_distance relpos) row_major))) c d ->
  goes_before (Build.attempts s) relpos c d.
Proof.
  intros Hc Hd H. unfold goes_before, lex_by, key_layer, key_attempts,
    key_distance in *.
  rewrite !key_own_body_cases in H.
  rewrite !uint8_neg_small in H by assumption.
  destruct (on_own_body relpos c), (on_own_body relpos d);
    destruct H as [H|[H1 H]]; try lia; auto.
  all: right; split; [reflexivity|].
  all: destruct H as [H|[H2 H]]; [left; assumption|right; split; [assumption|]].
  all: destruct H as [H|[H3 H]]; [left; lia|right; split; [lia|]].
  all: destruct H as [H|[H4 H]]; [left; assumption|right; split; assumption].
Qed.

(** C2.  For a non-empty diff mask (every masked cell still has attempts
    left, as the diff of [step] guarantees, within the [uint8] range) and
    any agent position, [get_next_target] returns a masked cell, and that
    cell goes before every other masked cell in the priority that the four
    stable sorts realise: off the agent's own feet and head first, then
    the lower layer, then the higher remaining attempts, then the smaller
    Manhattan distance to the agent, and grid order among full ties.  The
    result is therefore the one least masked cell of that order. *)
Theorem Build_get_next_target_priority
        (s : Build.t) (a : Agent) (current : Grid IDM) (diff : Mask)
        (origin : XYZ) :
  Build.origin s = Some origin ->
  np_any (shape (Build.schematic s)) diff = true ->
  (forall c, In c (np_argwhere (shape (Build.schematic s)) diff) ->
             (0 < Build.attempts s c < 256)%N) ->
  exists first,
    Build_get_next_target s a current diff = Ok first /\
    In first (np_argwhere (shape (Build.schematic s)) diff) /\
    forall c, In c (np_argwhere (shape (Build.schematic s)) diff) ->
              c = first \/
              goes_before (Build.attempts s)
                          (to_yzx (xyz_sub (agent_pos (world a)) origin))
                          first c.
Proof.
  intros Ho Hany Hatt. unfold Build_get_next_target. rewrite Ho.
  set (relpos := to_yzx (xyz_sub (agent_pos (world a)) origin)).
  set (cells := np_argwhere (shape (Build.schematic s)) diff) in *.
  set (sorted := sort_by (key_own_body relpos)
                   (sort_by key_layer
                      (sort_by (key_attempts s)
                         (sort_by (key_distance relpos) cells)))).
  assert (Hin : forall c, In c sorted <-> In c cells).
  { intros c. unfold sorted. now rewrite !in_sort_by. }
  assert (Hsorted : StronglySorted
                      (lex_by (key_own_body relpos)
                         (lex_by key_layer
                            (lex_by (key_attempts s)
                               (lex_by (key_distance relpos) row_major))))
                      sorted).
  { unfold sorted. do 4 apply sort_by_sorted. apply argwhere_row_major. }
  destruct sorted as [|first rest] eqn:E.
  - apply np_any_true in Hany as [c Hc]. apply in_argwhere in Hc.
    apply Hin in Hc. destruct Hc.
  - exists first. split; [reflexivity|]. split.
    + apply Hin. now left.
    + intros c Hc. pose proof Hc as Hc'. apply Hin in Hc' as [Hc'|Hc'];
        [left; congruence|right].
      inversion Hsorted as [|? ? _ Hall]; subst.
      rewrite List.Forall_forall in Hall.
      apply four_keys_goes_before; [apply Hatt, Hin; now left|auto|auto].
Qed.
End NextTarget.

(** In the example, the agent stands in the corner cell of the schematic:
    the cell chosen is the free ground cell beside it. *)
Lemma Build_get_next_target_priority_witness :
  let s := Examples.corner in
  let a := Examples.inside in
  let current := Build_current s (0, 64, 0) a in
  let diff := Build_diff (C := Demo.collaborators) s current in
  exists first,
    Build_get_next_target s a current diff = Ok first /\
    In first (np_argwhere (shape (Build.schematic s)) diff) /\
    forall c, In c (np_argwhere (shape (Build.schematic s)) diff) ->
              c = first \/
              goes_before (Build.attempts s)
                          (to_yzx (xyz_sub (agent_pos (world a)) (0, 64, 0)))
                          first c.
Proof.
  intros s a current diff.
  apply (Build_get_next_target_priority s a current diff (0, 64, 0)).
  - reflexivity.
  - vm_compute. reflexivity.
  - intros c Hc. vm_compute in Hc.
    destruct Hc as [<-|[<-|[<-|[]]]]; vm_compute; split; reflexivity.
Defined.

(** ** Build: the diff mask and the end of the task *)

Section BuildDiff.
Context {C : Collaborators}.

Lemma isin_In (x : Z) (l : list Z) : isin x l = true <-> In x l.
Proof.
  unfold isin. rewrite existsb_exists. split.
  - intros [y [Hy E]]. apply Z.eqb_eq in E. now subst.
  - intros H. exists x. split; [assumption|apply Z.eqb_refl].
Qed.

Lemma fold_pairs_and (cur sch : Z) (pairs : list (Z * Z)) (d : bool) :
  fold_left (fun diff '(p, q) =>
               diff && (negb (isin cur [p; q]) || negb (isin sch [p; q])))
            pairs d
  = d && forallb (fun '(p, q) => negb (isin cur [p; q]) || negb (isin sch [p; q]))
                 pairs.
Proof.
  revert d. induction pairs as [|[p q] t IH]; intros d; simpl.
  - now rewrite andb_true_r.
  - rewrite IH. now rewrite andb_assoc.
Qed.

Lemma Build_diff_unfold (s : Build.t) (current : Grid IDM) (c : Idx) :
  Build_diff s current c =
  let cur := fst (cell current c) in
  let sch := fst (cell (Build.schematic s) c) in
  negb (cur =? sch) && (0 <? Build.attempts s c)%N
  && negb (isin cur BUILD_IGNORE_BLOCKS)
  && (if Build.embed s then negb (sch =? 0) else true)
  && forallb (fun '(p, q) => negb (isin cur [p; q]) || negb (isin sch [p; q]))
             BUILD_INTERCHANGEABLE_PAIRS.
Proof.
  unfold Build_diff. cbv zeta. rewrite fold_pairs_and.
  destruct (Build.embed s); [reflexivity|]. now rewrite andb_true_r.
Qed.

(** A masked cell still has attempts left and differs from the
    schematic. *)
Lemma Build_diff_true (s : Build.t) (current : Grid IDM) (c : Idx) :
  Build_diff s current c = true ->
  (0 < Build.attempts s c)%N /\
  fst (cell current c) <> fst (cell (Build.schematic s) c) /\
  (Build.embed s = true -> fst (cell (Build.schematic s) c) <> 0).
Proof.
  rewrite Build_diff_unfold. cbv zeta. intros H.
  apply andb_prop in H as [H _]. apply andb_prop in H as [H Hembed].
  apply andb_prop in H as [H _]. apply andb_prop in H as [Hne Hatt].
  split; [now apply N.ltb_lt|]. split.
  - apply Z.eqb_neq, negb_true_iff. assumption.
  - intros E. rewrite E in Hembed. apply Z.eqb_neq, negb_true_iff. assumption.
Qed.

(** The mask is false at a cell exactly when the cell is settled. *)
Lemma Build_diff_false (s : Build.t) (current : Grid IDM) (c : Idx) :
  Build_diff s current c = false <-> settled s current c.
Proof.
  rewrite Build_diff_unfold. unfold settled. cbv zeta.
  set (cur := fst (cell current c)). set (sch := fst (cell (Build.schematic s) c)).
  rewrite !andb_false_iff, negb_false_iff, Z.eqb_eq, N.ltb_ge, negb_false_iff,
    isin_In.
  assert (Hpairs :
    forallb (fun '(p, q) => negb (isin cur [p; q]) || negb (isin sch [p; q]))
            BUILD_INTERCHANGEABLE_PAIRS = false <->
    exists p q, In (p, q) BUILD_INTERCHANGEABLE_PAIRS /\
                (cur = p \/ cur = q) /\ (sch = p \/ sch = q)).
  { induction BUILD_INTERCHANGEABLE_PAIRS as [|[p q] t IH]; simpl.
    - split; [discriminate|]. intros (? & ? & [] & _).
    - rewrite andb_false_iff, IH, orb_false_iff, !negb_false_iff, !orb_false_r,
        !orb_true_iff, !Z.eqb_eq.
      split.
      + intros [[H1 H2]|(p' & q' & Hin & H)].
        * exists p, q. auto.
        * exists p', q'. auto.
      + intros (p' & q' & [E|Hin] & H).
        * inversion E; subst. left. tauto.
        * right. exists p', q'. auto. }
  rewrite Hpairs.
  assert (Hembed : (if Build.embed s then negb (sch =? 0) else true) = false <->
                   Build.embed s = true /\ sch = 0).
  { destruct (Build.embed s).
    - rewrite negb_false_iff, Z.eqb_eq. tauto.
    - split; [discriminate|]. intros [? _]. discriminate. }
  rewrite Hembed. split.
  - intros [[[[H|H]|H]|H]|H]; auto. right. left. lia.
  - intros [H|[H|[H|[H|H]]]]; auto. left. left. left. right. lia.
Qed.

Lemma Build_entered_same (s : Build.t) (origin : XYZ) (a : Agent) :
  let s' := Build_entered s origin a in
  Build.schematic s' = Build.schematic s /\
  Build.attempts s' = Build.attempts s /\
  Build.embed s' = Build.embed s /\
  Build.origin s' = Build.origin s /\
  Build.new_blocks s' = Build.new_blocks s /\
  Base.finished (Build.base s') = Base.finished (Build.base s) /\
  Base.interrupted (Build.base s') = false /\
  Build.old_blocks_list s' <> None.
Proof.
  unfold Build_entered, Build_save_old. simpl.
  destruct (Build.old_blocks_list s) eqn:E; simpl; rewrite ?E;
    repeat split; congruence.
Qed.

Lemma Build_diff_entered (s : Build.t) (origin : XYZ) (a : Agent)
      (current : Grid IDM) (c : Idx) :
  Build_diff (Build_entered s origin a) current c = Build_diff s current c.
Proof.
  destruct (Build_entered_same s origin a) as (Hs & Ha & He & _).
  unfold Build_diff. now rewrite Hs, Ha, He.
Qed.
End BuildDiff.

Section BuildStep.
Context {C : Collaborators}.

(** [Build.step], with the top of the method folded into
    [Build_entered]. *)
Lemma Build_step_entered (s : Build.t) (a : Agent) (origin : XYZ) :
  Build.origin s = Some origin ->
  let s' := Build_entered s origin a in
  let current := Build_current s origin a in
  let diff := Build_diff s' current in
  let sh := shape (Build.schematic s') in
  Build_step s a =
  if negb (np_any sh diff) then Build_finish s' a
  else
    let remove_mask : Mask := fun i => diff i && negb (fst (cell current i) =? 0) in
    let xyzs := map (fun yzx => xyz_add (to_xyz yzx) origin)
                    (np_argwhere sh remove_mask) in
    match xyzs with
    | _ :: _ =>
        match Destroy_init a (Destroy.mkData (fill_idmeta a xyzs) None)
                           None with
        | Ok d => returns s' (task_stack_push (TDestroy d)
                                (Base.memid (Build.base s')) a)
        | Raise e => raises e s' a
        end
    | [] =>
        match Build_get_next_target s' a current diff with
        | Raise e => raises e s' a
        | Ok yzx =>
            let target := xyz_add (to_xyz yzx) origin in
            let pos := agent_pos (world a) in
            if xyz_eqb target pos || xyz_eqb target (xyz_add pos (0, 1, 0))
            then Build_step_any_dir s' a
            else if manhat_dist pos target <=? Build.PLACE_REACH then
              Build_place s' a yzx (cell (Build.schematic s') yzx)
                          (cell current yzx) target
            else
              returns s' (task_stack_push
                            (TMove (Move_init
                                      (Move.mkData target (Some Build.PLACE_REACH))
                                      (Base.featurizer (Build.base s'))))
                            (Base.memid (Build.base s')) a)
        end
    end.
Proof.
  intros Ho. unfold Build_step. cbn [Build.origin Build.set_base].
  rewrite Ho. reflexivity.
Qed.

(** [finish] either raises and leaves the task as it was, or returns
    and sets the finished flag. *)
Lemma Build_finish_self (s : Build.t) (a : Agent) :
  let r := Build_finish s a in
  (raised r <> None /\ self r = s) \/
  (raised r = None /\
   self r = Build.set_base (Base.set_finished true (Build.base s)) s).
Proof.
  unfold Build_finish.
  destruct (Build.origin s); [|left; split; [discriminate|reflexivity]].
  destruct (npy_to_blocks_list _ _) as [|[xyz ?] ?];
    [left; split; [discriminate|reflexivity]|].
  destruct (get_block_object_ids_by_xyz _ _);
    [left; split; [discriminate|reflexivity]|].
  right. split; reflexivity.
Qed.

Lemma Build_step_any_dir_self (s : Build.t) (a : Agent) :
  self (Build_step_any_dir s a) = s.
Proof.
  unfold Build_step_any_dir. destruct (agent_pos (world a)) as [[px py] pz].
  destruct (List.find _ _) as [[? ?]|]; reflexivity.
Qed.

(** What placing changes in the task: the attempts of the chosen cell go
    down by one (modulo 256), the list of placed blocks may grow, the
    give-up flag may be set; the base attributes stay. *)
Lemma Build_place_self (s : Build.t) (a : Agent) (yzx : Idx)
      (idm current_idm : IDM) (target : XYZ) :
  let r := Build_place s a yzx idm current_idm target in
  Build.base (self r) = Build.base s /\
  Build.schematic (self r) = Build.schematic s /\
  Build.origin (self r) = Build.origin s /\
  Build.embed (self r) = Build.embed s /\
  Build.old_blocks_list (self r) = Build.old_blocks_list s /\
  Build.old_origin (self r) = Build.old_origin s /\
  (forall c, Build.attempts (self r) c = Build.attempts s c \/
             (c = yzx /\ raised r = None /\
              Build.attempts (self r) c = uint8_decr (Build.attempts s c))).
Proof.
  unfold Build_place.
  destruct (negb (negb (fst current_idm =? fst idm))); [simpl; auto 10|].
  destruct target as [[x y] z].
  set (a1 := if negb (fst current_idm =? 0) then agent_dig (x, y, z) a else a).
  destruct (negb (fst idm =? 0)).
  - destruct (agent_place_block (x, y, z) (agent_set_held_item idm a1))
      as [a2 placed].
    destruct placed; cbn [Build.attempts Build.set_attempts Build.set_new_blocks
                          Build.giving_up_message_sent].
    all: match goal with |- context [if ?b then _ else _] =>
           destruct b end; simpl; repeat split; auto.
    all: intros c; destruct (bool_decide_reflect (c = yzx)); auto.
  - cbn [Build.attempts Build.set_attempts Build.giving_up_message_sent].
    match goal with |- context [if ?b then _ else _] => destruct b end;
      simpl; repeat split; auto.
    all: intros c; destruct (bool_decide_reflect (c = yzx)); auto.
Qed.
Lemma Build_diff_entered_eq (s : Build.t) (origin : XYZ) (a : Agent) :
  Build_diff (Build_entered s origin a) = Build_diff s.
Proof.
  unfold Build_entered, Build_save_old. cbn [Build.old_blocks_list Build.set_base].
  destruct (Build.old_blocks_list s); reflexivity.
Qed.

(** While the diff mask has a cell, [step] leaves the finished flag as it
    found it. *)
Lemma Build_step_unfinished (s : Build.t) (a : Agent) (origin : XYZ) :
  Build.origin s = Some origin ->
  np_any (shape (Build.schematic s))
         (Build_diff s (Build_current s origin a)) = true ->
  Base.finished (Build.base (self (Build_step s a)))
  = Base.finished (Build.base s).
Proof.
  intros Ho Hany. rewrite (Build_step_entered s a origin Ho). cbv zeta.
  destruct (Build_entered_same s origin a) as (Hs & _ & _ & _ & _ & Hf & _).
  rewrite Build_diff_entered_eq, Hs, Hany. cbn [negb].
  destruct (map _ _).
  - destruct (Build_get_next_target _ _ _ _) as [yzx|e]; [|exact Hf].
    destruct (_ || _).
    + now rewrite Build_step_any_dir_self.
    + destruct (_ <=? _); [|exact Hf].
      destruct (Build_place_self (Build_entered s origin a) a yzx
                  (cell (Build.schematic s) yzx)
                  (cell (Build_current s origin a) yzx)
                  (xyz_add (to_xyz yzx) origin)) as (Hb & _).
      rewrite Hb. exact Hf.
  - destruct (Destroy_init _ _ _); exact Hf.
Qed.

(** The region [Build.step] reads is the world at the schematic's cells. *)
Lemma Build_current_world (s : Build.t) (origin : XYZ) (a : Agent) (c : Idx) :
  cell (Build_current s origin a) c
  = block_at (world a) (xyz_add (to_xyz c) origin).
Proof.
  unfold Build_current. destruct origin as [[ox oy] oz].
  destruct (shape (Build.schematic s)) as [[sy sz] sx].
  destruct c as [[y z] x]. cbn [get_blocks cell to_xyz xyz_add].
  now rewrite (Z.add_comm ox), (Z.add_comm oy), (Z.add_comm oz).
Qed.

(** Whether a cell is settled depends on the block at that cell only. *)
Lemma settled_same_cell (s : Build.t) (g g' : Grid IDM) (c : Idx) :
  cell g c = cell g' c -> settled s g c -> settled s g' c.
Proof. unfold settled. intros E. now rewrite E. Qed.

(** C1.  [Build.step] calls [finish] exactly when the diff mask it has
    computed is all-false: with an all-false mask the step is the call of
    [finish]; with a masked cell the finished flag is left alone.  The
    region the mask is computed from is the world itself: its cell [c] is
    the block the world holds at [origin + c].  So when a step turns the
    finished flag to true, every cell of the schematic grid is settled in
    the world at that moment: the world's block-type at the cell equals
    the schematic's, or the attempts of the cell are 0, or the world's
    type is in the ignore set, or the task embeds and the schematic
    intends no block there, or both types fall in one interchangeable
    pair.  And when some cell of the grid is not settled in the world, the
    step does not finish the task. *)
Theorem Build_finish_iff_no_diff (s : Build.t) (a : Agent) (origin : XYZ) :
  Build.origin s = Some origin ->
  let current := Build_current s origin a in
  let sh := shape (Build.schematic s) in
  let r := Build_step s a in
  (forall c, cell current c = block_at (world a) (xyz_add (to_xyz c) origin)) /\
  (np_any sh (Build_diff s current) = false ->
   r = Build_finish (Build_entered s origin a) a) /\
  (np_any sh (Build_diff s current) = true ->
   Base.finished (Build.base (self r)) = Base.finished (Build.base s)) /\
  (Base.finished (Build.base s) = false ->
   Base.finished (Build.base (self r)) = true ->
   np_any sh (Build_diff s current) = false /\
   (forall c, In c (ndindex sh) -> settled (self r) current c) /\
   (forall c, In c (ndindex sh) -> settled (self r) (world_view a origin sh) c)) /\
  (forall c, In c (ndindex sh) -> ~ settled s (world_view a origin sh) c ->
             Base.finished (Build.base (self r)) = Base.finished (Build.base s)).
Proof.
  intros Ho current sh r.
  assert (Hfin : np_any sh (Build_diff s current) = false ->
                 r = Build_finish (Build_entered s origin a) a).
  { intros Hany. unfold r. rewrite (Build_step_entered s a origin Ho). cbv zeta.
    destruct (Build_entered_same s origin a) as (Hs & _).
    rewrite Build_diff_entered_eq, Hs. fold current sh. now rewrite Hany. }
  assert (Hsettled : Base.finished (Build.base s) = false ->
            Base.finished (Build.base (self r)) = true ->
            np_any sh (Build_diff s current) = false /\
            forall c, In c (ndindex sh) -> settled (self r) current c).
  { intros Hf Hf'.
    destruct (np_any sh (Build_diff s current)) eqn:Hany.
    - pose proof (Build_step_unfinished s a origin Ho Hany) as E.
      fold r in E. congruence.
    - split; [reflexivity|]. intros c Hc.
      pose proof (proj1 (np_any_false sh _) Hany c Hc) as Hd.
      apply Build_diff_false in Hd.
      destruct (Build_entered_same s origin a) as (Hs & Ha & He & _).
      rewrite (Hfin eq_refl).
      destruct (Build_finish_self (Build_entered s origin a) a) as [[_ E]|[_ E]];
        rewrite E; unfold settled in *;
        cbn [Build.schematic Build.attempts Build.embed Build.set_base];
        rewrite Hs, Ha, He; exact Hd. }
  split; [intros c; apply Build_current_world|].
  split; [exact Hfin|]. split; [now apply Build_step_unfinished|]. split.
  - intros Hf Hf'. destruct (Hsettled Hf Hf') as [Hany Hall].
    split; [exact Hany|]. split; [exact Hall|].
    intros c Hc. apply (settled_same_cell _ current); [|now apply Hall].
    exact (Build_current_world s origin a c).
  - intros c Hc Hn.
    destruct (np_any sh (Build_diff s current)) eqn:Hany;
      [exact (Build_step_unfinished s a origin Ho Hany)|].
    exfalso. apply Hn.
    pose proof (proj1 (np_any_false sh _) Hany c Hc) as Hd.
    apply Build_diff_false in Hd.
    apply (settled_same_cell _ current);
      [exact (Build_current_world s origin a c)|exact Hd].
Qed.
End BuildStep.

(** In the example the world already holds the three blocks: the step
    finishes the task and every cell is settled in the world.  In the
    empty world the corner cell is not settled, and the step leaves the
    task unfinished. *)
Lemma Build_finish_iff_no_diff_witness :
  let s := Examples.corner in
  let a := Examples.beside_done in
  (Base.finished (Build.base (self (Build_step s a))) = true /\
   forall c, In c (ndindex (shape (Build.schematic s))) ->
             settled (C := Demo.collaborators) (self (Build_step s a))
                     (world_view a (0, 64, 0) (shape (Build.schematic s))) c) /\
  Base.finished (Build.base (self (Build_step s Examples.beside))) = false.
Proof.
  intros s a. split.
  - destruct (Build_finish_iff_no_diff s a (0, 64, 0) eq_refl)
      as (_ & _ & _ & H & _).
    split; [vm_compute; reflexivity|].
    apply H; vm_compute; reflexivity.
  - destruct (Build_finish_iff_no_diff s Examples.beside (0, 64, 0) eq_refl)
      as (_ & _ & _ & _ & H).
    rewrite (H (0, 0, 0)); [reflexivity|vm_compute; auto|].
    unfold settled. vm_compute.
    intros [E|[E|[E|[[E _]|(p & q & [E|[]] & [E1|E1] & _)]]]];
      try discriminate; try (destruct E as [E|[E|[E|[]]]]; discriminate);
      inversion E; subst; discriminate.
Defined.

(** ** Build: the attempts grid *)

Section Attempts.
Context {C : Collaborators}.

Lemma Build_init_attempts (a : Agent) (d : Build.data) (f : option Handle)
      (s : Build.t) :
  Build_init a d f = Ok s -> forall c, Build.attempts s c = 3%N.
Proof.
  unfold Build_init. destruct (blocks_list_to_npy _) as [[g off]|]; [|discriminate].
  destruct (_ && _).
  - destruct (Build.d_origin d) as [[[ox oy] oz]|]; [|discriminate].
    intros E c. inversion E. reflexivity.
  - intros E c. inversion E. reflexivity.
Qed.

Lemma Build_get_next_target_entered (s : Build.t) (origin : XYZ) (a : Agent) :
  Build_get_next_target (Build_entered s origin a) = Build_get_next_target s.
Proof.
  unfold Build_entered, Build_save_old. cbn [Build.old_blocks_list Build.set_base].
  destruct (Build.old_blocks_list s); reflexivity.
Qed.

Lemma Build_get_next_target_masked (s : Build.t) (a : Agent)
      (current : Grid IDM) (diff : Mask) (c : Idx) :
  Build_get_next_target s a current diff = Ok c ->
  In c (ndindex (shape (Build.schematic s))) /\ diff c = true.
Proof.
  unfold Build_get_next_target. destruct (Build.origin s); [|discriminate].
  match goal with |- match ?l with _ => _ end = _ -> _ =>
    destruct l as [|first rest] eqn:E end; [discriminate|].
  intros H. inversion H; subst. apply in_argwhere.
  assert (Hin : In c (c :: rest)) by now left.
  rewrite <- E in Hin. now rewrite !in_sort_by in Hin.
Qed.

(** One step changes the attempts of at most one cell: the cell that
    [get_next_target] chose from the diff mask, which goes down by one
    modulo 256. *)
Lemma Build_step_attempts (s : Build.t) (a : Agent) (c : Idx) :
  Build.attempts (self (Build_step s a)) c = Build.attempts s c \/
  exists origin,
    Build.origin s = Some origin /\
    Build_diff s (Build_current s origin a) c = true /\
    Build_get_next_target s a (Build_current s origin a)
                          (Build_diff s (Build_current s origin a)) = Ok c /\
    raised (Build_step s a) = None /\
    Build.attempts (self (Build_step s a)) c = uint8_decr (Build.attempts s c).
Proof.
  destruct (Build.origin s) as [origin|] eqn:Ho.
  - rewrite (Build_step_entered s a origin Ho). cbv zeta.
    destruct (Build_entered_same s origin a) as (Hs & Ha & _).
    rewrite Build_diff_entered_eq, Build_get_next_target_entered.
    destruct (negb _).
    { destruct (Build_finish_self (Build_entered s origin a) a) as [[_ E]|[_ E]];
        rewrite E; cbn [Build.attempts Build.set_base]; rewrite Ha; now left. }
    destruct (map _ _).
    + destruct (Build_get_next_target _ _ _ _) as [yzx|e] eqn:Et;
        [|left; simpl; now rewrite Ha].
      destruct (_ || _).
      { rewrite Build_step_any_dir_self, Ha. now left. }
      destruct (_ <=? _); [|left; simpl; now rewrite Ha].
      destruct (Build_place_self (Build_entered s origin a) a yzx
                  (cell (Build.schematic (Build_entered s origin a)) yzx)
                  (cell (Build_current s origin a) yzx)
                  (xyz_add (to_xyz yzx) origin)) as (_ & _ & _ & _ & _ & _ & Hatt).
      destruct (Hatt c) as [E|(-> & Hr & E)]; rewrite E, Ha; [now left|].
      right. exists origin. repeat split; auto.
      now apply Build_get_next_target_masked in Et.
    + destruct (Destroy_init _ _ _); left; simpl; now rewrite Ha.
  - left. unfold Build_step. cbn [Build.origin Build.set_base]. rewrite Ho.
    reflexivity.
Qed.

Lemma uint8_decr_pos (n : N) :
  (0 < n < 256)%N -> (uint8_decr n + 1 = n)%N.
Proof.
  intros H. unfold uint8_decr.
  replace (n + 255)%N with (n - 1 + 1 * 256)%N by lia.
  rewrite N.Div0.mod_add, N.mod_small; lia.
Qed.

Lemma Build_reachable_attempts (s : Build.t) :
  Build_reachable s -> forall c, (Build.attempts s c <= 3)%N.
Proof.
  induction 1 as [a d f s Hi|s a Hs IH|s v Hs IH]; intros c.
  - rewrite (Build_init_attempts a d f s Hi). lia.
  - destruct (Build_step_attempts s a c) as [E|(origin & _ & Hd & _ & _ & E)];
      rewrite E; [apply IH|].
    apply Build_diff_true in Hd as [Hpos _]. specialize (IH c).
    pose proof (uint8_decr_pos (Build.attempts s c)). lia.
  - apply IH.
Qed.

(** C3.  A Build task is constructed with 3 attempts in every cell.  In
    every state the task reaches, through any sequence of steps against
    any agent, and for every cell: one more step does not raise the
    counter and lowers it by at most one; the counter is a natural number
    that stays at most 3, and the [uint8] decrement never wraps below 0
    because the only cell it touches is the one chosen from the diff mask,
    whose counter is positive. *)
Theorem Build_attempts_monotone (s : Build.t) :
  Build_reachable s ->
  (forall a d f s0, Build_init a d f = Ok s0 ->
                    forall c, Build.attempts s0 c = 3%N) /\
  forall (a : Agent) (c : Idx),
    let s' := self (Build_step s a) in
    (Build.attempts s c <= 3)%N /\
    (Build.attempts s' c <= Build.attempts s c)%N /\
    (Build.attempts s c <= Build.attempts s' c + 1)%N /\
    0 <= Z.of_N (Build.attempts s' c) /\
    (Build.attempts s' c <> Build.attempts s c ->
     (0 < Build.attempts s c)%N /\
     exists origin,
       Build.origin s = Some origin /\
       Build_diff s (Build_current s origin a) c = true /\
       Build_get_next_target s a (Build_current s origin a)
         (Build_diff s (Build_current s origin a)) = Ok c).
Proof.
  intros Hr. split; [exact Build_init_attempts|]. intros a c s'.
  pose proof (Build_reachable_attempts s Hr c) as Hle.
  split; [exact Hle|].
  destruct (Build_step_attempts s a c) as [E|(origin & Ho & Hd & Ht & _ & E)];
    fold s' in E.
  - rewrite E. split; [lia|]. split; [lia|]. split; [lia|]. congruence.
  - pose proof (Build_diff_true _ _ _ Hd) as [Hpos _].
    pose proof (uint8_decr_pos (Build.attempts s c)) as Hdecr.
    rewrite E. split; [lia|]. split; [lia|]. split; [lia|].
    intros _. split; [exact Hpos|]. exists origin. auto.
Qed.
End Attempts.

(** In the example, the first step from beside the schematic places the
    free ground cell: its counter goes from 3 to 2, the others stay. *)
Lemma Build_attempts_monotone_witness :
  let s := Examples.corner in
  let s' := self (Build_step s Examples.beside) in
  Build.attempts s (0, 0, 1) = 3%N /\ Build.attempts s' (0, 0, 1) = 2%N /\
  (Build.attempts s' (0, 0, 0)%Z <= Build.attempts s (0, 0, 0)%Z)%N /\
  (Build.attempts s (0, 0, 1)%Z <= Build.attempts s' (0, 0, 1)%Z + 1)%N.
Proof.
  intros s s'.
  assert (Hr : Build_reachable (C := Demo.collaborators) s).
  { eapply (reach_init (Demo.agent_at (0, 64, 0) [] false)
              (Build.mkData Examples.corner_blocks (Some (0, 64, 0)) None None
                            (Some true) None None None) None).
    vm_compute. reflexivity. }
  destruct (Build_attempts_monotone s Hr) as [_ H].
  split; [reflexivity|]. split; [vm_compute; reflexivity|]. split.
  - apply (H Examples.beside (0, 0, 0)).
  - apply (H Examples.beside (0, 0, 1)).
Defined.

(** ** Destroy: no route to any remaining cell *)

Section DestroyNoPath.
Context {C : Collaborators}.

Lemma find_all_false {A : Type} (f : A -> bool) (l : list A) :
  (forall x, In x l -> f x = false) -> List.find f l = None.
Proof.
  induction l as [|h t IH]; intros H; simpl; [reflexivity|].
  rewrite (H h) by now left. apply IH. intros x Hx. apply H. now right.
Qed.

(** The candidates of [get_target] are the remaining cells. *)
Lemma Destroy_candidates (s : Destroy.t) (p c : XYZ) :
  In c (sort_by (fun c => manhat_dist p c) (elements (Destroy.xyz_remaining s)))
  <-> c ∈ Destroy.xyz_remaining s.
Proof. now rewrite in_sort_by, <- list_elem_of_In, elem_of_elements. Qed.

Lemma StronglySorted_weaken {A : Type} (R S : A -> A -> Prop) (l : list A) :
  (forall x y, R x y -> S x y) -> StronglySorted R l -> StronglySorted S l.
Proof.
  intros HRS. induction 1 as [|h t Ht IH Hh]; constructor; [assumption|].
  eapply List.Forall_impl; [|exact Hh]. auto.
Qed.

(** They are tried in ascending Manhattan distance from the agent. *)
Lemma Destroy_candidates_ascending (s : Destroy.t) (p : XYZ) :
  StronglySorted (fun c d => manhat_dist p c <= manhat_dist p d)
    (sort_by (fun c => manhat_dist p c) (elements (Destroy.xyz_remaining s))).
Proof.
  eapply StronglySorted_weaken;
    [|apply (sort_by_sorted _ (fun _ _ => True))].
  - intros c d [H|[H _]]; lia.
  - generalize (elements (Destroy.xyz_remaining s)).
    induction l; constructor; auto. apply List.Forall_forall. auto.
Qed.

(** C4.  A Destroy task with cells remaining, none of which the path
    finder can route to: the step tells the user that there is no path,
    sets the finished flag, returns without an exception, leaves the
    remaining set as it was (so not empty), and touches neither the world
    nor the task stack: no block is removed and nothing is retried. *)
Theorem Destroy_no_path_gives_up (s : Destroy.t) (a : Agent) :
  Destroy.xyz_remaining s <> ∅ ->
  (forall c, c ∈ Destroy.xyz_remaining s -> astar (world a) c 2 = None) ->
  let r := Destroy_step s a in
  Destroy_get_target s a = None /\
  raised r = None /\
  chats (agent r) = "There's no path, so I'm giving up"%string :: chats a /\
  Base.finished (Destroy.base (self r)) = true /\
  Destroy.xyz_remaining (self r) = Destroy.xyz_remaining s /\
  Destroy.xyz_remaining (self r) <> ∅ /\
  world (agent r) = world a /\
  acts (agent r) = acts a /\
  task_stack (agent r) = task_stack a.
Proof.
  intros Hne Hno r.
  assert (Ht : forall s', Destroy.xyz_remaining s' = Destroy.xyz_remaining s ->
                          Destroy_get_target s' a = None).
  { intros s' E. unfold Destroy_get_target. apply find_all_false.
    intros c Hc. apply Destroy_candidates in Hc. rewrite E in Hc.
    now rewrite (Hno c Hc). }
  split; [now apply Ht|].
  unfold r, Destroy_step. cbn [Destroy.xyz_remaining Destroy_set_base].
  destruct (elements (Destroy.xyz_remaining s)) as [|x l] eqn:E.
  { apply elements_empty_inv in E. apply leibniz_equiv in E. contradiction. }
  cbn [List.length Nat.eqb]. rewrite Ht by reflexivity.
  cbn. repeat split; auto.
Qed.
End DestroyNoPath.

(** In the example the agent is walled in: the task gives up and keeps
    its one cell. *)
Lemma Destroy_no_path_gives_up_witness :
  let r := Destroy_step Examples.rubble Examples.walled_in in
  raised r = None /\
  chats (agent r) = ["There's no path, so I'm giving up"%string] /\
  Base.finished (Destroy.base (self r)) = true /\
  Destroy.xyz_remaining (self r) = {[ (5, 64, 5) ]} /\
  acts (agent r) = [].
Proof.
  intros r.
  destruct (Destroy_no_path_gives_up Examples.rubble Examples.walled_in)
    as (_ & H1 & H2 & H3 & H4 & _ & _ & H5 & _).
  - intros E. apply (f_equal elements) in E. vm_compute in E. discriminate.
  - intros c _. reflexivity.
  - repeat split; assumption.
Defined.

(** ** Move: already there *)

Section MoveArrived.
Context {C : Collaborators}.

(** C6.  A Move whose target is within [approx] (Manhattan distance) of
    where the agent stands, with an empty replace set: the first step
    returns with the finished flag set and has called no primitive on the
    world: the world is the one it found, and so are the log of primitive
    calls (no dig, no placement, no movement), the task stack and the
    chat. *)
Theorem Move_arrived_finishes (s : Move.t) (a : Agent) :
  manhat_dist (agent_pos (world a)) (Move.target s) <= Move.approx s ->
  Move.replace s = ∅ ->
  let r := Move_step s a in
  raised r = None /\
  Base.finished (Move.base (self r)) = true /\
  world (agent r) = world a /\
  acts (agent r) = acts a /\
  task_stack (agent r) = task_stack a /\
  chats (agent r) = chats a /\
  Move.replace (self r) = ∅.
Proof.
  intros Hnear Hempty r. unfold r, Move_step.
  unfold Move_set_base, Move_set_replace.
  cbn [Move.replace Move.target Move.approx Move.base].
  rewrite Hempty, elements_empty.
  cbn [Move_flush fold_left Move.replace Move.target Move.approx Move.base].
  apply Z.leb_le in Hnear. rewrite Hnear.
  destruct (Base.memid _); cbn; repeat split; reflexivity.
Qed.
End MoveArrived.

(** In the example the target is the neighbouring cell. *)
Lemma Move_arrived_finishes_witness :
  let r := Move_step Examples.short_walk Examples.inside in
  raised r = None /\
  Base.finished (Move.base (self r)) = true /\
  world (agent r) = world Examples.inside /\
  acts (agent r) = [].
Proof.
  intros r.
  destruct (Move_arrived_finishes Examples.short_walk Examples.inside)
    as (H1 & H2 & H3 & H4 & _).
  - vm_compute. discriminate.
  - reflexivity.
  - repeat split; assumption.
Defined.

(** ** Dig: the cell list handed to Destroy *)

Section DigCells.
Context {C : Collaborators}.

Lemma in_py_range (lo hi i : Z) : In i (py_range lo hi) <-> lo <= i < hi.
Proof.
  unfold py_range. rewrite in_map_iff. split.
  - intros [k [<- Hk]]. apply in_seq in Hk. lia.
  - intros H. exists (Z.to_nat (i - lo)). rewrite in_seq. lia.
Qed.

Lemma in_Dig_poss (mx Mx my My mz Mz x y z : Z) :
  In (x, y, z) (Dig_poss mx Mx my My mz Mz) <->
  mx <= x <= Mx /\ my <= y <= My /\ mz <= z <= Mz.
Proof.
  unfold Dig_poss. rewrite in_flat_map. split.
  - intros [x' [Hx H]]. apply in_flat_map in H as [y' [Hy H]].
    apply in_map_iff in H as [z' [E Hz]]. inversion E; subst.
    rewrite in_py_range in *. lia.
  - intros (Hx & Hy & Hz). exists x. rewrite in_py_range. split; [lia|].
    apply in_flat_map. exists y. rewrite in_py_range. split; [lia|].
    apply in_map_iff. exists z. rewrite in_py_range. split; [reflexivity|lia].
Qed.

Lemma flat_map_length_const {A B : Type} (f : A -> list B) (l : list A)
      (k : nat) :
  (forall x, List.length (f x) = k) ->
  List.length (flat_map f l) = (List.length l * k)%nat.
Proof.
  intros H. induction l as [|h t IH]; simpl; [reflexivity|].
  rewrite length_app, H, IH. reflexivity.
Qed.

Lemma py_range_length (lo hi : Z) :
  List.length (py_range lo hi) = Z.to_nat (hi - lo).
Proof. unfold py_range. now rewrite length_map, length_seq. Qed.

Lemma Dig_poss_length (mx Mx my My mz Mz : Z) :
  List.length (Dig_poss mx Mx my My mz Mz)
  = (Z.to_nat (Mx + 1 - mx) * (Z.to_nat (My + 1 - my) * Z.to_nat (Mz + 1 - mz)))%nat.
Proof.
  unfold Dig_poss.
  rewrite (flat_map_length_const _ _
             (Z.to_nat (My + 1 - my) * Z.to_nat (Mz + 1 - mz))).
  - now rewrite py_range_length.
  - intros x. rewrite (flat_map_length_const _ _ (Z.to_nat (Mz + 1 - mz))).
    + now rewrite py_range_length.
    + intros y. now rewrite length_map, py_range_length.
Qed.

Lemma strip_fill_idmeta (a : Agent) (poss : list XYZ) :
  strip_idmeta (fill_idmeta a poss) = poss.
Proof.
  unfold strip_idmeta, fill_idmeta. rewrite map_map. simpl. apply map_id.
Qed.

(** The constructor of Destroy succeeds on a list that has a cell. *)
Lemma Destroy_init_nonempty (a : Agent) (blocks : list Block)
      (dm : option bool) (f : option Handle) :
  blocks <> [] ->
  exists d, Destroy_init a (Destroy.mkData blocks dm) f = Ok d /\
            Destroy.schematic d = blocks /\
            Destroy.xyz_remaining d = list_to_set (strip_idmeta blocks) /\
            Destroy.dig_message d = (match dm with Some _ => true | None => false end) /\
            Destroy.base d = Task_init f.
Proof.
  intros Hne. unfold Destroy_init. cbn [Destroy.d_schematic Destroy.d_dig_message].
  destruct (elements (list_to_set (strip_idmeta blocks) : gset XYZ)) eqn:E.
  - exfalso. apply elements_empty_inv in E. apply leibniz_equiv in E.
    destruct blocks as [|[p idm] t]; [congruence|].
    assert (H : p ∈ (∅ : gset XYZ)) by (rewrite <- E; simpl; set_solver).
    set_solver.
  - eexists. split; [reflexivity|]. repeat split.
Qed.

(** The test of [Dig.step] on the last layer of the region it has read is
    the test of the top layer of the volume. *)
Lemma Dig_top_check (a : Agent) (mx My mz length width depth : Z) (top : nat) :
  0 < length -> 0 < width -> Z.of_nat top = depth - 1 ->
  forallb (fun z => forallb (fun x =>
             isin (fst (cell (get_blocks a mx (mx + (width - 1))
                                         (My - (depth - 1)) My
                                         mz (mz + (length - 1)))
                             (Z.of_nat top, z, x)))
                  PASSABLE_BLOCKS)
             (zrange (Z.to_nat (mx + (width - 1) - mx + 1))))
          (zrange (Z.to_nat (mz + (length - 1) - mz + 1)))
  = forallb (fun p => isin (fst (block_at (world a) p)) PASSABLE_BLOCKS)
            (Dig_volume (mx, My, mz) length width 1).
Proof.
  intros Hl Hw Htop. apply eq_iff_eq_true.
  rewrite !forallb_forall. unfold Dig_volume. split.
  - intros H [[x y] z] Hp. apply in_Dig_poss in Hp.
    specialize (H (z - mz)). rewrite in_zrange in H.
    assert (Hz : 0 <= z - mz < Z.of_nat (Z.to_nat (mz + (length - 1) - mz + 1)))
      by lia.
    specialize (H Hz). rewrite forallb_forall in H.
    specialize (H (x - mx)). rewrite in_zrange in H.
    assert (Hx : 0 <= x - mx < Z.of_nat (Z.to_nat (mx + (width - 1) - mx + 1)))
      by lia.
    specialize (H Hx). cbn [get_blocks cell] in H.
    replace (mx + (x - mx)) with x in H by lia.
    replace (My - (depth - 1) + Z.of_nat top) with y in H by lia.
    replace (mz + (z - mz)) with z in H by lia. exact H.
  - intros H z Hz. rewrite forallb_forall. intros x Hx.
    rewrite in_zrange in Hz, Hx. cbn [get_blocks cell].
    apply H. apply in_Dig_poss. lia.
Qed.
Lemma Dig_volume_nonempty (origin : XYZ) (length width depth : Z) :
  0 < length -> 0 < width -> 0 < depth ->
  Dig_volume origin length width depth <> [].
Proof.
  intros Hl Hw Hd. destruct origin as [[mx My] mz]. unfold Dig_volume.
  assert (H : In (mx, My, mz)
                 (Dig_poss mx (mx + (width - 1)) (My - (depth - 1)) My mz
                           (mz + (length - 1))))
    by (apply in_Dig_poss; lia).
  intros E. rewrite E in H. destruct H.
Qed.

(** A volume one layer deeper keeps every cell of the volume. *)
Lemma Dig_volume_deeper (origin : XYZ) (length width depth : Z) (p : XYZ) :
  In p (Dig_volume origin length width depth) ->
  In p (Dig_volume origin length width (depth + 1)).
Proof.
  destruct origin as [[mx My] mz], p as [[x y] z]. unfold Dig_volume.
  rewrite !in_Dig_poss. lia.
Qed.

Lemma Dig_volume_length (origin : XYZ) (length width depth : Z) :
  0 < length -> 0 < width -> 0 < depth ->
  List.length (Dig_volume origin length width depth)
  = Z.to_nat (width * depth * length).
Proof.
  intros Hl Hw Hd. destruct origin as [[mx My] mz]. unfold Dig_volume.
  rewrite Dig_poss_length.
  replace (mx + (width - 1) + 1 - mx) with width by lia.
  replace (My + 1 - (My - (depth - 1))) with depth by lia.
  replace (mz + (length - 1) + 1 - mz) with length by lia.
  rewrite <- !Z2Nat.inj_mul by nia. f_equal. lia.
Qed.

(** C7, amended.  A Dig with positive length, width and depth pushes one
    Destroy child over a cell list and finishes on its first step, without
    touching the world.  When the top layer of the volume is not entirely
    passable the cell list is exactly the volume.  When it is, the cell
    list is the volume made one layer deeper: only the bottom is lowered,
    so every cell of the volume is still in the list and the list is
    longer by one layer ([width * length] cells). *)
Theorem Dig_step_deepens_volume (s : Dig.t) (a : Agent) :
  0 < Dig.length s -> 0 < Dig.width s -> 0 < Dig.depth s ->
  let r := Dig_step s a in
  let volume := Dig_volume (Dig.origin s) (Dig.length s) (Dig.width s) in
  let cells := if Dig_top_open s a then volume (Dig.depth s + 1)
               else volume (Dig.depth s) in
  (exists d,
     raised r = None /\
     task_stack (agent r) = (TDestroy d, Base.memid (Dig.base s)) :: task_stack a /\
     Dig.destroy_task (self r) = Some d /\
     Base.finished (Dig.base (self r)) = true /\
     strip_idmeta (Destroy.schematic d) = cells /\
     Destroy.xyz_remaining d = list_to_set cells /\
     Destroy.dig_message d = true /\
     world (agent r) = world a /\
     acts (agent r) = acts a) /\
  (forall p, In p (volume (Dig.depth s)) -> In p cells) /\
  (Dig_top_open s a = true ->
   List.length cells
   = (List.length (volume (Dig.depth s))
      + Z.to_nat (Dig.width s * Dig.length s))%nat).
Proof.
  intros Hl Hw Hd r volume cells. split; [|split].
  - unfold r, Dig_step, cells, volume, Dig_top_open.
    destruct (Dig.origin s) as [[mx My] mz] eqn:Eo. cbn [get_blocks shape].
    destruct (Z.to_nat (My - (My - (Dig.depth s - 1)) + 1)) as [|top] eqn:Esy;
      [lia|].
    rewrite (Dig_top_check a mx My mz (Dig.length s) (Dig.width s)
                           (Dig.depth s) top) by lia.
    set (open := forallb _ (Dig_volume (mx, My, mz) (Dig.length s) (Dig.width s) 1)).
    set (poss := Dig_poss mx (mx + (Dig.width s - 1))
                   (if open then My - (Dig.depth s - 1) - 1
                    else My - (Dig.depth s - 1))
                   My mz (mz + (Dig.length s - 1))).
    assert (Hposs : poss = if open
                           then Dig_volume (mx, My, mz) (Dig.length s)
                                           (Dig.width s) (Dig.depth s + 1)
                           else Dig_volume (mx, My, mz) (Dig.length s)
                                           (Dig.width s) (Dig.depth s)).
    { unfold poss, Dig_volume. destruct open; [|reflexivity].
      f_equal. lia. }
    assert (Hne : fill_idmeta a poss <> []).
    { intros E. apply (f_equal strip_idmeta) in E.
      rewrite strip_fill_idmeta in E. simpl in E. rewrite Hposs in E.
      destruct open; revert E; apply Dig_volume_nonempty; lia. }
    destruct (Destroy_init_nonempty a (fill_idmeta a poss) (Some true) None Hne)
      as (d & Ed & Hsch & Hrem & Hmsg & _).
    rewrite Ed. exists d. cbn.
    rewrite Hsch, Hrem, strip_fill_idmeta, Hposs. repeat split; auto.
  - intros p Hp. unfold cells. destruct (Dig_top_open s a); [|assumption].
    now apply Dig_volume_deeper.
  - intros Hopen. unfold cells, volume. rewrite Hopen.
    rewrite !Dig_volume_length by lia.
    rewrite <- Z2Nat.inj_add by nia. f_equal. lia.
Qed.
End DigCells.

(** In the example the pit is dug from a stone floor: the cell list is
    the 8 cells of the volume. *)
Lemma Dig_step_deepens_volume_witness :
  let r := Dig_step Examples.pit Examples.on_stone in
  exists d,
    raised r = None /\
    Dig.destroy_task (self r) = Some d /\
    Base.finished (Dig.base (self r)) = true /\
    strip_idmeta (Destroy.schematic d) = Dig_volume (0, 64, 0) 2 2 2.
Proof.
  intros r.
  destruct (Dig_step_deepens_volume Examples.pit Examples.on_stone)
    as [(d & H1 & _ & H3 & H4 & H5 & _) _].
  - vm_compute. reflexivity.
  - vm_compute. reflexivity.
  - vm_compute. reflexivity.
  - exists d. repeat split; assumption.
Defined.

(** C7 as stated fails where the top layer is open: a 2 x 2 x 2 pit in an
    empty world is handed to Destroy as 12 cells that still hold the top
    layer, not as the 8 cells of the volume moved down. *)
Lemma Dig_open_top_is_not_a_shift :
  ~ Dig_shifts_volume Examples.pit Examples.open_air.
Proof.
  intros (d & Hstack & _ & Hcells).
  vm_compute in Hstack. injection Hstack as <-.
  vm_compute in Hcells. discriminate.
Qed.

(** ** Build: what a step leaves in place *)

Section BuildFrame.
Context {C : Collaborators}.

Lemma Build_entered_old (s : Build.t) (origin : XYZ) (a : Agent) :
  forall old, Build.old_blocks_list s = Some old ->
              Build.old_blocks_list (Build_entered s origin a) = Some old.
Proof.
  intros old E. unfold Build_entered, Build_save_old.
  cbn [Build.old_blocks_list Build.set_base]. rewrite E. exact E.
Qed.

(** A step never changes the schematic, the origin or the embed flag; it
    leaves the interrupted flag cleared; once it has got past reading the
    origin the undo snapshot exists, and a snapshot that exists is kept. *)
Lemma Build_step_frame (s : Build.t) (a : Agent) :
  let s' := self (Build_step s a) in
  Build.schematic s' = Build.schematic s /\
  Build.origin s' = Build.origin s /\
  Build.embed s' = Build.embed s /\
  Base.interrupted (Build.base s') = false /\
  (Build.origin s <> None -> Build.old_blocks_list s' <> None) /\
  (forall old, Build.old_blocks_list s = Some old ->
               Build.old_blocks_list s' = Some old).
Proof.
  destruct (Build.origin s) as [origin|] eqn:Ho.
  - rewrite (Build_step_entered s a origin Ho). cbv zeta.
    pose proof (Build_entered_old s origin a) as Hold.
    destruct (Build_entered_same s origin a)
      as (Hs & _ & He & Hor & _ & _ & Hi & Hsome).
    set (s1 := Build_entered s origin a) in *.
    assert (Hs1 : Build.schematic s1 = Build.schematic s /\
                  Build.origin s1 = Some origin /\
                  Build.embed s1 = Build.embed s /\
                  Base.interrupted (Build.base s1) = false /\
                  (Some origin <> None -> Build.old_blocks_list s1 <> None) /\
                  (forall old, Build.old_blocks_list s = Some old ->
                               Build.old_blocks_list s1 = Some old))
      by (repeat split; auto; congruence).
    destruct (negb _).
    { destruct (Build_finish_self s1 a) as [[_ E]|[_ E]]; rewrite E;
        exact Hs1. }
    destruct (map _ _).
    + destruct (Build_get_next_target _ _ _ _) as [yzx|e]; [|exact Hs1].
      destruct (_ || _); [now rewrite Build_step_any_dir_self|].
      destruct (_ <=? _); [|exact Hs1].
      destruct (Build_place_self s1 a yzx (cell (Build.schematic s1) yzx)
                  (cell (Build_current s origin a) yzx)
                  (xyz_add (to_xyz yzx) origin))
        as (Hb & Hsc & Hor' & Hem & Hol & _).
      rewrite Hb, Hsc, Hor', Hem, Hol. exact Hs1.
    + destruct (Destroy_init _ _ _); exact Hs1.
  - unfold Build_step. cbn [Build.origin Build.set_base]. rewrite Ho.
    cbn. repeat split; auto; congruence.
Qed.
End BuildFrame.

(** ** The interrupted flag *)

Section Interrupt.
Context {C : Collaborators}.

(** Case analysis on whatever the goal branches on. *)
Ltac branch :=
  match goal with
  | |- context [match ?x with _ => _ end] => destruct x eqn:?
  end.

Lemma Move_step_interrupted (s : Move.t) (a : Agent) :
  Base.interrupted (Move.base (self (Move_step s a))) = false.
Proof.
  unfold Move_step, Move_handle_no_path, Move_take_step, Move_set_base,
    Move_set_replace, Move_set_path.
  cbn [Move.base Move.target Move.approx Move.path Move.replace].
  repeat (branch; cbn [self returns raises Move.base Move.path
                       Base.interrupted Base.set_finished
                       Base.set_interrupted]);
    reflexivity.
Qed.

Lemma Destroy_step_interrupted (s : Destroy.t) (a : Agent) :
  Base.interrupted (Destroy.base (self (Destroy_step s a))) = false.
Proof.
  unfold Destroy_step, Destroy_set_base, Destroy_set_xyz_remaining.
  cbn [Destroy.base Destroy.xyz_remaining Destroy.dig_message].
  repeat (branch; cbn [self returns raises Destroy.base Base.interrupted
                       Base.set_finished Base.set_interrupted]);
    reflexivity.
Qed.

Lemma Dance_step_interrupted (s : Dance.t) (a : Agent) :
  Base.interrupted (Dance.base (self (Dance_step s a))) = false.
Proof.
  unfold Dance_step. cbn [Dance.base Dance.movement].
  repeat (branch; cbn [self returns raises Dance.base Base.interrupted
                       Base.set_finished Base.set_interrupted]);
    reflexivity.
Qed.

(** The steps that never write the flag. *)
Lemma Fill_step_interrupted (s : Fill.t) (a : Agent) :
  Base.interrupted (Fill.base (self (Fill_step s a)))
  = Base.interrupted (Fill.base s).
Proof. unfold Fill_step. repeat branch; reflexivity. Qed.

Lemma Undo_step_interrupted (s : Undo.t) (a : Agent) :
  Base.interrupted (Undo.base (self (Undo_step s a)))
  = Base.interrupted (Undo.base s).
Proof. unfold Undo_step. repeat branch; reflexivity. Qed.

Lemma Spawn_step_interrupted (s : Spawn.t) (a : Agent) :
  Base.interrupted (Spawn.base (self (Spawn_step s a)))
  = Base.interrupted (Spawn.base s).
Proof.
  unfold Spawn_step. destruct (_ <? _); [reflexivity|].
  destruct (Spawn.pos s) as [[x y] z].
  destruct (MOBS_BY_ID _); reflexivity.
Qed.

Lemma Dig_step_interrupted (s : Dig.t) (a : Agent) :
  Base.interrupted (Dig.base (self (Dig_step s a)))
  = Base.interrupted (Dig.base s).
Proof.
  unfold Dig_step. destruct (Dig.origin s) as [[mx My] mz].
  cbn [get_blocks shape]. destruct (Z.to_nat _); [reflexivity|].
  destruct (Destroy_init _ _ _); reflexivity.
Qed.

Lemma Loop_step_interrupted (s : Loop.t) (a : Agent) :
  Base.interrupted (Loop.base (self (Loop_step s a)))
  = Base.interrupted (Loop.base s).
Proof.
  unfold Loop_step. destruct (stop_condition_check _ _ _ _) as [h stop].
  destruct stop; [reflexivity|].
  destruct (new_tasks_fn _ _ _ _); reflexivity.
Qed.

(** C9, amended.  [interrupt] sets the interrupted flag and nothing
    else: the task it returns differs from the one it was given in the
    flag only.  The step of Dance, Move, Build and Destroy leaves the flag
    false; the step of Fill, Undo, Spawn, Dig and Loop leaves the flag as
    it found it. *)
Theorem interrupt_then_step (t : Task) (a : Agent) :
  Base.interrupted (Task_base (interrupt t)) = true /\
  (forall v, Task_set_base v (interrupt t) = Task_set_base v t) /\
  (forall b, Base.set_interrupted b (Task_base (interrupt t))
             = Base.set_interrupted b (Task_base t)) /\
  Base.interrupted (Task_base (self (Task_step t a)))
  = if clears_interrupted t then false else Base.interrupted (Task_base t).
Proof.
  split; [destruct t; reflexivity|].
  split; [intros v; destruct t; reflexivity|].
  split; [intros b; destruct t; reflexivity|].
  destruct t as [s|s|s|s|s|s|s|s|s]; cbn [Task_step lift self Task_base
                                           clears_interrupted].
  - apply Dance_step_interrupted.
  - apply Move_step_interrupted.
  - apply Build_step_frame.
  - apply Fill_step_interrupted.
  - apply Destroy_step_interrupted.
  - apply Undo_step_interrupted.
  - apply Spawn_step_interrupted.
  - apply Dig_step_interrupted.
  - apply Loop_step_interrupted.
Qed.
End Interrupt.

(** C9 as stated fails on Loop: an interrupted Loop whose stop condition
    is false is still interrupted after its step. *)
Lemma Loop_step_leaves_flag_set :
  ~ step_clears_flag Examples.looping Examples.inside.
Proof. unfold step_clears_flag. vm_compute. discriminate. Qed.

(** ** Task.check_finished *)

(** With the end time present, [check_finished] of a finished task with a
    memory record returns true and stamps the record. *)
Lemma Task_check_finished_stamps (s : Base.t) (bm : BlockMemory) (t : Z) :
  Base.finished s = true ->
  Base.block_memory s = Some bm ->
  Base.end_time s = Some t ->
  let '(s', r) := Task_check_finished s in
  r = Ok true /\
  Base.block_memory s' = Some (mkBlockMemory (Some t)) /\
  Base.finished s' = true.
Proof.
  intros Hf Hb He. unfold Task_check_finished. rewrite Hf, Hb, He.
  cbn. rewrite Hf. auto.
Qed.

(** An unfinished task is reported as such and its record is left
    alone. *)
Lemma Task_check_finished_unfinished (s : Base.t) :
  Base.finished s = false -> Task_check_finished s = (s, Ok false).
Proof. intros Hf. unfold Task_check_finished. now rewrite Hf. Qed.

(** C8.  No constructor of the module assigns [end_time].  On a task as
    [Task.__init__] leaves it, once the finished flag is set and a memory
    record is attached, [check_finished] raises on [self.end_time]: it
    neither returns true nor stamps the record. *)
Theorem Task_check_finished_without_end_time (f : option Handle)
        (bm : BlockMemory) :
  let s := Base.set_block_memory (Some bm)
             (Base.set_finished true (Task_init f)) in
  Base.finished s = true /\
  Base.block_memory s = Some bm /\
  Task_check_finished s = (s, Raise AttributeError).
Proof. cbn. auto. Qed.

(** ** Build.undo *)

Section BuildUndo.
Context {C : Collaborators}.



End BuildUndo.


(** ** Fill: where its Build child digs and places *)

Section FillChild.
Context {C : Collaborators}.

Lemma last_block_at_In (blocks : list Block) (p : XYZ) (idm : IDM) :
  last_block_at blocks p = Some idm -> In p (strip_idmeta blocks).
Proof.
  revert idm. induction blocks as [|[q i] t IH]; intros idm; simpl;
    [discriminate|].
  destruct (last_block_at t p) as [later|].
  - intros _. right. now apply (IH later).
  - unfold xyz_eqb. destruct (bool_decide_reflect (q = p)); [|discriminate].
    intros _. now left.
Qed.

(** The substitution map leaves "no block" alone when 0 is not one of its
    keys. *)
Lemma replace_map_keeps_air (M : list (Z * IDM)) (g : Grid IDM) (c : Idx) :
  ~ In 0 (map fst M) ->
  fst (cell g c) = 0 ->
  fst (cell (fold_left (fun g '(bad, good) => grid_replace bad good g) M g) c) = 0.
Proof.
  revert g. induction M as [|[bad good] t IH]; intros g Hk Hc; simpl;
    [assumption|].
  apply IH; [intros H; apply Hk; now right|]. simpl.
  destruct (fst (cell g c) =? bad) eqn:E; [|assumption].
  apply Z.eqb_eq in E. exfalso. apply Hk. left. simpl. congruence.
Qed.

Lemma strip_constant (L : list XYZ) (idm : IDM) :
  strip_idmeta (map (fun p => (p, idm)) L) = L.
Proof. unfold strip_idmeta. rewrite map_map. apply map_id. Qed.

(** What the step of Fill does. *)
Lemma Fill_step_pushes (s : Fill.t) (a : Agent) :
  ~ In 0 (map fst BUILD_BLOCK_REPLACE_MAP) ->
  let r := Fill_step s a in
  world (agent r) = world a /\
  acts (agent r) = acts a /\
  chats (agent r) = chats a /\
  ((raised r <> None /\ task_stack (agent r) = task_stack a) \/
   (raised r = None /\
    Base.finished (Fill.base (self r)) = true /\
    exists b, task_stack (agent r) = (TBuild b, None) :: task_stack a /\
              Fill.build_task (self r) = Some b /\
              confined (Fill.schematic s) b)).
Proof.
  intros Hk. unfold Fill_step.
  destruct (np_min_axis0 (Fill.schematic s)) as [[[mx my] mz]|] eqn:Emin;
    [|cbn; repeat split; auto].
  unfold Build_init.
  cbn [Build.d_blocks_list Build.d_embed Build.d_force Build.d_origin
       Build.d_verbose Build.d_fill_message Build.d_schematic_memid
       Build.d_schematic_tags default negb andb].
  unfold blocks_list_to_npy. rewrite strip_constant, Emin.
  destruct (np_max_axis0 (Fill.schematic s)) as [[[Mx My] Mz]|] eqn:Emax;
    [|cbn; repeat split; auto].
  cbn. repeat split; auto. right. repeat split; auto.
  eexists. split; [reflexivity|]. split; [reflexivity|].
  split; [reflexivity|]. cbn [Build.origin Build.schematic].
  intros origin [[y z] x] Ho Hc. inversion Ho; subst origin.
  cbn [to_xyz xyz_add].
  destruct (last_block_at (map (fun p => (p, Fill.block_idm s)) (Fill.schematic s))
                          (x + mx, y + my, z + mz)) as [idm|] eqn:El.
  - apply last_block_at_In in El. now rewrite strip_constant in El.
  - exfalso. apply Hc. apply replace_map_keeps_air; [assumption|].
    cbn [cell]. now rewrite El.
Qed.
(** The primitive calls of a step, newest first, in front of those made
    before. *)
Lemma grows_nil (L : list XYZ) (base : list Action) :
  exists new, base = new ++ base /\ Forall (within L) new.
Proof. exists []. split; [reflexivity|constructor]. Qed.

Lemma grows_cons (L : list XYZ) (x : Action) (rest base : list Action) :
  within L x ->
  (exists new, rest = new ++ base /\ Forall (within L) new) ->
  exists new, x :: rest = new ++ base /\ Forall (within L) new.
Proof.
  intros Hx (new & -> & Hnew). exists (x :: new).
  split; [reflexivity|now constructor].
Qed.

Lemma only_within_refl (L : list XYZ) (a : Agent) : only_within L a a.
Proof. split; [apply grows_nil|reflexivity]. Qed.

Lemma only_within_trans (L : list XYZ) (a b c : Agent) :
  only_within L a b -> only_within L b c -> only_within L a c.
Proof.
  intros [(n1 & E1 & H1) S1] [(n2 & E2 & H2) S2]. split; [|congruence].
  exists (n2 ++ n1). rewrite E2, E1, app_assoc. split; [reflexivity|].
  apply Forall_app. auto.
Qed.

Lemma only_within_act (L : list XYZ) (a : Agent) (w : World) (x : Action) :
  within L x -> only_within L a (act w x a).
Proof.
  intros Hx. split; [|reflexivity]. cbn.
  apply grows_cons; [assumption|apply grows_nil].
Qed.

Lemma only_within_memory (L : list XYZ) (a : Agent) (m : Memory) :
  only_within L a (set_memory m a).
Proof. split; [apply grows_nil|reflexivity]. Qed.

Lemma only_within_chat (L : list XYZ) (a : Agent) (msg : string) :
  only_within L a (send_chat msg a).
Proof. split; [apply grows_nil|reflexivity]. Qed.

Lemma Build_finish_agent (L : list XYZ) (s : Build.t) (a : Agent) :
  only_within L a (agent (Build_finish s a)).
Proof.
  unfold Build_finish.
  destruct (Build.origin s); [|apply only_within_refl].
  destruct (npy_to_blocks_list _ _) as [|[xyz ?] ?]; [apply only_within_refl|].
  destruct (get_block_object_ids_by_xyz _ _); [apply only_within_refl|].
  cbn [agent returns].
  destruct (Build.verbose s), (Build.fill_message s);
    repeat (eapply only_within_trans; [|apply only_within_chat]);
    apply only_within_memory.
Qed.

Lemma Build_step_any_dir_agent (L : list XYZ) (s : Build.t) (a : Agent) :
  only_within L a (agent (Build_step_any_dir s a)).
Proof.
  unfold Build_step_any_dir. destruct (agent_pos (world a)) as [[px py] pz].
  destruct (List.find _ _) as [[? fn]|]; cbn [agent returns raises].
  - now apply only_within_act.
  - apply only_within_refl.
Qed.

Lemma Build_place_agent (L : list XYZ) (s : Build.t) (a : Agent) (yzx : Idx)
      (idm current_idm : IDM) (target : XYZ) :
  In target L ->
  only_within L a (agent (Build_place s a yzx idm current_idm target)).
Proof.
  intros Ht. unfold Build_place.
  destruct (negb (negb _)); [apply only_within_refl|].
  set (a1 := if negb (fst current_idm =? 0) then agent_dig target a else a).
  assert (H1 : only_within L a a1).
  { unfold a1. destruct (negb _); [now apply only_within_act|].
    apply only_within_refl. }
  assert (Htail : forall (c : bool) (s1 s2 : Build.t) (msg : string) (a0 : Agent),
            only_within L a a0 ->
            only_within L a (agent (if c then returns s1 (send_chat msg a0)
                                    else returns s2 a0))).
  { intros c s1 s2 msg a0 H0. destruct c; cbn [agent returns]; [|exact H0].
    eapply only_within_trans; [exact H0|apply only_within_chat]. }
  destruct (negb (fst idm =? 0)); [|now apply Htail].
  destruct target as [[x y] z]. unfold agent_place_block.
  destruct (place_block _ _) as [w placed].
  assert (H2 : only_within L a (act w (APlace (x, y, z))
                                    (agent_set_held_item idm a1))).
  { eapply only_within_trans; [exact H1|].
    eapply only_within_trans; [|now apply only_within_act].
    now apply only_within_act. }
  destruct placed; [|now apply Htail].
  destruct (fst (cell (get_blocks _ x x y y z z) (0, 0, 0)) =? fst idm);
    apply Htail; [|exact H2].
  eapply only_within_trans; [exact H2|apply only_within_memory].
Qed.

Lemma Destroy_init_Ok (a : Agent) (blocks : list Block) (dm : option bool)
      (f : option Handle) (d : Destroy.t) :
  Destroy_init a (Destroy.mkData blocks dm) f = Ok d ->
  Destroy.schematic d = blocks /\
  Destroy.xyz_remaining d = list_to_set (strip_idmeta blocks).
Proof.
  unfold Destroy_init. cbn [Destroy.d_schematic Destroy.d_dig_message].
  destruct (elements _); [discriminate|]. intros E. inversion E. auto.
Qed.

(** A step of a confined Build digs and places at listed coordinates
    only, and what it pushes is aimed at listed coordinates. *)
Lemma Build_step_within (L : list XYZ) (b : Build.t) (a : Agent) :
  confined L b ->
  let r := Build_step b a in
  (exists new, acts (agent r) = new ++ acts a /\ Forall (within L) new) /\
  (exists pushed, task_stack (agent r) = pushed ++ task_stack a /\
                  (List.length pushed <= 1)%nat /\
                  Forall (fun tp => aimed_within L (fst tp)) pushed).
Proof.
  intros [Hembed Hconf].
  assert (Hstay : forall a' : Agent,
            only_within L a a' ->
            (exists new, acts a' = new ++ acts a /\ Forall (within L) new) /\
            (exists pushed, task_stack a' = pushed ++ task_stack a /\
                            (List.length pushed <= 1)%nat /\
                            Forall (fun tp => aimed_within L (fst tp)) pushed)).
  { intros a' [Hacts Hstack]. split; [exact Hacts|].
    exists []. rewrite Hstack. repeat split; [simpl; lia|constructor]. }
  assert (Hpush : forall (t : Task) (parent : option MemId),
            aimed_within L t ->
            (exists new, acts (task_stack_push t parent a) = new ++ acts a /\
                         Forall (within L) new) /\
            (exists pushed, task_stack (task_stack_push t parent a)
                            = pushed ++ task_stack a /\
                            (List.length pushed <= 1)%nat /\
                            Forall (fun tp => aimed_within L (fst tp)) pushed)).
  { intros t parent Haim. split; [apply grows_nil|].
    exists [(t, parent)]. split; [reflexivity|]. split; [simpl; lia|].
    constructor; [exact Haim|constructor]. }
  destruct (Build.origin b) as [origin|] eqn:Ho.
  2:{ unfold Build_step. cbn [Build.origin Build.set_base]. rewrite Ho.
      apply Hstay, only_within_refl. }
  assert (Hmasked : forall c,
            Build_diff b (Build_current b origin a) c = true ->
            In (xyz_add (to_xyz c) origin) L).
  { intros c Hd. apply Build_diff_true in Hd as (_ & _ & Hsch).
    apply Hconf; auto. }
  rewrite (Build_step_entered b a origin Ho). cbv zeta.
  destruct (Build_entered_same b origin a) as (Hs & _).
  rewrite Build_diff_entered_eq, Build_get_next_target_entered, Hs.
  set (s1 := Build_entered b origin a).
  destruct (negb _); [apply Hstay, Build_finish_agent|].
  destruct (map _ _) as [|x xs] eqn:Exyzs.
  - destruct (Build_get_next_target _ _ _ _) as [yzx|e] eqn:Et;
      [|apply Hstay, only_within_refl].
    apply Build_get_next_target_masked in Et as [_ Hd].
    destruct (_ || _); [apply Hstay, Build_step_any_dir_agent|].
    destruct (_ <=? _).
    + apply Hstay, Build_place_agent. now apply Hmasked.
    + cbn [agent returns]. apply Hpush. cbn. unfold to_block_pos.
      now apply Hmasked.
  - destruct (Destroy_init _ _ _) as [d|e] eqn:Ed;
      [|apply Hstay, only_within_refl].
    cbn [agent returns]. apply Hpush. cbn. intros p Hp.
    apply Destroy_init_Ok in Ed as [_ Hrem]. rewrite Hrem in Hp.
    rewrite strip_fill_idmeta, <- Exyzs in Hp.
    apply elem_of_list_to_set, list_elem_of_In, in_map_iff in Hp
      as (c & <- & Hc).
    apply in_argwhere in Hc as [_ Hc]. apply andb_prop in Hc as [Hc _].
    now apply Hmasked.
Qed.

(** Every state of the child of a Fill is confined to the list. *)
Lemma Fill_child_confined (s : Fill.t) (a : Agent) (b : Build.t) :
  ~ In 0 (map fst BUILD_BLOCK_REPLACE_MAP) ->
  Fill_child s a b -> confined (Fill.schematic s) b.
Proof.
  intros Hk. induction 1 as [b Hb|b a' Hb IH|b v Hb IH].
  - destruct (Fill_step_pushes s a Hk) as (_ & _ & _ & [[_ E]|(_ & _ & b' & E & _ & Hc)]).
    + rewrite E in Hb. exfalso.
      apply (f_equal (@List.length _)) in Hb. simpl in Hb. lia.
    + rewrite E in Hb. inversion Hb; subst. exact Hc.
  - destruct IH as [He Hc].
    destruct (Build_step_frame b a') as (Hs & Ho & Hem & _).
    split; [congruence|]. intros origin c. rewrite Hs, Ho. apply Hc.
  - exact IH.
Qed.

(** A step of Destroy digs at most one cell, one of its remaining set,
    and only takes cells out of that set. *)
Lemma Destroy_step_within (L : list XYZ) (d : Destroy.t) (a : Agent) :
  (forall p, p ∈ Destroy.xyz_remaining d -> In p L) ->
  let r := Destroy_step d a in
  (exists new, acts (agent r) = new ++ acts a /\ Forall (within L) new) /\
  (forall p, p ∈ Destroy.xyz_remaining (self r) -> In p L).
Proof.
  intros HL. unfold Destroy_step, Destroy_set_base, Destroy_set_xyz_remaining.
  cbn [Destroy.xyz_remaining Destroy.dig_message Destroy.base].
  destruct (_ =? _)%nat.
  { destruct (Destroy.dig_message d); cbn; split; auto using grows_nil. }
  destruct (Destroy_get_target _ _) as [target|] eqn:Et;
    [|cbn; split; auto using grows_nil].
  assert (Hin : target ∈ Destroy.xyz_remaining d).
  { unfold Destroy_get_target in Et. apply find_some in Et as [Hin _].
    cbn [Destroy.xyz_remaining] in Hin.
    now apply (Destroy_candidates d) in Hin. }
  destruct (_ <=? _); cbn.
  - split.
    + apply grows_cons; [now apply HL|apply grows_nil].
    + intros p Hp. apply HL. apply elem_of_difference in Hp. tauto.
  - split; auto using grows_nil.
Qed.
(** The step of Fill raises exactly on the empty coordinate list. *)
Lemma Fill_step_raises_iff_empty (s : Fill.t) (a : Agent) :
  (Fill.schematic s = [] ->
   Fill_step s a = raises ValueError s a) /\
  (Fill.schematic s <> [] -> raised (Fill_step s a) = None).
Proof.
  unfold Fill_step. destruct (Fill.schematic s) as [|p t] eqn:Es.
  - split; [reflexivity|congruence].
  - split; [discriminate|]. intros _. rewrite <- Es.
    assert (Hmin : np_min_axis0 (Fill.schematic s) <> None)
      by (rewrite Es; discriminate).
    destruct (np_min_axis0 (Fill.schematic s)) as [[[mx my] mz]|] eqn:Emin;
      [clear Hmin|congruence].
    unfold Build_init.
    cbn [Build.d_blocks_list Build.d_embed Build.d_force Build.d_origin
         Build.d_verbose Build.d_fill_message Build.d_schematic_memid
         Build.d_schematic_tags default negb andb].
    unfold blocks_list_to_npy. rewrite strip_constant, Emin.
    assert (Hmax : np_max_axis0 (Fill.schematic s) <> None)
      by (rewrite Es; discriminate).
    destruct (np_max_axis0 (Fill.schematic s)) as [[[Mx My] Mz]|];
      [reflexivity|congruence].
Qed.

(** C5, amended.  The substitution map of the block tables does not
    replace "no block" (0 is not one of its keys).  Then, for any
    coordinate list and fill block: the step of Fill calls no primitive on
    the world; on the empty list it raises ValueError, pushes nothing and
    leaves the task as it was; on every other list it returns, has
    finished and has pushed one Build child that embeds.  In every state
    of that child and against any agent, every cell of the diff mask is a
    listed coordinate, the child's step
    digs and places at listed coordinates only, and the one task it may
    push is a Destroy over listed coordinates or a Move to a listed
    coordinate.  A Destroy whose remaining cells are listed digs listed
    coordinates only and keeps its remaining cells listed.  (What a Move
    child clears on its way is not covered.) *)
Theorem Fill_child_stays_in_list (s : Fill.t) (a : Agent) :
  ~ In 0 (map fst BUILD_BLOCK_REPLACE_MAP) ->
  let L := Fill.schematic s in
  let r := Fill_step s a in
  (world (agent r) = world a /\ acts (agent r) = acts a) /\
  (L = [] ->
   raised r = Some ValueError /\ self r = s /\
   task_stack (agent r) = task_stack a) /\
  (L <> [] ->
   raised r = None /\
   Base.finished (Fill.base (self r)) = true /\
   exists b, task_stack (agent r) = (TBuild b, None) :: task_stack a /\
             Fill.build_task (self r) = Some b /\
             Build.embed b = true) /\
  (forall b a',
     Fill_child s a b ->
     Build.embed b = true /\
     (forall origin c,
        Build.origin b = Some origin ->
        Build_diff b (Build_current b origin a') c = true ->
        In (xyz_add (to_xyz c) origin) L) /\
     (exists new, acts (agent (Build_step b a')) = new ++ acts a' /\
                  Forall (within L) new) /\
     (exists pushed, task_stack (agent (Build_step b a')) = pushed ++ task_stack a' /\
                     (List.length pushed <= 1)%nat /\
                     Forall (fun tp => aimed_within L (fst tp)) pushed)) /\
  (forall d a',
     (forall p, p ∈ Destroy.xyz_remaining d -> In p L) ->
     (exists new, acts (agent (Destroy_step d a')) = new ++ acts a' /\
                  Forall (within L) new) /\
     (forall p, p ∈ Destroy.xyz_remaining (self (Destroy_step d a')) -> In p L)).
Proof.
  intros Hk L r.
  destruct (Fill_step_pushes s a Hk) as (Hw & Ha & _ & Hr). fold r in Hw, Ha, Hr.
  destruct (Fill_step_raises_iff_empty s a) as [Hempty Hfull].
  split; [auto|]. split; [|split; [|split]].
  - intros HL. unfold r. rewrite (Hempty HL). cbn. auto.
  - intros HL. pose proof (Hfull HL) as Hnone. fold r in Hnone.
    destruct Hr as [[Hraised _]|(_ & Hf & b & Hst & Hbt & Hc)];
      [contradiction|].
    split; [exact Hnone|]. split; [exact Hf|].
    exists b. repeat split; auto. apply Hc.
  - intros b a' Hchild.
    pose proof (Fill_child_confined s a b Hk Hchild) as Hc.
    split; [apply Hc|]. split.
    + intros origin c Ho Hd. apply Build_diff_true in Hd as (_ & _ & Hsch).
      apply Hc; auto. apply Hsch, Hc.
    + now apply Build_step_within.
  - intros d a' HL. now apply Destroy_step_within.
Qed.
End FillChild.

(** In the example Fill lists two cells beside the agent: the child it
    pushes embeds, and the child's first step places at a listed cell. *)
Lemma Fill_child_stays_in_list_witness :
  let s := Examples.near_fill in
  let a := Examples.beside in
  let r := Fill_step s a in
  acts (agent r) = [] /\
  raised r = None /\
  exists b,
    task_stack (agent r) = [(TBuild b, None)] /\
    Build.embed b = true /\
    exists new, acts (agent (Build_step b (agent r))) = new ++ [] /\
                Forall (within [(0, 64, 0); (1, 64, 0)]) new.
Proof.
  intros s a r.
  assert (Hk : ~ In 0 (map fst (BUILD_BLOCK_REPLACE_MAP (Collaborators := Demo.collaborators))))
    by (simpl; intuition discriminate).
  destruct (Fill_child_stays_in_list s a Hk) as ((_ & Hacts) & _ & Hpush & Hchild & _).
  split; [exact Hacts|].
  assert (Hne : Fill.schematic s <> []) by discriminate.
  destruct (Hpush Hne) as (Hr & _ & b & Hst & _ & Hembed).
  split; [exact Hr|].
  exists b. split; [exact Hst|]. split; [exact Hembed|].
  apply (Hchild b (agent r)). apply child_pushed. exact Hst.
Defined.

(** C5 as stated fails on the way to the cell: Fill lists one far cell,
    its Build child pushes a Move towards it, and the Move, finding no
    path, digs the stone block in front of the agent, which is not in the
    list. *)
Lemma Fill_move_child_digs_outside :
  ~ Fill_run_within Examples.far_fill Examples.behind_wall.
Proof.
  intros H. specialize (H eq_refl). vm_compute in H.
  inversion H as [|? ? _ H']. inversion H' as [|? ? Hd _].
  destruct Hd as [E|[]]. discriminate.
Qed.

(** * Further properties of the task methods *)

(** ** Loop *)

Section LoopSteps.
Context {C : Collaborators}.

Lemma push_all_stack (parent : option MemId) (tasks : list Task) (a : Agent) :
  let a' := fold_left (fun a t => task_stack_push t parent a) tasks a in
  task_stack a' = rev (map (fun t => (t, parent)) tasks) ++ task_stack a /\
  world a' = world a /\ memory a' = memory a /\ heap a' = heap a /\
  chats a' = chats a /\ acts a' = acts a.
Proof.
  revert a. induction tasks as [|t ts IH]; intros a; simpl; [auto 10|].
  destruct (IH (task_stack_push t parent a)) as (H1 & H2 & H3 & H4 & H5 & H6).
  rewrite H1, H2, H3, H4, H5, H6. simpl. rewrite <- app_assoc. auto 10.
Qed.

(** X1.  What a step of Loop adds to its two injected calls.  The stop
    condition's [check()] and the factory [new_tasks_fn()] are taken as
    calls that return and keep to their own state; given what they
    return, the step itself calls no primitive, writes nothing to the
    world or the memory and sends no chat.  When the check holds it sets
    the finished flag and pushes nothing, and the factory is not called.
    When it does not hold the task itself is left as it was, whatever
    the factory returns (also nothing), and every task the factory returns
    is pushed under the Loop's memid, the last one returned on top. *)
Theorem Loop_step_pushes_until_stopped (s : Loop.t) (a : Agent) :
  let r := Loop_step s a in
  let check := stop_condition_check (heap a) (world a) (memory a)
                                    (Loop.stop_condition s) in
  let made := new_tasks_fn (fst check) (world a) (memory a) (Loop.new_tasks_fn s) in
  raised r = None /\
  world (agent r) = world a /\
  memory (agent r) = memory a /\
  acts (agent r) = acts a /\
  chats (agent r) = chats a /\
  if snd check then
    Base.finished (Loop.base (self r)) = true /\
    Loop.new_tasks_fn (self r) = Loop.new_tasks_fn s /\
    Loop.stop_condition (self r) = Loop.stop_condition s /\
    task_stack (agent r) = task_stack a /\
    heap (agent r) = fst check
  else
    self r = s /\
    task_stack (agent r)
    = rev (map (fun t => (t, Base.memid (Loop.base s))) (snd made))
      ++ task_stack a /\
    heap (agent r) = fst made.
Proof.
  unfold Loop_step. cbv zeta.
  destruct (stop_condition_check _ _ _ _) as [h stop]. cbn [fst snd].
  destruct stop; [cbn; auto 10|].
  destruct (new_tasks_fn _ _ _ _) as [h' tasks]. cbn [fst snd self agent returns raised].
  destruct (push_all_stack (Base.memid (Loop.base s)) tasks (set_heap h' (set_heap h a)))
    as (H1 & H2 & H3 & H4 & H5 & H6).
  rewrite H1, H2, H3, H4, H5, H6. cbn. auto 10.
Qed.
End LoopSteps.

(** ** Destroy *)

Section DestroySteps.
Context {C : Collaborators}.

Lemma find_first {A : Type} (f : A -> bool) (l : list A) (c : A) :
  List.find f l = Some c ->
  exists l1 l2, l = l1 ++ c :: l2 /\ f c = true /\
                forall x, In x l1 -> f x = false.
Proof.
  induction l as [|h t IH]; simpl; [discriminate|].
  destruct (f h) eqn:E.
  - intros H. inversion H; subst. exists [], t. simpl. intuition.
  - intros H. destruct (IH H) as (l1 & l2 & -> & Hc & Hl1).
    exists (h :: l1), l2. simpl. split; [reflexivity|]. split; [assumption|].
    intros x [<-|Hx]; auto.
Qed.

Lemma StronglySorted_after {A : Type} (R : A -> A -> Prop) (l1 l2 : list A)
      (c : A) :
  StronglySorted R (l1 ++ c :: l2) -> forall x, In x l2 -> R c x.
Proof.
  induction l1 as [|h t IH]; simpl; intros H x Hx.
  - inversion H as [|? ? _ Hall]; subst.
    rewrite List.Forall_forall in Hall. auto.
  - inversion H; subst. eauto.
Qed.

Lemma Destroy_get_target_remaining (s : Destroy.t) (a : Agent) (c : XYZ) :
  Destroy_get_target s a = Some c -> c ∈ Destroy.xyz_remaining s.
Proof.
  unfold Destroy_get_target. intros E. apply find_some in E as [Hin _].
  apply (Destroy_candidates s (agent_pos (world a)) c). exact Hin.
Qed.

(** X2.  The target of a Destroy is the nearest reachable cell: when
    [get_target] returns a cell it is a remaining cell that the path
    finder reaches, and no reachable remaining cell is nearer to the agent
    (Manhattan distance); it returns nothing exactly when the path finder
    reaches no remaining cell. *)
Theorem Destroy_get_target_nearest_reachable (s : Destroy.t) (a : Agent) :
  let p := agent_pos (world a) in
  match Destroy_get_target s a with
  | Some c =>
      c ∈ Destroy.xyz_remaining s /\
      astar (world a) c 2 <> None /\
      forall d, d ∈ Destroy.xyz_remaining s -> astar (world a) d 2 <> None ->
                manhat_dist p c <= manhat_dist p d
  | None =>
      forall d, d ∈ Destroy.xyz_remaining s -> astar (world a) d 2 = None
  end.
Proof.
  intros p. unfold Destroy_get_target. fold p.
  set (reach := fun c => match astar (world a) c 2 with
                         | Some _ => true | None => false end).
  pose proof (Destroy_candidates_ascending s p) as Hsorted.
  destruct (List.find reach _) as [c|] eqn:E.
  - apply find_first in E as (l1 & l2 & El & Hc & Hl1).
    assert (Hin : forall d, d ∈ Destroy.xyz_remaining s <-> In d (l1 ++ c :: l2)).
    { intros d. rewrite <- El. symmetry. apply Destroy_candidates. }
    split; [apply Hin, in_elt|]. split.
    + unfold reach in Hc. destruct (astar (world a) c 2); [discriminate|discriminate].
    + intros d Hd Hreach. apply Hin in Hd. rewrite El in Hsorted.
      apply in_app_or in Hd as [Hd|[<-|Hd]].
      * apply Hl1 in Hd. unfold reach in Hd.
        destruct (astar (world a) d 2); [discriminate|contradiction].
      * lia.
      * apply (StronglySorted_after _ _ _ _ Hsorted d Hd).
  - intros d Hd. apply Destroy_candidates with (p := p) in Hd.
    pose proof (find_none _ _ E d Hd) as Hn. unfold reach in Hn.
    destruct (astar (world a) d 2); [discriminate|reflexivity].
Qed.

(** X3.  The constructor of Destroy raises exactly on an empty blocks
    list (there is no first cell to look up).  Otherwise the task starts
    unfinished with the coordinates of the list as its remaining set, and
    the triples it keeps for [undo] are either none or all those of one
    block object: the object the memory has at a cell of the remaining
    set, whose blocks lie wholly inside that set; the triples kept are
    then exactly that object's [has_tag], [has_name] and [has_colour]
    triples, in that order. *)
Theorem Destroy_init_needs_a_cell (a : Agent) (d : Destroy.data)
        (f : option Handle) :
  match Destroy_init a d f with
  | Raise e => e = StopIteration /\ Destroy.d_schematic d = []
  | Ok s =>
      Destroy.d_schematic d <> [] /\
      Destroy.base s = Task_init f /\
      Destroy.schematic s = Destroy.d_schematic d /\
      Destroy.xyz_remaining s = list_to_set (strip_idmeta (Destroy.d_schematic d)) /\
      (Destroy.dig_message s = true <-> Destroy.d_dig_message d <> None) /\
      (Destroy.destroyed_block_object_triples s = [] \/
       exists first mem,
         first ∈ Destroy.xyz_remaining s /\
         get_block_object_by_xyz (memory a) first = Some mem /\
         (forall xyz, In xyz (bo_blocks mem) -> xyz ∈ Destroy.xyz_remaining s) /\
         Destroy.destroyed_block_object_triples s
         = get_triples (memory a) (Some (bo_memid mem)) (Some "has_tag"%string) None
           ++ get_triples (memory a) (Some (bo_memid mem)) (Some "has_name"%string) None
           ++ get_triples (memory a) (Some (bo_memid mem)) (Some "has_colour"%string) None)
  end.
Proof.
  unfold Destroy_init.
  destruct (elements _) as [|first rest] eqn:E.
  - split; [reflexivity|]. apply elements_empty_inv, leibniz_equiv in E.
    destruct (Destroy.d_schematic d) as [|[p idm] t]; [reflexivity|].
    exfalso. assert (H : p ∈ (∅ : gset XYZ)) by (rewrite <- E; simpl; set_solver).
    set_solver.
  - cbn [Destroy.base Destroy.schematic Destroy.xyz_remaining
         Destroy.dig_message Destroy.destroyed_block_object_triples].
    split.
    { intros Hnil. rewrite Hnil in E. simpl in E.
      rewrite elements_empty in E. discriminate. }
    split; [reflexivity|]. split; [reflexivity|]. split; [reflexivity|]. split.
    { destruct (Destroy.d_dig_message d); split; congruence. }
    destruct (get_block_object_by_xyz (memory a) first) as [mem|] eqn:Em;
      [|now left].
    destruct (forallb _ (bo_blocks mem)) eqn:Eall; [|now left].
    right. exists first, mem. split.
    { apply elem_of_elements. rewrite E. apply list_elem_of_In. now left. }
    split; [exact Em|]. split.
    { intros xyz Hx. rewrite forallb_forall in Eall.
      apply Eall in Hx. now apply bool_decide_eq_true in Hx. }
    cbn [flat_map]. now rewrite app_nil_r.
Qed.

Lemma Destroy_get_target_none (s : Destroy.t) (a : Agent) :
  Destroy_get_target s a = None ->
  forall d, d ∈ Destroy.xyz_remaining s -> astar (world a) d 2 = None.
Proof.
  unfold Destroy_get_target. intros E d Hd.
  apply (Destroy_candidates s (agent_pos (world a)) d) in Hd.
  pose proof (find_none _ _ E d Hd) as Hn. cbn beta in Hn.
  destruct (astar (world a) d 2); [discriminate|reflexivity].
Qed.

Lemma Destroy_get_target_reachable (s : Destroy.t) (a : Agent) (c : XYZ) :
  Destroy_get_target s a = Some c -> astar (world a) c 2 <> None.
Proof.
  unfold Destroy_get_target. intros E. apply find_some in E as [_ Hc].
  destruct (astar (world a) c 2); [discriminate|discriminate].
Qed.

(** X4.  Every step of a Destroy returns without an exception, leaves the
    blocks list alone and does exactly one of four things.  When nothing
    remains it finishes, with the digging notice if the task has the dig
    message and no chat otherwise.  When cells remain but the path finder
    reaches none of them it finishes with the giving-up notice.  In both
    cases the world, the remaining set and the task stack are untouched.
    Otherwise [get_target] has returned a reachable remaining cell, and
    the step either digs exactly that cell, which is within reach 3, and
    takes it out of the remaining set, which gets one smaller; or, the
    cell being farther than 3, pushes one Move towards it with radius 3
    and touches nothing else. *)
Theorem Destroy_step_progress (s : Destroy.t) (a : Agent) :
  let r := Destroy_step s a in
  let p := agent_pos (world a) in
  raised r = None /\
  Destroy.schematic (self r) = Destroy.schematic s /\
  ((Destroy.xyz_remaining s = ∅ /\
    Base.finished (Destroy.base (self r)) = true /\
    Destroy.xyz_remaining (self r) = Destroy.xyz_remaining s /\
    world (agent r) = world a /\ acts (agent r) = acts a /\
    task_stack (agent r) = task_stack a /\
    chats (agent r)
    = if Destroy.dig_message s
      then "I finished digging this."%string :: chats a else chats a)
   \/
   (Destroy.xyz_remaining s <> ∅ /\
    (forall d, d ∈ Destroy.xyz_remaining s -> astar (world a) d 2 = None) /\
    Base.finished (Destroy.base (self r)) = true /\
    Destroy.xyz_remaining (self r) = Destroy.xyz_remaining s /\
    world (agent r) = world a /\ acts (agent r) = acts a /\
    task_stack (agent r) = task_stack a /\
    chats (agent r) = "There's no path, so I'm giving up"%string :: chats a)
   \/
   (exists target,
      Destroy_get_target s a = Some target /\
      target ∈ Destroy.xyz_remaining s /\ astar (world a) target 2 <> None /\
      manhat_dist p target <= 3 /\
      acts (agent r) = ADig target :: acts a /\
      world (agent r) = dig (world a) target /\
      Destroy.xyz_remaining (self r) = Destroy.xyz_remaining s ∖ {[ target ]} /\
      size (Destroy.xyz_remaining s) = S (size (Destroy.xyz_remaining (self r))) /\
      Base.finished (Destroy.base (self r)) = Base.finished (Destroy.base s) /\
      task_stack (agent r) = task_stack a /\ chats (agent r) = chats a)
   \/
   (exists target m,
      Destroy_get_target s a = Some target /\
      target ∈ Destroy.xyz_remaining s /\ astar (world a) target 2 <> None /\
      3 < manhat_dist p target /\
      task_stack (agent r) = (TMove m, Base.memid (Destroy.base s)) :: task_stack a /\
      Move.target m = target /\ Move.approx m = 3 /\
      Base.featurizer (Move.base m) = Base.featurizer (Destroy.base s) /\
      Destroy.xyz_remaining (self r) = Destroy.xyz_remaining s /\
      Base.finished (Destroy.base (self r)) = Base.finished (Destroy.base s) /\
      world (agent r) = world a /\ acts (agent r) = acts a /\
      chats (agent r) = chats a)).
Proof.
  intros r p.
  pose proof (Destroy_get_target_remaining s a) as Ht.
  pose proof (Destroy_get_target_reachable s a) as Hreach.
  pose proof (Destroy_get_target_none s a) as Hnone.
  unfold r, Destroy_step, Destroy_set_base, Destroy_set_xyz_remaining.
  cbn [Destroy.xyz_remaining Destroy.dig_message Destroy.base Destroy.schematic].
  destruct (_ =? _)%nat eqn:Elen.
  { apply Nat.eqb_eq, length_zero_iff_nil in Elen.
    apply elements_empty_inv, leibniz_equiv in Elen.
    destruct (Destroy.dig_message s); cbn; split; auto; split; auto; left;
      auto 10. }
  assert (Hne : Destroy.xyz_remaining s <> ∅).
  { intros E. rewrite E, elements_empty in Elen. discriminate. }
  assert (Hsame : Destroy_get_target
                    (Destroy.mk (Base.set_interrupted false (Destroy.base s))
                       (Destroy.schematic s) (Destroy.xyz_remaining s)
                       (Destroy.dig_message s)
                       (Destroy.destroyed_block_object_triples s)) a
                  = Destroy_get_target s a) by reflexivity.
  rewrite Hsame.
  destruct (Destroy_get_target s a) as [target|].
  2:{ cbn. split; auto; split; auto; right; left.
      split; [exact Hne|]. split; [exact (Hnone eq_refl)|]. auto 10. }
  pose proof (Ht target eq_refl) as Hin.
  pose proof (Hreach target eq_refl) as Hr. fold p.
  destruct (manhat_dist p target <=? Destroy.DIG_REACH) eqn:Ereach; cbn.
  - apply Z.leb_le in Ereach. split; auto. split; auto. right. right. left.
    exists target. repeat split; auto.
    rewrite (union_difference_L {[ target ]} (Destroy.xyz_remaining s))
      at 1 by set_solver.
    rewrite size_union by set_solver. now rewrite size_singleton.
  - apply Z.leb_gt in Ereach. split; auto. split; auto. right. right. right.
    exists target. eexists. repeat split; auto.
Qed.
End DestroySteps.

(** ** Build: the branches of a step *)

Section BuildBranches.
Context {C : Collaborators}.

Lemma Build_get_next_target_total (s : Build.t) (a : Agent)
      (current : Grid IDM) (diff : Mask) (origin : XYZ) :
  Build.origin s = Some origin ->
  np_any (shape (Build.schematic s)) diff = true ->
  exists yzx, Build_get_next_target s a current diff = Ok yzx.
Proof.
  intros Ho Hany. unfold Build_get_next_target. rewrite Ho.
  match goal with |- exists _, match ?l with _ => _ end = _ =>
    destruct l as [|first rest] eqn:E end; [|eauto].
  apply (f_equal (@List.length _)) in E. rewrite !sort_by_length in E.
  apply np_any_true in Hany as [c Hc]. apply in_argwhere in Hc.
  destruct (np_argwhere _ _); [destruct Hc|discriminate].
Qed.

(** The three ways a step goes on a task with an origin: the diff is
    empty and the step is [finish]; a masked cell holds a block and the
    step pushes a Destroy over the masked cells that hold one; or no
    masked cell holds a block and the step works on the cell that
    [get_next_target] chose. *)
Lemma Build_step_cases (s : Build.t) (a : Agent) (origin : XYZ) :
  Build.origin s = Some origin ->
  let s1 := Build_entered s origin a in
  let current := Build_current s origin a in
  let diff := Build_diff s current in
  let sh := shape (Build.schematic s) in
  let r := Build_step s a in
  (np_any sh diff = false /\ r = Build_finish s1 a)
  \/
  (np_any sh diff = true /\
   let cells := np_argwhere sh (fun i => diff i && negb (fst (cell current i) =? 0)) in
   let xyzs := map (fun yzx => xyz_add (to_xyz yzx) origin) cells in
   cells <> [] /\
   exists d,
     Destroy_init a (Destroy.mkData (fill_idmeta a xyzs) None) None = Ok d /\
     r = returns s1 (task_stack_push (TDestroy d) (Base.memid (Build.base s1)) a))
  \/
  (np_any sh diff = true /\
   (forall c, In c (ndindex sh) -> diff c = true -> fst (cell current c) = 0) /\
   exists yzx,
     Build_get_next_target s a current diff = Ok yzx /\
     In yzx (ndindex sh) /\ diff yzx = true /\
     let target := xyz_add (to_xyz yzx) origin in
     let pos := agent_pos (world a) in
     r = if xyz_eqb target pos || xyz_eqb target (xyz_add pos (0, 1, 0))
         then Build_step_any_dir s1 a
         else if manhat_dist pos target <=? Build.PLACE_REACH
              then Build_place s1 a yzx (cell (Build.schematic s) yzx)
                               (cell current yzx) target
              else returns s1
                     (task_stack_push
                        (TMove (Move_init (Move.mkData target (Some Build.PLACE_REACH))
                                          (Base.featurizer (Build.base s1))))
                        (Base.memid (Build.base s1)) a)).
Proof.
  intros Ho s1 current diff sh r. unfold r.
  rewrite (Build_step_entered s a origin Ho). cbv zeta.
  destruct (Build_entered_same s origin a) as (Hs & _).
  rewrite Build_diff_entered_eq, Build_get_next_target_entered, Hs.
  fold s1 current diff sh.
  destruct (np_any sh diff) eqn:Hany; cbn [negb]; [|left; auto].
  right.
  destruct (np_argwhere sh (fun i => diff i && negb (fst (cell current i) =? 0)))
    as [|c0 cs] eqn:Ecells.
  - right. split; [reflexivity|]. cbn [map].
    assert (Hclear : forall c, In c (ndindex sh) -> diff c = true ->
                               fst (cell current c) = 0).
    { intros c Hc Hd. destruct (fst (cell current c) =? 0) eqn:E0;
        [now apply Z.eqb_eq|].
      assert (Hin : In c (np_argwhere sh (fun i => diff i
                                            && negb (fst (cell current i) =? 0)))).
      { apply in_argwhere. split; [assumption|]. now rewrite Hd, E0. }
      rewrite Ecells in Hin. destruct Hin. }
    split; [exact Hclear|].
    destruct (Build_get_next_target_total s a current diff origin Ho Hany)
      as [yzx Et].
    exists yzx. rewrite Et.
    destruct (Build_get_next_target_masked _ _ _ _ _ Et) as [Hin Hd]. auto.
  - left. split; [reflexivity|]. split; [discriminate|].
    set (xyzs := map (fun yzx => xyz_add (to_xyz yzx) origin) (c0 :: cs)).
    destruct (Destroy_init_nonempty a (fill_idmeta a xyzs) None None)
      as (d & Ed & _); [discriminate|].
    exists d. split; [exact Ed|]. cbn [map] in *. fold xyzs.
    change (xyz_add (to_xyz c0) origin
            :: map (fun yzx => xyz_add (to_xyz yzx) origin) cs) with xyzs.
    now rewrite Ed.
Qed.
End BuildBranches.

(** ** Build: stepping aside *)

Section StepAside.
Context {C : Collaborators}.

Lemma Build_step_any_dir_find (s : Build.t) (a : Agent) :
  Build_step_any_dir s a =
  match List.find (neighbour_walkable a) step_aside_order with
  | Some d => returns s (agent_step d a)
  | None => raises (PlainException "Can't step in any dir") s a
  end.
Proof.
  unfold Build_step_any_dir, step_aside_order, neighbour_walkable.
  destruct (agent_pos (world a)) as [[px py] pz] eqn:Epos.
  cbn [List.find xyz_add dir_offset get_blocks cell].
  replace (px - 1 + (1 + 0)) with (px + 0) by lia.
  replace (px - 1 + (1 + 1)) with (px + 1) by lia.
  replace (px - 1 + (1 + -1)) with (px + -1) by lia.
  replace (py - 1 + (1 + 0)) with (py + 0) by lia.
  replace (py - 1 + (1 + 0 + 1)) with (py + 0 + 1) by lia.
  replace (py - 1 + (1 + 1)) with (py + 1) by lia.
  replace (py - 1 + (1 + 1 + 1)) with (py + 1 + 1) by lia.
  replace (py - 1 + (1 + -1)) with (py + -1) by lia.
  replace (py - 1 + (1 + -1 + 1)) with (py + -1 + 1) by lia.
  replace (pz - 1 + (1 + 0)) with (pz + 0) by lia.
  replace (pz - 1 + (1 + 1)) with (pz + 1) by lia.
  replace (pz - 1 + (1 + -1)) with (pz + -1) by lia.
  replace (px + 0 + 0) with (px + 0) by lia.
  replace (px + 1 + 0) with (px + 1) by lia.
  replace (px + -1 + 0) with (px + -1) by lia.
  replace (pz + 0 + 0) with (pz + 0) by lia.
  replace (pz + 1 + 0) with (pz + 1) by lia.
  replace (pz + -1 + 0) with (pz + -1) by lia.
  repeat match goal with
         | |- context [if ?b then _ else _] => destruct b
         end; reflexivity.
Qed.

(** X5.  [step_any_dir], in world coordinates: the agent takes the first
    movement primitive, in the order +z, -z, +x, -x, +y, -y, whose
    neighbouring position is walkable (the block there and the block above
    it are passable), and does nothing else; when none of the six
    neighbours is walkable it raises and does nothing at all.  The task
    object is never changed. *)
Theorem Build_step_any_dir_first_walkable (s : Build.t) (a : Agent) :
  let r := Build_step_any_dir s a in
  (exists before d after,
     step_aside_order = before ++ d :: after /\
     neighbour_walkable a d = true /\
     (forall d', In d' before -> neighbour_walkable a d' = false) /\
     r = returns s (agent_step d a))
  \/
  ((forall d, neighbour_walkable a d = false) /\
   r = raises (PlainException "Can't step in any dir") s a).
Proof.
  intros r. unfold r. rewrite Build_step_any_dir_find.
  destruct (List.find _ _) as [d|] eqn:Ef.
  - left. apply find_first in Ef as (l1 & l2 & El & Hd & Hl1).
    exists l1, d, l2. auto.
  - right. split; [|reflexivity]. intros d.
    apply (find_none _ _ Ef). destruct d; cbn; auto 10.
Qed.
End StepAside.

(** ** Build: removing, placing and walking *)

Section BuildWork.
Context {C : Collaborators}.

(** Placing on an empty cell a block the schematic wants. *)
Lemma Build_place_clear (s : Build.t) (a : Agent) (yzx : Idx)
      (idm current_idm : IDM) (target : XYZ) :
  fst current_idm = 0 -> fst idm <> 0 ->
  let w1 := set_held_item (world a) idm in
  let pr := place_block w1 target in
  let left := uint8_decr (Build.attempts s yzx) in
  let r := Build_place s a yzx idm current_idm target in
  raised r = None /\
  acts (agent r) = APlace target :: AHold idm :: acts a /\
  world (agent r) = fst pr /\
  task_stack (agent r) = task_stack a /\
  Build.base (self r) = Build.base s /\
  Build.new_blocks (self r)
  = Build.new_blocks s ++ (if snd pr then [(target, idm)] else []) /\
  (forall i, Build.attempts (self r) i
             = if bool_decide (i = yzx) then uint8_decr (Build.attempts s i)
               else Build.attempts s i) /\
  chats (agent r)
  = (if (left =? 0)%N && negb (Build.giving_up_message_sent s)
     then [skip_notice] else []) ++ chats a /\
  Build.giving_up_message_sent (self r)
  = Build.giving_up_message_sent s || (left =? 0)%N.
Proof.
  intros Hcur Hidm w1 pr left. unfold Build_place.
  assert (E1 : negb (negb (fst current_idm =? fst idm)) = false).
  { rewrite Hcur. apply negb_false_iff, negb_true_iff, Z.eqb_neq. congruence. }
  assert (E2 : negb (fst current_idm =? 0) = false)
    by (rewrite Hcur; reflexivity).
  assert (E3 : negb (fst idm =? 0) = true)
    by (now apply negb_true_iff, Z.eqb_neq).
  rewrite E1, E2, E3. destruct target as [[x y] z].
  unfold agent_place_block. cbn [world agent_set_held_item act].
  fold w1. fold pr. destruct pr as [w2 placed] eqn:Epr. cbn [fst snd].
  destruct placed.
  - destruct (fst (cell (get_blocks _ x x y y z z) (0, 0, 0)) =? fst idm);
      cbn [Build.attempts Build.set_attempts Build.set_new_blocks
           Build.giving_up_message_sent];
      rewrite bool_decide_eq_true_2 by reflexivity; fold left;
      destruct (left =? 0)%N, (Build.giving_up_message_sent s) eqn:Eg; cbn;
      rewrite ?Eg; repeat split; auto.
  - cbn [Build.attempts Build.set_attempts Build.giving_up_message_sent].
    rewrite bool_decide_eq_true_2 by reflexivity. fold left.
    rewrite app_nil_r.
    destruct (left =? 0)%N, (Build.giving_up_message_sent s) eqn:Eg; cbn;
      rewrite ?Eg; repeat split; auto.
Qed.

Lemma Build_finish_outcome (s : Build.t) (a : Agent) :
  let r := Build_finish s a in
  (raised r = None \/ raised r = Some IndexError \/
   (raised r = Some TypeError /\ Build.origin s = None)) /\
  acts (agent r) = acts a /\ world (agent r) = world a /\
  task_stack (agent r) = task_stack a /\
  Build.giving_up_message_sent (self r) = Build.giving_up_message_sent s /\
  exists new, chats (agent r) = new ++ chats a /\
              (raised r <> None -> new = []) /\
              (raised r = None ->
               new = (if Build.fill_message s then ["I finished filling this"%string] else [])
                     ++ (if Build.verbose s then ["I finished building this"%string] else [])).
Proof.
  unfold Build_finish.
  destruct (Build.origin s); [|cbn; repeat split; auto; exists []; cbn; intuition congruence].
  destruct (npy_to_blocks_list _ _) as [|[xyz ?] ?];
    [cbn; repeat split; auto; exists []; cbn; intuition congruence|].
  destruct (get_block_object_ids_by_xyz _ _);
    [cbn; repeat split; auto; exists []; cbn; intuition congruence|].
  cbn [raised self agent returns].
  split; [now left|].
  assert (Hsame : forall m, acts (set_memory m a) = acts a) by reflexivity.
  split; [destruct (Build.verbose s), (Build.fill_message s); reflexivity|].
  split; [destruct (Build.verbose s), (Build.fill_message s); reflexivity|].
  split; [destruct (Build.verbose s), (Build.fill_message s); reflexivity|].
  split; [reflexivity|].
  exists ((if Build.fill_message s then ["I finished filling this"%string] else [])
          ++ (if Build.verbose s then ["I finished building this"%string] else [])).
  split; [destruct (Build.verbose s), (Build.fill_message s); reflexivity|].
  split; [congruence|reflexivity].
Qed.

Lemma Build_entered_more (s : Build.t) (origin : XYZ) (a : Agent) :
  let s' := Build_entered s origin a in
  Build.giving_up_message_sent s' = Build.giving_up_message_sent s /\
  Build.verbose s' = Build.verbose s /\
  Build.fill_message s' = Build.fill_message s /\
  Base.memid (Build.base s') = Base.memid (Build.base s) /\
  Base.featurizer (Build.base s') = Base.featurizer (Build.base s) /\
  Build.force s' = Build.force s.
Proof.
  unfold Build_entered, Build_save_old. cbn [Build.old_blocks_list Build.set_base].
  destruct (Build.old_blocks_list s); cbn; auto 10.
Qed.

(** X6.  A step of Build never digs: every primitive it calls is a
    hold, a placement or one movement.  A block in the way is left to a
    Destroy child, so the cell [get_next_target] chooses is always empty
    and the schematic always wants a block there: the assertion of the
    method cannot fail.  The only exceptions a step can end in are a
    [TypeError] for a task without an origin, an [IndexError] out of
    [finish] on an empty diff, and the exception of [step_any_dir] for an
    agent with no walkable neighbour. *)
Theorem Build_step_never_digs (s : Build.t) (a : Agent) :
  let r := Build_step s a in
  (exists new, acts (agent r) = new ++ acts a /\
               Forall (fun x => is_dig x = false) new /\
               (List.length new <= 2)%nat) /\
  match raised r with
  | None => True
  | Some TypeError => Build.origin s = None
  | Some IndexError =>
      exists origin,
        Build.origin s = Some origin /\
        np_any (shape (Build.schematic s))
               (Build_diff s (Build_current s origin a)) = false
  | Some (PlainException _) =>
      forall d, In d step_aside_order -> neighbour_walkable a d = false
  | Some _ => False
  end.
Proof.
  intros r. unfold r.
  destruct (Build.origin s) as [origin|] eqn:Ho.
  2:{ unfold Build_step. cbn [Build.origin Build.set_base]. rewrite Ho. cbn.
      split; [|reflexivity]. exists []. repeat split; auto. }
  destruct (Build_step_cases s a origin Ho)
    as [[Hany ->]|[(Hany & _ & d & _ & ->)|(Hany & Hclear & yzx & Et & Hin & Hd & ->)]].
  - destruct (Build_finish_outcome (Build_entered s origin a) a)
      as (Hr & Ha & _). rewrite Ha. split.
    + exists []. repeat split; auto.
    + destruct Hr as [->|[->|[-> Hn]]]; [exact I|eauto|].
      destruct (Build_entered_same s origin a) as (_ & _ & _ & Hor & _).
      congruence.
  - cbn. split; [|exact I]. exists []. repeat split; auto.
  - cbv zeta. destruct (_ || _).
    + rewrite Build_step_any_dir_find.
      destruct (List.find _ _) as [dir|] eqn:Ef; cbn.
      * split; [|exact I]. exists [AStep dir].
        repeat split; auto; repeat constructor.
      * split; [exists []; repeat split; auto|].
        intros dir Hdir. exact (find_none _ _ Ef dir Hdir).
    + destruct (_ <=? _).
      * pose proof (Build_diff_true _ _ _ Hd) as (_ & Hne & _).
        pose proof (Hclear yzx Hin Hd) as Hcur.
        destruct (Build_place_clear (Build_entered s origin a) a yzx
                    (cell (Build.schematic s) yzx)
                    (cell (Build_current s origin a) yzx)
                    (xyz_add (to_xyz yzx) origin) Hcur)
          as (Hr & Ha & _); [congruence|].
        rewrite Hr, Ha. split; [|exact I].
        eexists [_; _]. repeat split; auto; repeat constructor.
      * cbn. split; [|exact I]. exists []. repeat split; auto.
Qed.
End BuildWork.

Section BuildCells.
Context {C : Collaborators}.

(** X7.  While a cell of the diff mask holds a block, a step of Build
    places nothing: it returns with the world, the attempts and the list
    of placed blocks untouched, having pushed one Destroy child (without
    the dig message) whose remaining set is exactly the world coordinates
    of the masked cells that hold a block. *)
Theorem Build_step_clears_first (s : Build.t) (a : Agent) (origin : XYZ)
        (c : Idx) :
  Build.origin s = Some origin ->
  let current := Build_current s origin a in
  let diff := Build_diff s current in
  let sh := shape (Build.schematic s) in
  In c (ndindex sh) -> diff c = true -> fst (cell current c) <> 0 ->
  let r := Build_step s a in
  raised r = None /\
  acts (agent r) = acts a /\ world (agent r) = world a /\
  chats (agent r) = chats a /\
  (forall i, Build.attempts (self r) i = Build.attempts s i) /\
  Build.new_blocks (self r) = Build.new_blocks s /\
  Base.finished (Build.base (self r)) = Base.finished (Build.base s) /\
  exists d,
    task_stack (agent r) = (TDestroy d, Base.memid (Build.base s)) :: task_stack a /\
    Destroy.dig_message d = false /\
    forall p, p ∈ Destroy.xyz_remaining d <->
              exists i, In i (ndindex sh) /\ diff i = true /\
                        fst (cell current i) <> 0 /\
                        p = xyz_add (to_xyz i) origin.
Proof.
  intros Ho current diff sh Hc Hd Hcur r. unfold r.
  destruct (Build_entered_same s origin a) as (_ & Ha & _ & _ & Hn & Hf & _).
  destruct (Build_entered_more s origin a) as (_ & _ & _ & Hm & _).
  destruct (Build_step_cases s a origin Ho)
    as [[Hany _]|[(_ & Hcells & d & Ed & ->)|(_ & Hclear & _)]].
  - exfalso. pose proof (proj1 (np_any_false _ _) Hany c Hc) as E.
    fold current diff in E. congruence.
  - cbn. rewrite Ha, Hn, Hf, Hm. repeat split; auto.
    exists d. split; [reflexivity|].
    match type of Ed with Destroy_init _ (Destroy.mkData ?b _) _ = _ =>
      destruct (Destroy_init_nonempty a b None None) as (d' & Ed' & _ & Hrem & Hmsg & _)
    end.
    { intros E. apply (f_equal (@List.length _)) in E. unfold fill_idmeta in E.
      rewrite !length_map in E. apply Hcells.
      now apply length_zero_iff_nil. }
    rewrite Ed in Ed'. inversion Ed'; subst d'. split; [exact Hmsg|].
    intros p. rewrite Hrem, strip_fill_idmeta, elem_of_list_to_set,
      list_elem_of_In, in_map_iff.
    fold current diff sh. split.
    + intros (i & <- & Hi). apply in_argwhere in Hi as [Hi Hmask].
      apply andb_prop in Hmask as [Hdi Hne].
      exists i. repeat split; auto.
      now apply Z.eqb_neq, negb_true_iff.
    + intros (i & Hi & Hdi & Hne & ->). exists i. split; [reflexivity|].
      apply in_argwhere. split; [assumption|]. rewrite Hdi.
      now apply negb_true_iff, Z.eqb_neq.
  - exfalso. apply Hcur. now apply Hclear.
Qed.

(** X8.  When no cell of the diff mask holds a block and the chosen cell
    is off the agent's body and within reach 3, a step of Build holds the
    schematic's block and calls [place_block] once on that cell, and
    nothing else touches the world.  Whatever the placement returns, the
    attempts of that cell (and of no other) go down by one; the cell is
    appended to the list of placed blocks exactly when the placement
    returned true. *)
Theorem Build_step_places (s : Build.t) (a : Agent) (origin : XYZ) (yzx : Idx) :
  Build.origin s = Some origin ->
  let current := Build_current s origin a in
  let diff := Build_diff s current in
  let sh := shape (Build.schematic s) in
  (forall c, In c (ndindex sh) -> diff c = true -> fst (cell current c) = 0) ->
  np_any sh diff = true ->
  Build_get_next_target s a current diff = Ok yzx ->
  let target := xyz_add (to_xyz yzx) origin in
  let pos := agent_pos (world a) in
  target <> pos -> target <> xyz_add pos (0, 1, 0) ->
  manhat_dist pos target <= 3 ->
  let idm := cell (Build.schematic s) yzx in
  let pr := place_block (set_held_item (world a) idm) target in
  let r := Build_step s a in
  raised r = None /\
  acts (agent r) = APlace target :: AHold idm :: acts a /\
  world (agent r) = fst pr /\
  task_stack (agent r) = task_stack a /\
  Build.new_blocks (self r)
  = Build.new_blocks s ++ (if snd pr then [(target, idm)] else []) /\
  (forall i, Build.attempts (self r) i
             = if bool_decide (i = yzx) then uint8_decr (Build.attempts s i)
               else Build.attempts s i) /\
  Base.finished (Build.base (self r)) = Base.finished (Build.base s).
Proof.
  intros Ho current diff sh Hclear Hany Et target pos Hfeet Hhead Hreach idm pr r.
  subst r pr idm pos target sh diff current.
  destruct (Build_entered_same s origin a) as (_ & Ha & _ & _ & Hn & Hf & _).
  destruct (Build_step_cases s a origin Ho)
    as [[Hany' _]|[(_ & Hcells & _)|(_ & _ & yzx' & Et' & Hin & Hd & ->)]].
  - congruence.
  - exfalso. cbv zeta in Hcells.
    destruct (np_argwhere _ _) as [|c0 cs] eqn:E; [congruence|].
    assert (Hc0 : In c0 (c0 :: cs)) by now left.
    rewrite <- E in Hc0. apply in_argwhere in Hc0 as [Hc0 Hm].
    apply andb_prop in Hm as [Hd0 Hne]. rewrite (Hclear c0 Hc0 Hd0) in Hne.
    discriminate.
  - rewrite Et in Et'. inversion Et'; subst yzx'. cbv zeta.
    unfold xyz_eqb. rewrite !bool_decide_eq_false_2 by assumption.
    cbn [orb]. apply Z.leb_le in Hreach. unfold Build.PLACE_REACH.
    rewrite Hreach.
    pose proof (Build_diff_true _ _ _ Hd) as (_ & Hne & _).
    pose proof (Hclear yzx Hin Hd) as Hcur.
    destruct (Build_place_clear (Build_entered s origin a) a yzx
                (cell (Build.schematic s) yzx)
                (cell (Build_current s origin a) yzx)
                (xyz_add (to_xyz yzx) origin) Hcur)
      as (Hr & Hacts & Hw & Hst & Hb & Hnb & Hatt & _); [congruence|].
    rewrite Hr, Hacts, Hw, Hst, Hb, Hnb, Hn, Hf. repeat split; auto.
    intros i. rewrite Hatt, Ha. reflexivity.
Qed.

(** X9.  Under the same conditions but with the chosen cell farther than
    3 from the agent, a step of Build does not touch the world or the
    attempts: it pushes one Move to that cell with radius 3, carrying the
    Build's featurizer, under the Build's memid. *)
Theorem Build_step_walks_first (s : Build.t) (a : Agent) (origin : XYZ)
        (yzx : Idx) :
  Build.origin s = Some origin ->
  let current := Build_current s origin a in
  let diff := Build_diff s current in
  let sh := shape (Build.schematic s) in
  (forall c, In c (ndindex sh) -> diff c = true -> fst (cell current c) = 0) ->
  np_any sh diff = true ->
  Build_get_next_target s a current diff = Ok yzx ->
  let target := xyz_add (to_xyz yzx) origin in
  let pos := agent_pos (world a) in
  target <> pos -> target <> xyz_add pos (0, 1, 0) ->
  3 < manhat_dist pos target ->
  let r := Build_step s a in
  raised r = None /\
  acts (agent r) = acts a /\ world (agent r) = world a /\
  chats (agent r) = chats a /\
  (forall i, Build.attempts (self r) i = Build.attempts s i) /\
  Build.new_blocks (self r) = Build.new_blocks s /\
  exists m,
    task_stack (agent r) = (TMove m, Base.memid (Build.base s)) :: task_stack a /\
    Move.target m = target /\ Move.approx m = 3 /\
    Move.path m = None /\ Move.replace m = ∅ /\
    Base.featurizer (Move.base m) = Base.featurizer (Build.base s) /\
    Base.finished (Move.base m) = false.
Proof.
  intros Ho current diff sh Hclear Hany Et target pos Hfeet Hhead Hfar r.
  subst r pos target sh diff current.
  destruct (Build_entered_same s origin a) as (_ & Ha & _ & _ & Hn & Hf & _).
  destruct (Build_entered_more s origin a) as (_ & _ & _ & Hm & Hfe & _).
  destruct (Build_step_cases s a origin Ho)
    as [[Hany' _]|[(_ & Hcells & _)|(_ & _ & yzx' & Et' & Hin & Hd & ->)]].
  - congruence.
  - exfalso. cbv zeta in Hcells.
    destruct (np_argwhere _ _) as [|c0 cs] eqn:E; [congruence|].
    assert (Hc0 : In c0 (c0 :: cs)) by now left.
    rewrite <- E in Hc0. apply in_argwhere in Hc0 as [Hc0 Hmask].
    apply andb_prop in Hmask as [Hd0 Hne]. rewrite (Hclear c0 Hc0 Hd0) in Hne.
    discriminate.
  - rewrite Et in Et'. inversion Et'; subst yzx'. cbv zeta.
    unfold xyz_eqb. rewrite !bool_decide_eq_false_2 by assumption.
    cbn [orb]. apply Z.leb_gt in Hfar. unfold Build.PLACE_REACH.
    rewrite Hfar. cbn. rewrite Ha, Hn, Hm, Hfe. repeat split; auto.
    eexists. repeat split.
Qed.

(** X10.  The give-up notice is sent at most once in the life of a
    Build: among the chat messages of one step it occurs at most once, it
    is sent only by a step that finds the give-up flag clear and leaves it
    set, and a flag that is set stays set. *)
Theorem Build_skip_notice_once (s : Build.t) (a : Agent) :
  let r := Build_step s a in
  exists new,
    chats (agent r) = new ++ chats a /\
    (new = [skip_notice] \/ ~ In skip_notice new) /\
    (In skip_notice new ->
     Build.giving_up_message_sent s = false /\
     Build.giving_up_message_sent (self r) = true) /\
    (Build.giving_up_message_sent s = true ->
     Build.giving_up_message_sent (self r) = true).
Proof.
  intros r. unfold r.
  assert (Hquiet : forall (s' : Build.t) (a' : Agent),
            chats a' = chats a ->
            Build.giving_up_message_sent s' = Build.giving_up_message_sent s ->
            exists new,
              chats a' = new ++ chats a /\
              (new = [skip_notice] \/ ~ In skip_notice new) /\
              (In skip_notice new ->
               Build.giving_up_message_sent s = false /\
               Build.giving_up_message_sent s' = true) /\
              (Build.giving_up_message_sent s = true ->
               Build.giving_up_message_sent s' = true)).
  { intros s' a' Hc Hg. exists []. rewrite Hc, Hg. cbn. intuition. }
  destruct (Build.origin s) as [origin|] eqn:Ho.
  2:{ unfold Build_step. cbn [Build.origin Build.set_base]. rewrite Ho.
      now apply Hquiet. }
  destruct (Build_entered_more s origin a) as (Hg & _).
  destruct (Build_step_cases s a origin Ho)
    as [[_ ->]|[(_ & _ & d & _ & ->)|(_ & Hclear & yzx & _ & Hin & Hd & ->)]].
  - destruct (Build_finish_outcome (Build_entered s origin a) a)
      as (_ & _ & _ & _ & Hg' & new & Hc & Hraise & Hret).
    exists new. rewrite Hc, Hg', Hg. split; [reflexivity|].
    assert (Hno : ~ In skip_notice new).
    { destruct (raised (Build_finish (Build_entered s origin a) a)).
      - rewrite Hraise by discriminate. intros [].
      - rewrite (Hret eq_refl).
        destruct (Build.fill_message _), (Build.verbose _); cbn;
          unfold skip_notice; intuition discriminate. }
    split; [now right|]. split; [contradiction|auto].
  - now apply Hquiet.
  - cbv zeta. destruct (_ || _).
    { rewrite Build_step_any_dir_find.
      destruct (List.find _ _); now apply Hquiet. }
    destruct (_ <=? _); [|now apply Hquiet].
    pose proof (Build_diff_true _ _ _ Hd) as (_ & Hne & _).
    pose proof (Hclear yzx Hin Hd) as Hcur.
    destruct (Build_place_clear (Build_entered s origin a) a yzx
                (cell (Build.schematic s) yzx)
                (cell (Build_current s origin a) yzx)
                (xyz_add (to_xyz yzx) origin) Hcur)
      as (_ & _ & _ & _ & _ & _ & _ & Hc & Hg'); [congruence|].
    rewrite Hc, Hg', Hg. eexists. split; [reflexivity|].
    destruct (_ =? _)%N, (Build.giving_up_message_sent s); cbn;
      intuition discriminate.
Qed.
End BuildCells.

(** In the example a plank lies where the corner schematic wants stone:
    the step pushes a Destroy for that one cell and places nothing. *)
Lemma Build_step_clears_first_witness :
  let s := Examples.corner in
  let a := Cases.plank_in_the_way in
  let r := Build_step s a in
  acts (agent r) = acts a /\
  exists d,
    task_stack (agent r) = (TDestroy d, Base.memid (Build.base s)) :: task_stack a /\
    (0, 64, 0) ∈ Destroy.xyz_remaining d.
Proof.
  intros s a r.
  assert (H1 : In (0, 0, 0) (ndindex (shape (Build.schematic s))))
    by (vm_compute; auto).
  assert (H2 : Build_diff (C := Demo.collaborators) s
                 (Build_current s (0, 64, 0) a) (0, 0, 0) = true)
    by (vm_compute; reflexivity).
  assert (H3 : fst (cell (Build_current s (0, 64, 0) a) (0, 0, 0)) <> 0)
    by (vm_compute; discriminate).
  destruct (Build_step_clears_first s a (0, 64, 0) (0, 0, 0) eq_refl H1 H2 H3)
    as (_ & Hacts & _ & _ & _ & _ & _ & d & Hst & _ & Hrem).
  split; [exact Hacts|]. exists d. split; [exact Hst|].
  apply Hrem. exists (0, 0, 0). auto.
Defined.

(** In the example the agent stands two cells from the corner of the
    empty site: the step places stone in the ground cell next to it. *)
Lemma Build_step_places_witness :
  let s := Examples.corner in
  let a := Examples.beside in
  let r := Build_step s a in
  acts (agent r) = [APlace (1, 64, 0); AHold (1, 0)] /\
  Build.attempts (self r) (0, 0, 1) = uint8_decr (Build.attempts s (0, 0, 1)) /\
  task_stack (agent r) = [].
Proof.
  intros s a r.
  assert (H1 : forall c, In c (ndindex (shape (Build.schematic s))) ->
                 Build_diff (C := Demo.collaborators) s
                   (Build_current s (0, 64, 0) a) c = true ->
                 fst (cell (Build_current s (0, 64, 0) a) c) = 0).
  { intros c Hc _. vm_compute in Hc.
    repeat (destruct Hc as [<-|Hc]; [vm_compute; reflexivity|]).
    destruct Hc. }
  assert (H2 : np_any (shape (Build.schematic s))
                 (Build_diff (C := Demo.collaborators) s
                    (Build_current s (0, 64, 0) a)) = true)
    by (vm_compute; reflexivity).
  assert (H3 : Build_get_next_target s a (Build_current s (0, 64, 0) a)
                 (Build_diff (C := Demo.collaborators) s
                    (Build_current s (0, 64, 0) a)) = Ok (0, 0, 1))
    by (vm_compute; reflexivity).
  assert (H4 : xyz_add (to_xyz (0, 0, 1)) (0, 64, 0) <> agent_pos (world a))
    by (vm_compute; discriminate).
  assert (H5 : xyz_add (to_xyz (0, 0, 1)) (0, 64, 0)
               <> xyz_add (agent_pos (world a)) (0, 1, 0))
    by (vm_compute; discriminate).
  assert (H6 : manhat_dist (agent_pos (world a))
                 (xyz_add (to_xyz (0, 0, 1)) (0, 64, 0)) <= 3)
    by (vm_compute; discriminate).
  destruct (Build_step_places s a (0, 64, 0) (0, 0, 1) eq_refl H1 H2 H3 H4 H5 H6)
    as (_ & Hacts & _ & Hst & _ & Hatt & _).
  split; [exact Hacts|]. split; [|exact Hst].
  exact (Hatt (0, 0, 1)).
Defined.

(** In the example the agent is eight cells from the site: the step
    pushes a Move to the nearest ground cell and touches nothing. *)
Lemma Build_step_walks_first_witness :
  let s := Examples.corner in
  let a := Cases.far_away in
  let r := Build_step s a in
  acts (agent r) = [] /\
  exists m,
    task_stack (agent r) = [(TMove m, Base.memid (Build.base s))] /\
    Move.target m = (1, 64, 0) /\ Move.approx m = 3.
Proof.
  intros s a r.
  assert (H1 : forall c, In c (ndindex (shape (Build.schematic s))) ->
                 Build_diff (C := Demo.collaborators) s
                   (Build_current s (0, 64, 0) a) c = true ->
                 fst (cell (Build_current s (0, 64, 0) a) c) = 0).
  { intros c Hc _. vm_compute in Hc.
    repeat (destruct Hc as [<-|Hc]; [vm_compute; reflexivity|]).
    destruct Hc. }
  assert (H2 : np_any (shape (Build.schematic s))
                 (Build_diff (C := Demo.collaborators) s
                    (Build_current s (0, 64, 0) a)) = true)
    by (vm_compute; reflexivity).
  assert (H3 : Build_get_next_target s a (Build_current s (0, 64, 0) a)
                 (Build_diff (C := Demo.collaborators) s
                    (Build_current s (0, 64, 0) a)) = Ok (0, 0, 1))
    by (vm_compute; reflexivity).
  assert (H4 : xyz_add (to_xyz (0, 0, 1)) (0, 64, 0) <> agent_pos (world a))
    by (vm_compute; discriminate).
  assert (H5 : xyz_add (to_xyz (0, 0, 1)) (0, 64, 0)
               <> xyz_add (agent_pos (world a)) (0, 1, 0))
    by (vm_compute; discriminate).
  assert (H6 : 3 < manhat_dist (agent_pos (world a))
                     (xyz_add (to_xyz (0, 0, 1)) (0, 64, 0)))
    by (vm_compute; reflexivity).
  destruct (Build_step_walks_first s a (0, 64, 0) (0, 0, 1) eq_refl H1 H2 H3 H4 H5 H6)
    as (_ & Hacts & _ & _ & _ & _ & m & Hst & Ht & Hap & _).
  split; [exact Hacts|]. exists m. auto.
Defined.

(** ** Move *)

Section MoveSteps.
Context {C : Collaborators}.

(** The flush loop of [Move.step], from any accumulator: it only holds
    and places, and keeps in the set only entries it was given. *)
Lemma Move_flush_from (R : list (XYZ * IDM)) (rep0 : gset (XYZ * IDM))
      (a0 : Agent) :
  let out := fold_left
               (fun '(rep, a) '(pos, idm) =>
                  let a := agent_set_held_item idm a in
                  let '(a, ok) := agent_place_block pos a in
                  if ok then (rep, a) else (rep ∪ {[ (pos, idm) ]}, a))
               R (rep0, a0) in
  (forall e, e ∈ fst out -> e ∈ rep0 \/ In e R) /\
  (exists new, acts (snd out) = new ++ acts a0 /\
               Forall (fun x => is_dig x = false) new) /\
  task_stack (snd out) = task_stack a0 /\ chats (snd out) = chats a0 /\
  memory (snd out) = memory a0.
Proof.
  set (f := fun '(rep, a) '(pos, idm) =>
              let a := agent_set_held_item idm a in
              let '(a, ok) := agent_place_block pos a in
              if ok then (rep, a) else (rep ∪ {[ (pos, idm) ]}, a)).
  cbv zeta. revert rep0 a0.
  induction R as [|[pos idm] t IH]; intros rep0 a0; cbn [fold_left].
  - cbn. split; [auto|]. split; [exists []; split; [reflexivity|constructor]|auto].
  - destruct (f (rep0, a0) (pos, idm)) as [rep1 a1] eqn:E.
    assert (H1 : (forall e, e ∈ rep1 -> e ∈ rep0 \/ e = (pos, idm)) /\
                 acts a1 = [APlace pos; AHold idm] ++ acts a0 /\
                 task_stack a1 = task_stack a0 /\ chats a1 = chats a0 /\
                 memory a1 = memory a0).
    { unfold f, agent_place_block in E. cbv zeta in E.
      destruct (place_block _ _) as [w ok]. destruct ok; inversion E; subst.
      - cbn. repeat split; auto.
      - cbn. repeat split; auto. intros e He.
        apply elem_of_union in He as [He|He]; [now left|].
        apply elem_of_singleton in He. now right. }
    destruct H1 as (Hrep1 & Hacts & Hs1 & Hc1 & Hm1).
    destruct (IH rep1 a1) as (Hsub & (new & Hn & Hf) & Hst & Hch & Hm).
    split.
    { intros e He. destruct (Hsub e He) as [H|H]; [|right; now right].
      destruct (Hrep1 e H) as [H'|H']; [now left|right; left; congruence]. }
    split; [|rewrite Hst, Hch, Hm; auto].
    exists (new ++ [APlace pos; AHold idm]). rewrite Hn, Hacts, app_assoc.
    split; [reflexivity|]. apply Forall_app. split; [assumption|].
    repeat constructor.
Qed.

(** The digging loop of [Move.handle_no_path]: every block of the list is
    dug and queued. *)
Lemma Move_dig_loop (blocks : list Block) (rep0 : gset (XYZ * IDM))
      (a0 : Agent) :
  let out := fold_left (fun '(rep, a) '(bp, idm) =>
                          (rep ∪ {[ (bp, idm) ]}, agent_dig bp a))
                       blocks (rep0, a0) in
  (forall e, e ∈ fst out <-> e ∈ rep0 \/ In e blocks) /\
  acts (snd out) = rev (map (fun b => ADig (fst b)) blocks) ++ acts a0 /\
  task_stack (snd out) = task_stack a0 /\ chats (snd out) = chats a0.
Proof.
  revert rep0 a0. induction blocks as [|[bp idm] t IH]; intros rep0 a0;
    cbn [fold_left].
  - cbn. split; [intuition|auto].
  - destruct (IH (rep0 ∪ {[ (bp, idm) ]}) (agent_dig bp a0))
      as (Hsub & Hacts & Hst & Hch).
    split.
    { intros e. rewrite Hsub, elem_of_union, elem_of_singleton. cbn.
      intuition congruence. }
    rewrite Hacts, Hst, Hch. cbn. rewrite <- app_assoc. auto.
Qed.

(** X11.  The fallback of a Move that has no path: it never raises; when
    the agent stands on the target it does nothing; otherwise it picks an
    axis direction that leads towards the target (positive dot product
    with target minus position), digs nothing but the cell it is about to
    walk into and the cell above it, queues every block it digs, with the
    block-type it read there, in the replace set (which keeps what it
    had), and ends with the movement primitive of that direction. *)
Theorem Move_handle_no_path_heads_for_target (s : Move.t) (a : Agent) :
  let r := Move_handle_no_path s a in
  let pos := agent_pos (world a) in
  raised r = None /\
  task_stack (agent r) = task_stack a /\ chats (agent r) = chats a /\
  (forall e, e ∈ Move.replace s -> e ∈ Move.replace (self r)) /\
  Move.target (self r) = Move.target s /\ Move.approx (self r) = Move.approx s /\
  Move.path (self r) = Move.path s /\ Move.base (self r) = Move.base s /\
  (Move.target s = pos -> r = returns s a) /\
  (Move.target s <> pos ->
   exists vec fn digs,
     In (vec, fn) Move.STEP_FNS /\
     0 < xyz_dot (xyz_sub (Move.target s) pos) vec /\
     acts (agent r) = AStep fn :: map ADig digs ++ acts a /\
     (forall p, In p digs ->
                (p = xyz_add pos vec \/ p = xyz_add (xyz_add pos vec) (0, 1, 0)) /\
                (p, block_at (world a) p) ∈ Move.replace (self r)) /\
     (forall e, e ∈ Move.replace (self r) ->
                e ∈ Move.replace s \/ In (fst e) digs)).
Proof.
  intros r pos. unfold r, Move_handle_no_path. fold pos.
  destruct (List.find _ Move.STEP_FNS) as [[vec fn]|] eqn:Ef.
  - apply find_some in Ef as [Hin Hdot]. apply Z.ltb_lt in Hdot.
    destruct (xyz_add pos vec) as [[x y] z] eqn:Enew.
    set (blocks := npy_to_blocks_list (get_blocks a x x y (y + 1) z z) (x, y, z)).
    pose proof (Move_dig_loop blocks (Move.replace s) a) as Hloop.
    cbv beta iota zeta in Hloop |- *. fold blocks. revert Hloop.
    match goal with |- context [fold_left ?f blocks ?i] =>
      destruct (fold_left f blocks i) as [rep a1] end.
    cbn [fst snd]. intros (Hrep & Hacts & Hst & Hch).
    cbn [raised self agent returns agent_step act task_stack chats acts
         Move_set_replace Move.replace Move.target Move.approx Move.path
         Move.base].
    split; [reflexivity|]. split; [exact Hst|]. split; [exact Hch|].
    split; [intros e He; apply Hrep; now left|].
    do 4 (split; [reflexivity|]). split.
    { intros E. exfalso. rewrite E in Hdot.
      destruct pos as [[px py] pz], vec as [[vx vy] vz]. cbn in Hdot. lia. }
    intros _. exists vec, fn, (rev (map fst blocks)).
    split; [exact Hin|]. split; [exact Hdot|]. split.
    { rewrite Hacts. f_equal. f_equal. rewrite map_rev, map_map. reflexivity. }
    assert (Hblocks : forall p idm, In (p, idm) blocks ->
              (p = (x, y, z) \/ p = xyz_add (x, y, z) (0, 1, 0)) /\
              idm = block_at (world a) p).
    { intros p idm Hb. unfold blocks, npy_to_blocks_list in Hb.
      apply in_flat_map in Hb as ([[iy iz] ix] & Hi & Hb).
      cbn [get_blocks shape cell] in Hi, Hb.
      replace (Z.to_nat (y + 1 - y + 1)) with 2%nat in Hi by lia.
      replace (Z.to_nat (z - z + 1)) with 1%nat in Hi by lia.
      replace (Z.to_nat (x - x + 1)) with 1%nat in Hi by lia.
      apply in_ndindex in Hi.
      destruct (fst (block_at (world a) (x + ix, y + iy, z + iz)) =? 0);
        [destruct Hb|].
      destruct Hb as [Hb|[]]. inversion Hb; subst. cbn [to_xyz xyz_add].
      replace (ix + x) with (x + ix) by lia.
      replace (iy + y) with (y + iy) by lia.
      replace (iz + z) with (z + iz) by lia.
      split; [|reflexivity].
      assert (ix = 0) as -> by lia. assert (iz = 0) as -> by lia.
      assert (iy = 0 \/ iy = 1) as [->| ->] by lia;
        [left|right]; rewrite ?Z.add_0_r; reflexivity. }
    split.
    + intros p Hp. apply in_rev, in_map_iff in Hp as ([p' idm] & <- & Hb).
      cbn [fst]. destruct (Hblocks p' idm Hb) as [Hwhere ->].
      split; [rewrite Enew; exact Hwhere|]. apply Hrep. now right.
    + intros [p idm] He. apply Hrep in He as [He|He]; [now left|].
      right. cbn [fst]. apply (proj1 (in_rev _ _)).
      exact (in_map fst _ _ He).
  - cbn. repeat split; auto. intros Hne. exfalso.
    pose proof (find_none _ _ Ef) as Hnone.
    destruct (Move.target s) as [[tx ty] tz], pos as [[px py] pz].
    assert (tx <> px \/ ty <> py \/ tz <> pz) as Hdiff.
    { destruct (Z.eq_dec tx px), (Z.eq_dec ty py), (Z.eq_dec tz pz);
        subst; auto. }
    pose proof (Hnone ((1, 0, 0), step_pos_x)) as H1.
    pose proof (Hnone ((-1, 0, 0), step_neg_x)) as H2.
    pose proof (Hnone ((0, 1, 0), step_pos_y)) as H3.
    pose proof (Hnone ((0, -1, 0), step_neg_y)) as H4.
    pose proof (Hnone ((0, 0, 1), step_pos_z)) as H5.
    pose proof (Hnone ((0, 0, -1), step_neg_z)) as H6.
    cbn in H1, H2, H3, H4, H5, H6.
    specialize (H1 ltac:(auto)). specialize (H2 ltac:(auto)).
    specialize (H3 ltac:(auto)). specialize (H4 ltac:(auto 10)).
    specialize (H5 ltac:(auto 10)). specialize (H6 ltac:(auto 10)).
    apply Z.ltb_ge in H1, H2, H3, H4, H5, H6. lia.
Qed.

(** What one call of [handle_no_path] does to the books of the Move. *)
Lemma Move_handle_no_path_books (s : Move.t) (a : Agent) :
  let r := Move_handle_no_path s a in
  raised r = None /\
  Move.base (self r) = Move.base s /\ Move.target (self r) = Move.target s /\
  Move.approx (self r) = Move.approx s /\ Move.path (self r) = Move.path s /\
  task_stack (agent r) = task_stack a /\ chats (agent r) = chats a /\
  exists new,
    acts (agent r) = new ++ acts a /\
    (forall e, e ∈ Move.replace (self r) ->
               e ∈ Move.replace s \/ In (ADig (fst e)) new) /\
    (forall p, In (ADig p) new -> exists idm, (p, idm) ∈ Move.replace (self r)).
Proof.
  intros r. unfold r, Move_handle_no_path.
  destruct (List.find _ Move.STEP_FNS) as [[vec fn]|].
  2:{ cbn. do 7 (split; [reflexivity|]). exists [].
      split; [reflexivity|]. split; [auto|]. intros p []. }
  destruct (xyz_add _ vec) as [[x y] z].
  set (blocks := npy_to_blocks_list (get_blocks a x x y (y + 1) z z) (x, y, z)).
  pose proof (Move_dig_loop blocks (Move.replace s) a) as Hloop.
  cbv beta iota zeta in Hloop |- *. revert Hloop.
  match goal with |- context [fold_left ?f blocks ?i] =>
    destruct (fold_left f blocks i) as [rep a1] end.
  cbn [fst snd]. intros (Hrep & Hacts & Hst & Hch).
  cbn [raised self agent returns agent_step act task_stack chats acts
       Move_set_replace Move.replace Move.base Move.target Move.approx
       Move.path].
  do 5 (split; [reflexivity|]). split; [exact Hst|]. split; [exact Hch|].
  exists (AStep fn :: rev (map (fun b => ADig (fst b)) blocks)).
  split; [rewrite Hacts; reflexivity|]. split.
  - intros [p idm] He. apply Hrep in He as [He|He]; [now left|].
    right. right. apply (proj1 (in_rev _ _)). apply in_map_iff.
    exists (p, idm). auto.
  - intros p [E|Hp]; [discriminate|].
    apply (proj2 (in_rev _ _)) in Hp.
    apply in_map_iff in Hp as ([p' idm] & E & Hb). inversion E; subst.
    exists idm. apply Hrep. now right.
Qed.

(** What the last lines of [Move.step] do: at most one movement
    primitive, and nothing to the replace set. *)
Lemma Move_take_step_books (s : Move.t) (p : list XYZ) (a : Agent) :
  let r := Move_take_step s p a in
  Move.base (self r) = Move.base s /\ Move.target (self r) = Move.target s /\
  Move.approx (self r) = Move.approx s /\
  Move.replace (self r) = Move.replace s /\
  task_stack (agent r) = task_stack a /\ chats (agent r) = chats a /\
  exists new, acts (agent r) = new ++ acts a /\
              Forall (fun x => is_dig x = false) new.
Proof.
  intros r. unfold r, Move_take_step.
  destruct (last p); [|cbn; do 6 (split; [reflexivity|]); exists []; auto].
  destruct (negb _); [cbn; do 6 (split; [reflexivity|]); exists []; auto|].
  destruct (last (removelast p));
    [|cbn; do 6 (split; [reflexivity|]); exists []; auto].
  destruct (List.find _ _) as [[v fn]|];
    [|cbn; do 6 (split; [reflexivity|]); exists []; auto].
  cbn. do 6 (split; [reflexivity|]). exists [AStep fn].
  split; [reflexivity|]. repeat constructor.
Qed.

(** X12.  The books of a Move step.  A step never changes the target or
    the radius, pushes no task and sends no chat.  Whatever is in the
    replace set afterwards was there before (its placement was tried and
    failed) or was dug in this very step, and every block dug in this
    step is in the set. *)
Theorem Move_step_queues_what_it_digs (s : Move.t) (a : Agent) :
  let r := Move_step s a in
  Move.target (self r) = Move.target s /\
  Move.approx (self r) = Move.approx s /\
  task_stack (agent r) = task_stack a /\ chats (agent r) = chats a /\
  exists new,
    acts (agent r) = new ++ acts a /\
    (forall e, e ∈ Move.replace (self r) ->
               e ∈ Move.replace s \/ In (ADig (fst e)) new) /\
    (forall p, In (ADig p) new -> exists idm, (p, idm) ∈ Move.replace (self r)).
Proof.
  intros r. unfold r, Move_step.
  pose proof (Move_flush_from (elements (Move.replace s)) ∅ a) as Hflush.
  cbv zeta in Hflush. fold (Move_flush (elements (Move.replace s)) a) in Hflush.
  cbn [Move_set_base Move.replace Move.target Move.approx Move.base Move.path].
  destruct (Move_flush _ a) as [rep a1]. cbn [fst snd] in Hflush.
  destruct Hflush as (Hsub & (new1 & Hacts1 & Hnd) & Hst & Hch & _).
  assert (Hrep : forall e, e ∈ rep -> e ∈ Move.replace s).
  { intros e He. destruct (Hsub e He) as [H|H]; [set_solver|].
    apply elem_of_elements. now apply list_elem_of_In. }
  assert (Hnodig : forall p, ~ In (ADig p) new1).
  { intros p Hp. rewrite List.Forall_forall in Hnd. apply Hnd in Hp.
    discriminate. }
  cbn [Move_set_replace Move.replace Move.target Move.approx Move.base
       Move.path].
  destruct (_ <=? _).
  { destruct (Base.memid _); cbn; (do 2 (split; [reflexivity|]));
      (split; [exact Hst|]); (split; [exact Hch|]); exists new1;
      (split; [exact Hacts1|]); (split; [auto|]);
      intros p Hp; destruct (Hnodig p Hp). }
  match goal with
  | |- context [match ?st with Ok _ => _ | Raise _ => _ end] =>
      destruct st as [recompute|e]
  end.
  2:{ cbn. do 2 (split; [reflexivity|]). split; [exact Hst|].
      split; [exact Hch|]. exists new1. split; [exact Hacts1|].
      split; [auto|]. intros p Hp. destruct (Hnodig p Hp). }
  match goal with
  | |- context [match Move.path ?s' with Some _ => _ | None => _ end] =>
      set (s2 := s');
      assert (Hs2 : Move.target s2 = Move.target s /\
                    Move.approx s2 = Move.approx s /\ Move.replace s2 = rep)
        by (unfold s2; destruct recompute; cbn; auto)
  end.
  destruct Hs2 as (Ht2 & Hap2 & Hrep2).
  destruct (Move.path s2) as [p|].
  - destruct (Move_take_step_books s2 p a1)
      as (_ & Ht & Hap & Hr & Hst' & Hch' & new2 & Hacts2 & Hnd2).
    rewrite Ht, Hap, Hr, Hst', Hch', Hacts2, Hacts1, Ht2, Hap2, Hrep2, Hst, Hch.
    do 4 (split; [reflexivity|]). exists (new2 ++ new1).
    split; [now rewrite app_assoc|]. split; [auto|].
    intros q Hq. exfalso. apply in_app_or in Hq as [Hq|Hq].
    + rewrite List.Forall_forall in Hnd2. apply Hnd2 in Hq. discriminate.
    + exact (Hnodig q Hq).
  - destruct (Move_handle_no_path_books s2 a1)
      as (_ & _ & Ht & Hap & _ & Hst' & Hch' & new2 & Hacts2 & Hin & Hdug).
    rewrite Ht, Hap, Hst', Hch', Hacts2, Hacts1, Ht2, Hap2, Hst, Hch.
    do 4 (split; [reflexivity|]). exists (new2 ++ new1).
    split; [now rewrite app_assoc|]. split.
    + intros e He. destruct (Hin e He) as [H|H].
      * left. apply Hrep. now rewrite <- Hrep2.
      * right. apply in_or_app. now left.
    + intros q Hq. apply in_app_or in Hq as [Hq|Hq]; [now apply Hdug|].
      destruct (Hnodig q Hq).
Qed.

(** X13.  A Move digs only as a last resort: a step that digs anything
    returns without an exception, leaves the task unfinished as it found
    it, and leaves it without a path; in particular a step that arrives,
    or that has a path to follow, digs nothing. *)
Theorem Move_step_digs_only_without_path (s : Move.t) (a : Agent) (p : XYZ) :
  let r := Move_step s a in
  forall new,
    acts (agent r) = new ++ acts a -> In (ADig p) new ->
    raised r = None /\ Move.path (self r) = None /\
    Base.finished (Move.base (self r)) = Base.finished (Move.base s).
Proof.
  intros r new. unfold r, Move_step.
  pose proof (Move_flush_from (elements (Move.replace s)) ∅ a) as Hflush.
  cbv zeta in Hflush. fold (Move_flush (elements (Move.replace s)) a) in Hflush.
  cbn [Move_set_base Move.replace Move.target Move.approx Move.base Move.path].
  destruct (Move_flush _ a) as [rep a1]. cbn [fst snd] in Hflush.
  destruct Hflush as (_ & (new1 & Hacts1 & Hnd) & _).
  assert (Hquiet : forall a' : Agent, acts a' = acts a1 ->
            acts a' = new ++ acts a -> In (ADig p) new -> False).
  { intros a' E Hnew Hp. rewrite E, Hacts1 in Hnew.
    apply app_inv_tail in Hnew. subst new1.
    rewrite List.Forall_forall in Hnd. apply Hnd in Hp. discriminate. }
  cbn [Move_set_replace Move.replace Move.target Move.approx Move.base
       Move.path].
  destruct (_ <=? _).
  { destruct (Base.memid _); cbn [agent returns]; intros Hnew Hp;
      destruct (Hquiet _ eq_refl Hnew Hp). }
  match goal with
  | |- context [match ?st with Ok _ => _ | Raise _ => _ end] =>
      destruct st as [recompute|e]
  end.
  2:{ cbn [agent raises]. intros Hnew Hp. destruct (Hquiet _ eq_refl Hnew Hp). }
  match goal with
  | |- context [match Move.path ?s' with Some _ => _ | None => _ end] =>
      set (s2 := s');
      assert (Hs2 : Base.finished (Move.base s2) = Base.finished (Move.base s))
        by (unfold s2; destruct recompute; reflexivity)
  end.
  destruct (Move.path s2) as [q|] eqn:Epath.
  - destruct (Move_take_step_books s2 q a1)
      as (_ & _ & _ & _ & _ & _ & new2 & Hacts2 & Hnd2).
    intros Hnew Hp. exfalso. rewrite Hacts2, Hacts1, app_assoc in Hnew.
    apply app_inv_tail in Hnew. subst new.
    apply in_app_or in Hp as [Hp|Hp].
    + rewrite List.Forall_forall in Hnd2. apply Hnd2 in Hp. discriminate.
    + rewrite List.Forall_forall in Hnd. apply Hnd in Hp. discriminate.
  - destruct (Move_handle_no_path_books s2 a1)
      as (Hr & Hb & _ & _ & Hpath & _).
    intros _ _. rewrite Hr, Hb, Hpath, Hs2. auto.
Qed.

(** The table [STEP_FNS] looked up at the displacement to [next]: the
    movement primitive found leads from [pos] to [next], and none is found
    exactly when [next] is not one axis step away. *)
Lemma STEP_FNS_lookup (pos next : XYZ) :
  match List.find (fun '(vec, _) => xyz_eqb vec (xyz_sub next pos))
                  Move.STEP_FNS with
  | Some (_, fn) => next = xyz_add pos (dir_offset fn)
  | None => forall d, next <> xyz_add pos (dir_offset d)
  end.
Proof.
  destruct pos as [[px py] pz], next as [[nx ny] nz].
  destruct (List.find _ _) as [[vec fn]|] eqn:Ef.
  - apply find_some in Ef as [Hin Heq].
    apply bool_decide_eq_true in Heq. cbn in Heq.
    cbn in Hin.
    repeat (destruct Hin as [Hin|Hin];
            [injection Hin as <- <-; injection Heq as E1 E2 E3; cbn;
             repeat (apply pair_equal_spec; split); lia|]).
    destruct Hin.
  - intros d Hd. pose proof (find_none _ _ Ef (dir_offset d, d)) as Hn.
    cbn beta iota in Hn.
    assert (Hin : In (dir_offset d, d) Move.STEP_FNS)
      by (destruct d; cbn; auto 10).
    apply Hn in Hin. apply bool_decide_eq_false in Hin. apply Hin.
    destruct d; cbn in Hd |- *; injection Hd as -> -> ->;
      repeat (apply pair_equal_spec; split); lia.
Qed.

Lemma dir_offset_inj (pos : XYZ) (d d' : Dir) :
  xyz_add pos (dir_offset d) = xyz_add pos (dir_offset d') -> d = d'.
Proof.
  destruct pos as [[px py] pz].
  destruct d, d'; cbn; intros E; inversion E; try reflexivity; lia.
Qed.

(** X14.  A Move with a cached path that ends where the agent stands
    follows it: the waypoint under the agent is popped, and when the next
    waypoint is one axis step away the agent takes exactly that movement
    primitive; when it is not, the step raises KeyError after the pop and
    the agent has not moved.  (Stated for an empty replace set and an
    agent that has not arrived.) *)
Theorem Move_step_follows_cached_path (s : Move.t) (a : Agent)
        (rest : list XYZ) (next : XYZ) :
  let pos := agent_pos (world a) in
  Move.replace s = ∅ ->
  Move.approx s < manhat_dist pos (Move.target s) ->
  Move.path s = Some (rest ++ [next; pos]) ->
  let r := Move_step s a in
  Move.path (self r) = Some (rest ++ [next]) /\
  Move.replace (self r) = ∅ /\
  Base.finished (Move.base (self r)) = Base.finished (Move.base s) /\
  (forall d, next = xyz_add pos (dir_offset d) ->
             raised r = None /\ agent r = agent_step d a) /\
  ((forall d, next <> xyz_add pos (dir_offset d)) ->
   raised r = Some KeyError /\ agent r = a).
Proof.
  intros pos Hrep Hfar Hpath r. subst r pos. unfold Move_step.
  assert (Hsame : forall p : XYZ, xyz_eqb p p = true)
    by (intros p; apply bool_decide_eq_true_2; reflexivity).
  assert (Hlast : last (rest ++ [next; agent_pos (world a)])
                  = Some (agent_pos (world a))).
  { change (rest ++ [next; agent_pos (world a)])
      with (rest ++ [next] ++ [agent_pos (world a)]).
    rewrite app_assoc. apply last_snoc. }
  assert (Hpop : removelast (rest ++ [next; agent_pos (world a)])
                 = rest ++ [next]).
  { change (rest ++ [next; agent_pos (world a)])
      with (rest ++ [next] ++ [agent_pos (world a)]).
    rewrite app_assoc. apply removelast_last. }
  cbn [Move_set_base Move.replace Move.target Move.approx Move.base Move.path].
  rewrite Hrep, elements_empty.
  cbn [Move_flush fold_left Move_set_replace Move_set_base Move.replace
       Move.target Move.approx Move.base Move.path].
  apply Z.leb_gt in Hfar. rewrite Hfar, Hpath, Hlast, Hsame.
  cbn [negb Move.path Move_set_replace Move_set_base]. rewrite Hpath.
  unfold Move_take_step.
  rewrite Hlast, Hpop, Hsame. cbn [negb]. rewrite last_snoc.
  set (pos := agent_pos (world a)).
  pose proof (STEP_FNS_lookup pos next) as Hlook.
  destruct (List.find _ _) as [[vec fn]|]; cbn.
  - do 3 (split; [reflexivity|]). split.
    + intros d Hd. rewrite Hd in Hlook. apply dir_offset_inj in Hlook.
      subst. auto.
    + intros Hnone. destruct (Hnone fn Hlook).
  - do 3 (split; [reflexivity|]). split; [|auto].
    intros d Hd. destruct (Hlook d Hd).
Qed.
End MoveSteps.

(** In the example the walled-in agent has no path to the far target and
    digs the stone block in front of it. *)
Lemma Move_step_digs_only_without_path_witness :
  let r := Move_step Cases.walk_far Examples.behind_wall in
  raised r = None /\ Move.path (self r) = None.
Proof.
  intros r.
  destruct (Move_step_digs_only_without_path Cases.walk_far
              Examples.behind_wall (1, 64, 0)
              [AStep step_pos_x; ADig (1, 64, 0)]) as (H1 & H2 & _).
  - vm_compute. reflexivity.
  - right. left. reflexivity.
  - split; assumption.
Defined.

(** In the example the cached path leads one step along +x. *)
Lemma Move_step_follows_cached_path_witness :
  let r := Move_step Cases.on_path Examples.inside in
  raised r = None /\ agent r = agent_step step_pos_x Examples.inside /\
  Move.path (self r) = Some [(1, 64, 0)].
Proof.
  intros r.
  destruct (Move_step_follows_cached_path Cases.on_path Examples.inside
              [] (1, 64, 0)) as (Hp & _ & _ & Hstep & _).
  - reflexivity.
  - vm_compute. reflexivity.
  - reflexivity.
  - destruct (Hstep step_pos_x eq_refl) as [H1 H2]. auto.
Defined.

(** ** Spawn *)

Section SpawnSteps.
Context {C : Collaborators}.

(** X15.  A Spawn step sends no chat.  Farther than 3 from the position
    it leaves the world and itself alone and pushes one Move to the
    position with radius 3.  Within 3 it pushes nothing: it holds the
    object, steps back (-z) when it stands on the position, and places on
    the cell above the position, all before it looks the mob up; a mob id
    that [MOBS_BY_ID] does not know then raises KeyError with the task
    unchanged (so not finished), a known one finishes the task whether or
    not the memory has seen the mob. *)
Theorem Spawn_step_places_before_lookup (s : Spawn.t) (a : Agent) :
  let r := Spawn_step s a in
  let idm := Spawn.object_idm s in
  let on_spot :=
    xyz_eqb (Spawn.pos s) (agent_pos (set_held_item (world a) idm)) in
  chats (agent r) = chats a /\
  if 3 <? manhat_dist (agent_pos (world a)) (Spawn.pos s) then
    raised r = None /\ self r = s /\
    acts (agent r) = acts a /\ world (agent r) = world a /\
    exists m,
      task_stack (agent r) = (TMove m, Base.memid (Spawn.base s)) :: task_stack a /\
      Move.target m = Spawn.pos s /\ Move.approx m = 3 /\
      Move.path m = None /\ Move.replace m = ∅
  else
    task_stack (agent r) = task_stack a /\
    acts (agent r)
    = APlace (xyz_add (Spawn.pos s) (0, 1, 0))
        :: (if on_spot then [AStep step_neg_z] else [])
        ++ AHold idm :: acts a /\
    match MOBS_BY_ID (snd idm) with
    | Some _ => raised r = None /\
                Base.finished (Spawn.base (self r)) = true /\
                Spawn.pos (self r) = Spawn.pos s /\
                Spawn.object_idm (self r) = idm
    | None => raised r = Some KeyError /\ self r = s
    end.
Proof.
  intros r idm on_spot. subst r idm on_spot. unfold Spawn_step.
  unfold Spawn.PLACE_REACH.
  destruct (3 <? _).
  { cbn. split; [reflexivity|]. do 4 (split; [reflexivity|]).
    eexists. repeat split. }
  cbn [agent_set_held_item act world].
  destruct (Spawn.pos s) as [[x y] z] eqn:Epos.
  cbn [xyz_add]. rewrite !Z.add_0_r.
  destruct (xyz_eqb _ _);
    unfold agent_place_block; cbn [agent_step act world];
    destruct (place_block _ _) as [w ok]; cbn [fst];
    destruct (MOBS_BY_ID _) as [mobtype|]; cbn;
    repeat (split; [reflexivity|]); auto.
Qed.
End SpawnSteps.

(** ** Fill *)

Section FillSteps.
Context {C : Collaborators}.

(** X16.  A Fill step on an empty coordinate list raises ValueError and
    changes nothing.  On any other list it returns finished and pushes,
    without a parent memid, one Build child that is embedded, forced,
    silent and carries the fill message, with the least corner of the
    list as its origin: the origin is never snapped to the ground, not
    even for the default grass.  An [undo] of the Fill right after that
    step sends the chat of the Build's undo, then raises TypeError and pushes
    nothing, because the child has not been stepped yet. *)
Theorem Fill_step_then_undo (s : Fill.t) (a : Agent) :
  let r := Fill_step s a in
  match Fill.schematic s with
  | [] => raised r = Some ValueError /\ self r = s /\ agent r = a
  | _ :: _ =>
      raised r = None /\
      Base.finished (Fill.base (self r)) = true /\
      exists b,
        agent r = task_stack_push (TBuild b) None a /\
        Fill.build_task (self r) = Some b /\
        Build.embed b = true /\ Build.force b = true /\
        Build.verbose b = false /\ Build.fill_message b = true /\
        Build.origin b = np_min_axis0 (Fill.schematic s) /\
        let u := Fill_undo (self r) (agent r) in
        raised u = Some TypeError /\
        chats (agent u) = "ok I will remove it."%string :: chats a /\
        task_stack (agent u) = task_stack (agent r)
  end.
Proof.
  intros r. subst r. unfold Fill_step.
  destruct (Fill.schematic s) as [|p t] eqn:Es; [cbn; auto|].
  rewrite <- Es.
  assert (Hmin : np_min_axis0 (Fill.schematic s) <> None)
    by (rewrite Es; discriminate).
  destruct (np_min_axis0 (Fill.schematic s)) as [origin|] eqn:Emin;
    [clear Hmin|congruence].
  unfold Build_init.
  cbn [Build.d_blocks_list Build.d_embed Build.d_force Build.d_origin
       Build.d_verbose Build.d_fill_message Build.d_schematic_memid
       Build.d_schematic_tags default negb andb].
  unfold blocks_list_to_npy. rewrite strip_constant, Emin.
  assert (Hmax : np_max_axis0 (Fill.schematic s) <> None)
    by (rewrite Es; discriminate).
  destruct (np_max_axis0 (Fill.schematic s)) as [[[Mx My] Mz]|];
    [clear Hmax|congruence].
  destruct origin as [[mx my] mz].
  cbn. split; [reflexivity|]. split; [reflexivity|].
  eexists. do 7 (split; [reflexivity|]). cbn. auto.
Qed.
End FillSteps.

(** ** Undoing a Destroy and a Dig *)

Section UndoSteps.
Context {C : Collaborators}.

Lemma Build_init_forced_tags (a : Agent) (blocks : list Block) (o : option XYZ)
      (e v fm : option bool) (sm : option MemId)
      (st : option (list (string * string))) (f : option Handle) :
  blocks <> [] ->
  exists b, Build_init a (Build.mkData blocks o e v (Some true) fm sm st) f = Ok b /\
            Build.force b = true /\
            Build.verbose b = default true v /\
            Build.embed b = default false e /\
            Build.origin b = o /\
            Build.schematic_tags b = default [] st /\
            Build.base b = Task_init f.
Proof.
  intros Hne. unfold Build_init.
  cbn [Build.d_blocks_list Build.d_force Build.d_embed Build.d_origin
       Build.d_verbose default negb andb].
  destruct blocks as [|[p idm] t]; [congruence|].
  unfold blocks_list_to_npy. cbn [strip_idmeta map fst np_min_axis0 np_max_axis0].
  destruct (fold_left xyz_min _ _) as [[mx my] mz].
  destruct (fold_left xyz_max _ _) as [[Mx My] Mz].
  eexists. split; [reflexivity|]. cbn. auto 10.
Qed.

(** The undo of a Destroy that lists a block, as an equation. *)
Lemma Destroy_undo_pushes (s : Destroy.t) (a : Agent) :
  Destroy.schematic s <> [] ->
  exists b,
    Destroy_undo s a
    = returns s (task_stack_push (TBuild b) (Base.memid (Destroy.base s))
                   (send_chat "ok I will build it back." a)) /\
    Build.force b = true /\ Build.verbose b = false /\ Build.embed b = false /\
    Build.origin b = np_min_axis0 (strip_idmeta (Destroy.schematic s)) /\
    Build.schematic_tags b
    = map (fun t => (snd (fst t), snd t)) (Destroy.destroyed_block_object_triples s) /\
    Build.base b = Task_init None.
Proof.
  intros Hne. unfold Destroy_undo, to_relative_pos.
  destruct (Destroy.schematic s) as [|[p idm] t] eqn:Es; [congruence|].
  rewrite <- Es.
  assert (Hmin : np_min_axis0 (strip_idmeta (Destroy.schematic s)) <> None)
    by (rewrite Es; discriminate).
  destruct (np_min_axis0 (strip_idmeta (Destroy.schematic s))) as [origin|];
    [clear Hmin|congruence].
  match goal with
  | |- context [Build_init ?a' (Build.mkData ?bl ?o ?e ?v _ ?fm ?sm ?st) ?f] =>
      destruct (Build_init_forced_tags a' bl o e v fm sm st f)
        as (b & Eb & Hf & Hv & He & Ho & Ht & Hb)
  end.
  { rewrite Es. discriminate. }
  rewrite Eb. exists b. split; [reflexivity|].
  rewrite Hf, Hv, He, Ho, Ht, Hb. cbn.
  do 4 (split; [reflexivity|]). split; [|reflexivity].
  apply map_ext. intros [[subj pred] obj]. reflexivity.
Qed.

(** X17.  [Destroy.undo] on a task that lists a block: it returns, sends
    its one chat, touches neither the world nor the task, and pushes under
    the Destroy's memid one unfinished Build that is forced, silent and
    not embedded, whose origin is the least corner of the listed cells
    (forced, so never snapped to the ground) and whose tags are the
    (predicate, object) pairs of the triples the constructor saved. *)
Theorem Destroy_undo_rebuilds (s : Destroy.t) (a : Agent) :
  Destroy.schematic s <> [] ->
  let r := Destroy_undo s a in
  raised r = None /\ self r = s /\
  chats (agent r) = "ok I will build it back."%string :: chats a /\
  acts (agent r) = acts a /\ world (agent r) = world a /\
  exists b,
    task_stack (agent r) = (TBuild b, Base.memid (Destroy.base s)) :: task_stack a /\
    Build.force b = true /\ Build.verbose b = false /\ Build.embed b = false /\
    Build.origin b = np_min_axis0 (strip_idmeta (Destroy.schematic s)) /\
    Build.schematic_tags b
    = map (fun t => (snd (fst t), snd t)) (Destroy.destroyed_block_object_triples s) /\
    Base.finished (Build.base b) = false.
Proof.
  intros Hne r. subst r.
  destruct (Destroy_undo_pushes s a Hne)
    as (b & -> & Hf & Hv & He & Ho & Ht & Hb).
  cbn. do 5 (split; [reflexivity|]). exists b. rewrite Hb. auto 10.
Qed.


End UndoSteps.

(** In the example one stone block had been listed: the undo pushes a
    Build at that block. *)
Lemma Destroy_undo_rebuilds_witness :
  let r := Destroy_undo Examples.rubble Cases.next_to_rubble in
  raised r = None /\
  exists b, task_stack (agent r) = [(TBuild b, None)] /\
            Build.origin b = Some (5, 64, 5).
Proof.
  intros r.
  destruct (Destroy_undo_rebuilds Examples.rubble Cases.next_to_rubble)
    as (Hr & _ & _ & _ & _ & b & Hst & _ & _ & _ & Ho & _).
  - discriminate.
  - split; [exact Hr|]. exists b. split; [exact Hst|exact Ho].
Defined.


(** ** Build: the constructor and the end *)

Section BuildEnds.
Context {C : Collaborators}.

(** One replacement leaves a block id that is not [bad] alone. *)
Lemma grid_replace_other (bad : Z) (good : IDM) (g : Grid IDM) (c : Idx) :
  fst (cell g c) <> bad -> cell (grid_replace bad good g) c = cell g c.
Proof.
  intros H. cbn. destruct (_ =? _) eqn:E; [|reflexivity].
  apply Z.eqb_eq in E. contradiction.
Qed.

Lemma grid_replace_shape (M : list (Z * IDM)) (g : Grid IDM) :
  shape (fold_left (fun g '(bad, good) => grid_replace bad good g) M g)
  = shape g.
Proof.
  revert g. induction M as [|[bad good] M IH]; intros g; [reflexivity|].
  cbn [fold_left]. now rewrite IH.
Qed.

(** The replacement loop never touches a block id that is not a key of
    the table. *)
Lemma replace_loop_other (M : list (Z * IDM)) (g : Grid IDM) (c : Idx) :
  ~ In (fst (cell g c)) (map fst M) ->
  cell (fold_left (fun g '(bad, good) => grid_replace bad good g) M g) c
  = cell g c.
Proof.
  revert g. induction M as [|[bad good] M IH]; intros g Hk; [reflexivity|].
  cbn [fold_left]. cbn [map fst] in Hk.
  assert (E : cell (grid_replace bad good g) c = cell g c).
  { apply grid_replace_other. intros E. apply Hk. left. now symmetry. }
  rewrite IH; rewrite E; [reflexivity|]. intros H. apply Hk. now right.
Qed.

(** The replacement loop over a table none of whose replacements is
    itself a key: after the keys [done], a cell is off [done]; at the end
    it is off every key. *)
Lemma replace_loop_clean (K : list Z) (M : list (Z * IDM)) (c : Idx) :
  forall (done : list Z) (g : Grid IDM),
    (forall bad good, In (bad, good) M -> ~ In (fst good) K) ->
    (forall k, In k (done ++ map fst M) -> In k K) ->
    ~ In (fst (cell g c)) done ->
    ~ In (fst (cell (fold_left (fun g '(bad, good) => grid_replace bad good g)
                               M g) c))
         (done ++ map fst M).
Proof.
  induction M as [|[bad good] M IH]; intros done g Hgood HK Hdone.
  - cbn. now rewrite app_nil_r.
  - cbn [fold_left map fst].
    replace (done ++ bad :: map fst M) with ((done ++ [bad]) ++ map fst M)
      by (rewrite <- app_assoc; reflexivity).
    apply IH.
    + intros b' g' Hin. apply (Hgood b' g'). now right.
    + intros k Hk. apply HK. cbn [map fst].
      rewrite <- app_assoc in Hk. exact Hk.
    + cbn [grid_replace cell]. destruct (_ =? _) eqn:E.
      * intros Hin. apply (Hgood bad good); [now left|].
        apply HK. cbn [map fst].
        apply in_app_or in Hin as [Hin|Hin]; apply in_or_app;
          [now left|right].
        destruct Hin as [Hin|[]]. now left.
      * apply Z.eqb_neq in E. intros Hin.
        apply in_app_or in Hin as [Hin|[Hin|[]]]; [now apply Hdone|].
        now apply E.
Qed.

(** X19.  What the constructor of Build does to the schematic.  The grid
    keeps the shape of the blocks list's bounding box, and a cell whose
    block id is not a key of [BUILD_BLOCK_REPLACE_MAP] is left as listed.
    When no replacement of the table is itself a key, no cell of the
    schematic holds a key of the table afterwards, so the Build never
    asks for a block the table rules out. *)
Theorem Build_init_replaces_blocks (a : Agent) (d : Build.data)
        (f : option Handle) (b : Build.t) :
  Build_init a d f = Ok b ->
  exists g off,
    blocks_list_to_npy (Build.d_blocks_list d) = Some (g, off) /\
    shape (Build.schematic b) = shape g /\
    (forall c, ~ In (fst (cell g c)) (map fst BUILD_BLOCK_REPLACE_MAP) ->
               cell (Build.schematic b) c = cell g c) /\
    ((forall bad good, In (bad, good) BUILD_BLOCK_REPLACE_MAP ->
                       ~ In (fst good) (map fst BUILD_BLOCK_REPLACE_MAP)) ->
     forall c, ~ In (fst (cell (Build.schematic b) c))
                    (map fst BUILD_BLOCK_REPLACE_MAP)).
Proof.
  unfold Build_init.
  destruct (blocks_list_to_npy _) as [[g off]|]; [|discriminate].
  set (g' := fold_left _ BUILD_BLOCK_REPLACE_MAP g).
  assert (Hb : forall b', Build.schematic b' = g' ->
    shape (Build.schematic b') = shape g /\
    (forall c, ~ In (fst (cell g c)) (map fst BUILD_BLOCK_REPLACE_MAP) ->
               cell (Build.schematic b') c = cell g c) /\
    ((forall bad good, In (bad, good) BUILD_BLOCK_REPLACE_MAP ->
                       ~ In (fst good) (map fst BUILD_BLOCK_REPLACE_MAP)) ->
     forall c, ~ In (fst (cell (Build.schematic b') c))
                    (map fst BUILD_BLOCK_REPLACE_MAP))).
  { intros b' ->. split; [apply grid_replace_shape|].
    split; [intros c; apply replace_loop_other|].
    intros Hgood c.
    apply (replace_loop_clean (map fst BUILD_BLOCK_REPLACE_MAP)
                              BUILD_BLOCK_REPLACE_MAP c [] g); auto. }
  destruct (_ && _).
  - destruct (Build.d_origin d) as [[[ox oy] oz]|]; [|discriminate].
    intros E. inversion E; subst b. exists g, off.
    split; [reflexivity|]. now apply Hb.
  - intros E. inversion E; subst b. exists g, off.
    split; [reflexivity|]. now apply Hb.
Qed.

(** X20.  [Build.finish] is all or nothing.  When it raises, which it
    does only with IndexError (no block in the schematic, or no block
    object in the memory at the first block) or TypeError (no origin),
    nothing at all has changed: no tag was written and no chat sent.  When
    it returns, the task is finished and otherwise as it was, the world
    and the task stack are untouched, and the chats sent are the building
    notice (for a verbose task) followed by the filling notice (for a task
    with the fill message). *)
Theorem Build_finish_all_or_nothing (s : Build.t) (a : Agent) :
  let r := Build_finish s a in
  match raised r with
  | Some e => self r = s /\ agent r = a /\ (e = IndexError \/ e = TypeError)
  | None =>
      self r = Build.set_base (Base.set_finished true (Build.base s)) s /\
      world (agent r) = world a /\ acts (agent r) = acts a /\
      task_stack (agent r) = task_stack a /\
      chats (agent r)
      = (if Build.fill_message s then ["I finished filling this"%string] else [])
        ++ (if Build.verbose s then ["I finished building this"%string] else [])
        ++ chats a
  end.
Proof.
  intros r. subst r. unfold Build_finish.
  destruct (Build.origin s); [|cbn; auto].
  destruct (npy_to_blocks_list _ _) as [|[xyz ?] ?]; [cbn; auto|].
  destruct (get_block_object_ids_by_xyz _ _); [cbn; auto|].
  cbn [raised self agent returns]. split; [reflexivity|].
  destruct (Build.verbose s), (Build.fill_message s); cbn; auto.
Qed.
End BuildEnds.

(** In the small world the table maps water to air and gravel to stone,
    and neither air nor stone is a key: the corner schematic holds no
    key. *)
Lemma Build_init_replaces_blocks_witness :
  ~ In (fst (cell (Build.schematic Examples.corner) (0, 0, 0)))
       (map fst (BUILD_BLOCK_REPLACE_MAP (Collaborators := Demo.collaborators))).
Proof.
  destruct (Build_init_replaces_blocks
              (Demo.agent_at (0, 64, 0) [] false)
              (Build.mkData Examples.corner_blocks (Some (0, 64, 0)) None None
                            (Some true) None None None)
              None Examples.corner eq_refl) as (g & off & _ & _ & _ & H).
  apply H. intros bad good Hin. cbn in Hin.
  destruct Hin as [E|[E|[E|[]]]]; inversion E; subst; cbn;
    intuition discriminate.
Defined.

(** ** Move: putting dug blocks back *)

Section MovePuts.
Context {C : Collaborators}.

Lemma Move_flush_acts (R : list (XYZ * IDM)) (rep0 : gset (XYZ * IDM))
      (a0 : Agent) :
  acts (snd (fold_left
               (fun '(rep, a) '(pos, idm) =>
                  let a := agent_set_held_item idm a in
                  let '(a, ok) := agent_place_block pos a in
                  if ok then (rep, a) else (rep ∪ {[ (pos, idm) ]}, a))
               R (rep0, a0)))
  = flat_map put_back (rev R) ++ acts a0.
Proof.
  set (f := fun '(rep, a) '(pos, idm) =>
              let a := agent_set_held_item idm a in
              let '(a, ok) := agent_place_block pos a in
              if ok then (rep, a) else (rep ∪ {[ (pos, idm) ]}, a)).
  revert rep0 a0.
  induction R as [|[pos idm] t IH]; intros rep0 a0; cbn [fold_left];
    [reflexivity|].
  destruct (f (rep0, a0) (pos, idm)) as [rep1 a1] eqn:E.
  assert (H1 : acts a1 = put_back (pos, idm) ++ acts a0).
  { unfold f, agent_place_block in E. cbv zeta in E.
    destruct (place_block _ _) as [w ok]. destruct ok; inversion E; reflexivity. }
  rewrite IH, H1. cbn [rev]. rewrite flat_map_app. cbn [flat_map].
  rewrite app_nil_r, <- app_assoc. reflexivity.
Qed.

Lemma Move_handle_no_path_no_put (s : Move.t) (a : Agent) :
  exists rest, acts (agent (Move_handle_no_path s a)) = rest ++ acts a /\
               Forall (fun x => is_put x = false) rest.
Proof.
  unfold Move_handle_no_path.
  destruct (List.find _ Move.STEP_FNS) as [[vec fn]|];
    [|exists []; split; [reflexivity|constructor]].
  destruct (xyz_add _ vec) as [[x y] z].
  set (blocks := npy_to_blocks_list (get_blocks a x x y (y + 1) z z) (x, y, z)).
  pose proof (Move_dig_loop blocks (Move.replace s) a) as Hloop.
  cbv beta iota zeta in Hloop |- *. revert Hloop.
  match goal with |- context [fold_left ?f blocks ?i] =>
    destruct (fold_left f blocks i) as [rep a1] end.
  cbn [fst snd]. intros (_ & Hacts & _).
  exists (AStep fn :: rev (map (fun b => ADig (fst b)) blocks)).
  cbn [agent returns agent_step act acts]. rewrite Hacts.
  split; [reflexivity|]. constructor; [reflexivity|].
  apply List.Forall_forall. intros act0 Hx.
  apply (proj2 (in_rev _ _)) in Hx. apply in_map_iff in Hx as (b & <- & _).
  reflexivity.
Qed.

Lemma Move_take_step_no_put (s : Move.t) (p : list XYZ) (a : Agent) :
  exists rest, acts (agent (Move_take_step s p a)) = rest ++ acts a /\
               Forall (fun x => is_put x = false) rest.
Proof.
  unfold Move_take_step.
  destruct (last p); [|exists []; split; [reflexivity|constructor]].
  destruct (negb _); [exists []; split; [reflexivity|constructor]|].
  destruct (last (removelast p));
    [|exists []; split; [reflexivity|constructor]].
  destruct (List.find _ _) as [[v fn]|];
    [|exists []; split; [reflexivity|constructor]].
  exists [AStep fn]. split; [reflexivity|]. repeat constructor.
Qed.

(** X21.  A Move step tries to put every queued block back exactly once,
    before anything else: for each entry of the replace set, in the order
    the set is walked, it holds the block-type and places at the
    position.  Whatever the step does after that (a movement, digging its
    way) holds and places nothing. *)
Theorem Move_step_puts_back_once (s : Move.t) (a : Agent) :
  let r := Move_step s a in
  exists rest,
    acts (agent r)
    = rest ++ flat_map put_back (rev (elements (Move.replace s))) ++ acts a /\
    Forall (fun x => is_put x = false) rest.
Proof.
  intros r. subst r. unfold Move_step.
  assert (Hflush : acts (snd (Move_flush (elements (Move.replace s)) a))
                   = flat_map put_back (rev (elements (Move.replace s)))
                     ++ acts a) by apply Move_flush_acts.
  cbn [Move_set_base Move.replace Move.target Move.approx Move.base Move.path].
  destruct (Move_flush _ a) as [rep a1]. cbn [snd] in Hflush.
  cbn [Move_set_replace Move.replace Move.target Move.approx Move.base
       Move.path].
  destruct (_ <=? _).
  { destruct (Base.memid _); exists []; (split; [exact Hflush|constructor]). }
  match goal with
  | |- context [match ?st with Ok _ => _ | Raise _ => _ end] =>
      destruct st as [recompute|e]
  end.
  2:{ exists []. split; [exact Hflush|constructor]. }
  match goal with
  | |- context [match Move.path ?s' with Some _ => _ | None => _ end] =>
      set (s2 := s')
  end.
  destruct (Move.path s2) as [p|].
  - destruct (Move_take_step_no_put s2 p a1) as (rest & Hacts & Hrest).
    exists rest. rewrite Hacts, Hflush. auto.
  - destruct (Move_handle_no_path_no_put s2 a1) as (rest & Hacts & Hrest).
    exists rest. rewrite Hacts, Hflush. auto.
Qed.
End MovePuts.

(** ** Undo *)

Section UndoQuiet.
Context {C : Collaborators}.

(** What an [undo] method may do to the agent: at most one chat and at
    most two pushed tasks, and nothing to the world. *)
Ltac quiet :=
  cbn; repeat (split; [reflexivity|]);
  first [ exists []; split; [reflexivity|cbn; lia]
        | eexists [_]; split; [reflexivity|cbn; lia]
        | eexists [_; _]; split; [reflexivity|cbn; lia] ].

Lemma Build_undo_quiet (s : Build.t) (a : Agent) :
  let r := Build_undo s a in
  world (agent r) = world a /\ acts (agent r) = acts a /\
  chats (agent r) = "ok I will remove it."%string :: chats a /\
  exists pushed, task_stack (agent r) = pushed ++ task_stack a /\
                 (List.length pushed <= 2)%nat.
Proof.
  unfold Build_undo.
  destruct (Build.old_blocks_list s) as [old|]; [|quiet].
  destruct (0 <? List.length old)%nat.
  - destruct (Build_init _ _ _) as [b|e]; [|quiet].
    destruct (0 <? List.length (Build.new_blocks s))%nat; [|quiet].
    destruct (Destroy_init _ _ _); quiet.
  - destruct (0 <? List.length (Build.new_blocks s))%nat; [|quiet].
    destruct (Destroy_init _ _ _); quiet.
Qed.

Lemma Destroy_undo_quiet (s : Destroy.t) (a : Agent) :
  let r := Destroy_undo s a in
  world (agent r) = world a /\ acts (agent r) = acts a /\
  chats (agent r) = "ok I will build it back."%string :: chats a /\
  exists pushed, task_stack (agent r) = pushed ++ task_stack a /\
                 (List.length pushed <= 2)%nat.
Proof.
  unfold Destroy_undo.
  destruct (to_relative_pos _) as [[schematic origin]|]; [|quiet].
  destruct (Build_init _ _ _); quiet.
Qed.

Lemma Task_undo_quiet (t : Task) (a : Agent) :
  let a' := fst (Task_undo t a) in
  world a' = world a /\ acts a' = acts a /\
  (exists new, chats a' = new ++ chats a /\ (List.length new <= 1)%nat) /\
  exists pushed, task_stack a' = pushed ++ task_stack a /\
                 (List.length pushed <= 2)%nat.
Proof.
  assert (Hnone : world a = world a /\ acts a = acts a /\
            (exists new, chats a = new ++ chats a /\ (List.length new <= 1)%nat) /\
            exists pushed, task_stack a = pushed ++ task_stack a /\
                           (List.length pushed <= 2)%nat).
  { do 2 (split; [reflexivity|]).
    split; exists []; split; try reflexivity; cbn; lia. }
  assert (Hb : forall b, 
            let a' := agent (Build_undo b a) in
            world a' = world a /\ acts a' = acts a /\
            (exists new, chats a' = new ++ chats a /\ (List.length new <= 1)%nat) /\
            exists pushed, task_stack a' = pushed ++ task_stack a /\
                           (List.length pushed <= 2)%nat).
  { intros b. destruct (Build_undo_quiet b a) as (H1 & H2 & H3 & H4).
    cbv zeta. rewrite H1, H2, H3. do 2 (split; [reflexivity|]).
    split; [|exact H4]. eexists [_]. split; [reflexivity|cbn; lia]. }
  assert (Hd : forall d, 
            let a' := agent (Destroy_undo d a) in
            world a' = world a /\ acts a' = acts a /\
            (exists new, chats a' = new ++ chats a /\ (List.length new <= 1)%nat) /\
            exists pushed, task_stack a' = pushed ++ task_stack a /\
                           (List.length pushed <= 2)%nat).
  { intros d. destruct (Destroy_undo_quiet d a) as (H1 & H2 & H3 & H4).
    cbv zeta. rewrite H1, H2, H3. do 2 (split; [reflexivity|]).
    split; [|exact H4]. eexists [_]. split; [reflexivity|cbn; lia]. }
  destruct t as [x|x|b|f|d|x|x|g|x]; cbn [Task_undo fst]; try exact Hnone.
  - apply Hb.
  - unfold Fill_undo. destruct (Fill.build_task f); [apply Hb|exact Hnone].
  - apply Hd.
  - unfold Dig_undo. destruct (Dig.destroy_task g); [apply Hd|exact Hnone].
Qed.

(** X22.  An Undo step acts on the world through no primitive: whatever
    task the memory returns, the world and the log of primitive calls are
    as before, at most one chat is sent and at most two tasks are pushed.
    The Undo is marked finished exactly when the step returns; a step that
    raises (no such task, a task class without an [undo] method, or an
    [undo] that raises) leaves the Undo as it was. *)
Theorem Undo_step_only_pushes (s : Undo.t) (a : Agent) :
  let r := Undo_step s a in
  world (agent r) = world a /\ acts (agent r) = acts a /\
  (exists new, chats (agent r) = new ++ chats a /\ (List.length new <= 1)%nat) /\
  (exists pushed, task_stack (agent r) = pushed ++ task_stack a /\
                  (List.length pushed <= 2)%nat) /\
  match raised r with
  | None => self r = Undo.mk (Base.set_finished true (Undo.base s))
                             (Undo.to_undo_memid s)
  | Some _ => self r = s
  end.
Proof.
  intros r. subst r. unfold Undo_step.
  destruct (get_task_by_id _ _) as [t|].
  2:{ cbn. do 2 (split; [reflexivity|]).
      split; [exists []; split; [reflexivity|cbn; lia]|].
      split; [exists []; split; [reflexivity|cbn; lia]|reflexivity]. }
  pose proof (Task_undo_quiet t a) as H. cbv zeta in H.
  destruct (Task_undo t a) as [a' [e|]]; cbn [fst] in H;
    destruct H as (H1 & H2 & H3 & H4); cbn; auto.
Qed.
End UndoQuiet.
